(** * WAutoSend: the scheduled delivery engine of [src/wautosend/scheduler.js]

    The class [WASScheduler] is embedded as computations over an explicit
    world: the fields of the scheduler object, the schedule store kept by
    [WASStorage] (this repository's storage module), a millisecond clock and
    the live page.  The page belongs to a third party, so it enters as an
    interface ([Browser]): every DOM mutation the code performs is a
    [UiAction] handed to the page, every DOM query is an observation of it.

    Conventions.
    - An [async] method is a function from the world to an outcome: a
      completion (value or thrown error), the world reached, and the list of
      externally visible events in the order they happened.  State reached
      before a [throw] is kept, as in JavaScript.
    - [this.log] only writes to the console when [debugMode] is set and is
      left out.
    - Every [this.sleep(ms)] is recorded with the call site it comes from
      ([SleepSite]), so that two sleeps of the same length stay apart.
    - Time only passes in [sleep]; [Date.now()] reads the clock.
    - Strings are sequences of 8-bit units; [substring], [includes] and
      [trim] act unit-wise as their JavaScript namesakes do.
    - The world holds what [chrome.storage.local] keeps under
      [was_schedules], and [chrome.storage.local] is taken to exist and
      its calls to succeed; the copy of the schedules in [localStorage]
      is not part of the world.  What the storage module does in every
      other state is the subject of its own model, [WASStorage], and
      [markScheduleSent_refines] relates the two. *)

From Stdlib Require Import ZArith List String Ascii Bool Lia.
From Stdlib Require Import DecimalString DecimalZ DecimalPos OrderedTypeEx.
Import ListNotations.
Local Open Scope string_scope.
Local Open Scope list_scope.

(* ------------------------------------------------------------------ *)
(** ** JavaScript values and strings *)

Inductive JsVal : Type :=
| JUndefined
| JNull
| JBool (b : bool)
| JNum (z : Z)
| JStr (s : string).

(** [if (v)], [!v] *)
Definition truthy (v : JsVal) : bool :=
  match v with
  | JUndefined | JNull => false
  | JBool b => b
  | JNum z => negb (Z.eqb z 0)
  | JStr s => negb (s =? "")
  end.

(** [a || b] *)
Definition js_or (a b : JsVal) : JsVal := if truthy a then a else b.

(** [s.includes(sub)] *)
Definition includes (s sub : string) : bool :=
  match index 0 sub s with
  | Some _ => true
  | None => false
  end.

Definition is_ws (c : ascii) : bool :=
  let n := nat_of_ascii c in
  existsb (Nat.eqb n) [9; 10; 11; 12; 13; 32; 160]%nat.

Fixpoint drop_ws (l : list ascii) : list ascii :=
  match l with
  | c :: l' => if is_ws c then drop_ws l' else l
  | [] => []
  end.

(** [s.trim()] *)
Definition trim (s : string) : string :=
  string_of_list_ascii
    (rev (drop_ws (rev (drop_ws (list_ascii_of_string s))))).

(** [!s], for a string *)
Definition str_falsy (s : string) : bool := s =? "".

(** A [message] field: [None] stands for a record whose field is
    [undefined] or [null] ([saveSchedule] spreads whatever it is given). *)
Definition field_falsy (m : option string) : bool :=
  match m with
  | Some s => str_falsy s
  | None => true
  end.

(* ------------------------------------------------------------------ *)
(** ** Completions *)

Definition Err : Type := string.   (* [error.message] *)

Inductive Result (A : Type) : Type :=
| Ok (a : A)
| Throw (e : Err).
Arguments Ok {A} a.
Arguments Throw {A} e.

(* ------------------------------------------------------------------ *)
(** ** The page *)

Definition Elem : Type := nat.

Inductive KeyPhase : Type := KeyDown | KeyUp.

(** The DOM mutations and synthetic input the scheduler performs. *)
Inductive UiAction : Type :=
| AFocus (e : Elem)                                  (* e.focus() *)
| AClick (e : Elem)                                  (* e.click() *)
| AKey (e : Elem) (ph : KeyPhase) (key : string) (ctrl : bool)
                                (* e.dispatchEvent(new KeyboardEvent(..)) *)
| ADispatch (e : Elem) (type : string)
                     (* e.dispatchEvent(new Event / FocusEvent(type)) *)
| AExec (cmd : string) (arg : string)
                                   (* document.execCommand(cmd, false, arg) *)
| ASet (e : Elem) (prop : string) (s : string)       (* e[prop] = s *)
| AClipboardWrite (s : string).      (* navigator.clipboard.writeText(s) *)

(** What the scheduler needs of the browser and of the page shown in it.
    [act] performs one action: it may throw, and [document.execCommand]
    answers with a boolean.  [elapse] is what the page does on its own
    while the scheduler sleeps.  The fields that follow are the answers
    of the resolver functions and DOM reads on a given page;
    [localeCompare] is the string comparison built into the browser, whose
    order is not fixed by the program. *)
Class Browser : Type := {
  Page : Type;
  act : UiAction -> Page -> Result bool * Page;
  elapse : Z -> Page -> Page;
  findMessageInputBox : Page -> option Elem;
  findSearchInput : Page -> option Elem;
  isSearchBox : Page -> Elem -> bool;
  activeElement : Page -> option Elem;       (* document.activeElement *)
  textOf : Page -> Elem -> string;
                                (* el.textContent || el.innerText || '' *)
  messageTexts : Page -> list string;
     (* textContent of each element matching
        [data-testid="msg-container"], .message-out, .msg-out *)
  disconnectedBanner : Page -> bool;
                (* document.querySelector(selectors.disconnectedBanner) *)
  clipboardText : Page -> Result string;
                                     (* navigator.clipboard.readText() *)
  localeCompare : string -> string -> Z
     (* a.localeCompare(b) in the collation of the browser: negative,
        zero or positive *)
}.

(* ------------------------------------------------------------------ *)
(** ** Schedules, settings, events *)

(** A stored schedule.  [contactList] is the array [addSchedule] stores;
    a record that only has the older [contactName] field is read as the
    one-element list of that name. *)
Record Schedule : Type := {
  id : string;
  time : string;                       (* "HH:MM" *)
  message : option string;
  useClipboard : bool;
  contactList : list string;
  sent : bool;
  lastSentDate : option Z            (* day number of [toDateString()] *)
}.

Record Settings : Type := {
  sendDelay : Z;
  autoRetry : bool
}.

Inductive StatusType : Type := SInfo | SSuccess | SError | SWorking.

(** The messages handed to [updateStatus], one constructor per template. *)
Inductive StatusMsg : Type :=
| MsgNoScheduled                           (* 'No scheduled messages' *)
| MsgNext (t : string) (ncontacts : nat)   (* `Next message ...` *)
| MsgSendingCount (n : nat)                (* `Sending ${n} message(s)...` *)
| MsgSendingOne (prefix : string)          (* `Sending: ${prefix}...` *)
| MsgFailedToSend (err : Err)       (* `Failed to send message: ${err}` *)
| MsgScheduleCheckError (err : Err)        (* `Schedule check error: ..` *)
| MsgSentOk                         (* 'Message sent successfully' *)
| MsgSendFailed                     (* 'Failed to send message' *)
| MsgOpeningChat (name : string)           (* `Opening chat: ${name}...` *)
| MsgChatOpened (name : string)            (* `Chat opened: ${name}` *)
| MsgChatOpenFailed (name : string).   (* `Failed to open chat: ..` *)

(** Where a [this.sleep] call stands in the source. *)
Inductive SleepSite : Type :=
| AtSettle         (* checkSchedules: sleep(3000) between messages *)
| AtInterTarget    (* sleep(this.settings.sendDelay) in the target loops *)
| AtAfterOpen      (* sleep(300) / sleep(250) once a chat is open *)
| AtBackoff        (* smartRetry: sleep(delay) *)
| AtCooldown       (* injectAndSendMessage: the send cooldown *)
| AtPoll           (* waitForMessageSent: sleep(200) *)
| AtPace.          (* the fixed pauses between UI steps *)

Inductive TimerJob : Type := ReloadPage | CloseTab | RecoverContext.

Inductive Event : Type :=
| ESleep (site : SleepSite) (ms : Z)
| EUi (a : UiAction)
| EClipboardRead
| EStatus (m : StatusMsg) (t : StatusType)
                               (* notifyUI('statusUpdate', {message, type}) *)
| EMessageSent (sid tm preview : string)
                                     (* notifyUI('messageSent', {..}) *)
| EMarkSent (sid : string)     (* window.wasStorage.markScheduleSent(id) *)
| ETimer (ms : Z) (job : TimerJob)   (* setTimeout(job, ms) *)
| EStopped.                          (* clearInterval in stop() *)

(** A DOM mutation or synthetic input. *)
Definition is_ui_mutation (e : Event) : bool :=
  match e with
  | EUi _ => true
  | _ => false
  end.

(** A call that writes to the schedule store. *)
Definition is_store_update (e : Event) : bool :=
  match e with
  | EMarkSent _ => true
  | _ => false
  end.

Section Engine.
Context {B : Browser}.

(* ------------------------------------------------------------------ *)
(** ** The world and the computations over it *)

Record World : Type := {
  page : Page;
  clock : Z;                            (* Date.now() *)
  isRunning : bool;
  isSending : bool;
  isCheckingSchedules : bool;
  lastSendTime : Z;
  settings : Settings;                  (* this.settings *)
  schedules : list Schedule;
                       (* chrome.storage.local: was_schedules, [] if unset *)
  postSendAction : option string;       (* storage: was_settings *)
  contextValid : bool                   (* chrome.runtime.id is there *)
}.

Definition set_page (p : Page) (w : World) : World :=
  {| page := p; clock := clock w; isRunning := isRunning w;
     isSending := isSending w;
     isCheckingSchedules := isCheckingSchedules w;
     lastSendTime := lastSendTime w; settings := settings w;
     schedules := schedules w; postSendAction := postSendAction w;
     contextValid := contextValid w |}.

Definition set_clock (t : Z) (w : World) : World :=
  {| page := page w; clock := t; isRunning := isRunning w;
     isSending := isSending w;
     isCheckingSchedules := isCheckingSchedules w;
     lastSendTime := lastSendTime w; settings := settings w;
     schedules := schedules w; postSendAction := postSendAction w;
     contextValid := contextValid w |}.

Definition set_isRunning (b : bool) (w : World) : World :=
  {| page := page w; clock := clock w; isRunning := b;
     isSending := isSending w;
     isCheckingSchedules := isCheckingSchedules w;
     lastSendTime := lastSendTime w; settings := settings w;
     schedules := schedules w; postSendAction := postSendAction w;
     contextValid := contextValid w |}.

Definition set_isSending (b : bool) (w : World) : World :=
  {| page := page w; clock := clock w; isRunning := isRunning w;
     isSending := b;
     isCheckingSchedules := isCheckingSchedules w;
     lastSendTime := lastSendTime w; settings := settings w;
     schedules := schedules w; postSendAction := postSendAction w;
     contextValid := contextValid w |}.

Definition set_isCheckingSchedules (b : bool) (w : World) : World :=
  {| page := page w; clock := clock w; isRunning := isRunning w;
     isSending := isSending w;
     isCheckingSchedules := b;
     lastSendTime := lastSendTime w; settings := settings w;
     schedules := schedules w; postSendAction := postSendAction w;
     contextValid := contextValid w |}.

Definition set_lastSendTime (t : Z) (w : World) : World :=
  {| page := page w; clock := clock w; isRunning := isRunning w;
     isSending := isSending w;
     isCheckingSchedules := isCheckingSchedules w;
     lastSendTime := t; settings := settings w;
     schedules := schedules w; postSendAction := postSendAction w;
     contextValid := contextValid w |}.

Definition set_schedules (l : list Schedule) (w : World) : World :=
  {| page := page w; clock := clock w; isRunning := isRunning w;
     isSending := isSending w;
     isCheckingSchedules := isCheckingSchedules w;
     lastSendTime := lastSendTime w; settings := settings w;
     schedules := l; postSendAction := postSendAction w;
     contextValid := contextValid w |}.

Record Outcome (A : Type) : Type := {
  res : Result A;
  st : World;
  evs : list Event
}.
Arguments res {A} o.
Arguments st {A} o.
Arguments evs {A} o.

Definition M (A : Type) : Type := World -> Outcome A.

Definition ret {A} (a : A) : M A :=
  fun w => {| res := Ok a; st := w; evs := [] |}.

Definition throw {A} (e : Err) : M A :=
  fun w => {| res := Throw e; st := w; evs := [] |}.

(** The events of [o], then whatever [k] does from the world [o] reached. *)
Definition andThen {A C} (o : Outcome A) (k : World -> Outcome C)
  : Outcome C :=
  let o' := k (st o) in
  {| res := res o'; st := st o'; evs := evs o ++ evs o' |}.

Definition bind {A C} (m : M A) (f : A -> M C) : M C :=
  fun w =>
    let o := m w in
    match res o with
    | Ok a => andThen o (f a)
    | Throw e => {| res := Throw e; st := st o; evs := evs o |}
    end.

(** [try { m } catch (e) { h e }] *)
Definition try_catch {A} (m : M A) (h : Err -> M A) : M A :=
  fun w =>
    let o := m w in
    match res o with
    | Ok _ => o
    | Throw e => andThen o (h e)
    end.

(** [try { m } finally { f }]: [f] runs either way; the completion of [m]
    stands unless [f] throws. *)
Definition finally {A} (m : M A) (f : M unit) : M A :=
  fun w =>
    let o := m w in
    let o' := f (st o) in
    {| res := match res o' with
              | Ok _ => res o
              | Throw e => Throw e
              end;
       st := st o';
       evs := evs o ++ evs o' |}.

Definition get : M World :=
  fun w => {| res := Ok w; st := w; evs := [] |}.

Definition modify (f : World -> World) : M unit :=
  fun w => {| res := Ok tt; st := f w; evs := [] |}.

Definition emit (e : Event) : M unit :=
  fun w => {| res := Ok tt; st := w; evs := [e] |}.

End Engine.

Arguments res {B A} o.
Arguments st {B A} o.
Arguments evs {B A} o.

Declare Scope sched_scope.
Delimit Scope sched_scope with sched.
Notation "x <- c1 ;; c2" := (bind c1 (fun x => c2))
  (at level 61, c1 at next level, right associativity) : sched_scope.
Notation "c1 ;; c2" := (bind c1 (fun _ => c2))
  (at level 61, right associativity) : sched_scope.
Local Open Scope sched_scope.

Section Scheduler.
Context {B : Browser}.

(* ------------------------------------------------------------------ *)
(** ** Primitives *)

(** [await this.sleep(ms)]: the clock advances and the page lives on. *)
Definition sleep (site : SleepSite) (ms : Z) : M unit :=
  fun w =>
    let d := Z.max 0 ms in
    {| res := Ok tt;
       st := set_clock (clock w + d) (set_page (elapse d (page w)) w);
       evs := [ESleep site ms] |}.

(** One DOM mutation or synthetic input event. *)
Definition ui (a : UiAction) : M bool :=
  fun w =>
    {| res := fst (act a (page w));
       st := set_page (snd (act a (page w))) w;
       evs := [EUi a] |}.

(** A DOM query. *)
Definition read {A} (f : Page -> A) : M A :=
  fun w => {| res := Ok (f (page w)); st := w; evs := [] |}.

Definition updateStatus (m : StatusMsg) (t : StatusType) : M unit :=
  emit (EStatus m t).

Definition isWhatsAppConnected (p : Page) : bool :=
  negb (disconnectedBanner p).

(* ------------------------------------------------------------------ *)
(** ** Time of day *)

Definition digit (n : Z) : ascii := ascii_of_nat (48 + Z.to_nat n).

(** [n.toString().padStart(2, '0')] for [0 <= n < 100] *)
Definition pad2 (n : Z) : string :=
  String (digit (n / 10)) (String (digit (n mod 10)) "").

(** [getCurrentTimeString], the local time zone taken to be UTC. *)
Definition getCurrentTimeString (t : Z) : string :=
  pad2 ((t / 3600000) mod 24) ++ ":" ++ pad2 ((t / 60000) mod 60).

(** The day on which instant [t] falls ([new Date().toDateString()]). *)
Definition today (t : Z) : Z := (t / 86400000)%Z.

(* ------------------------------------------------------------------ *)
(** ** The schedule store ([WASStorage]); chrome.storage.local is taken
    to be reachable and to accept every write. *)

Definition mark_sent (d : Z) (s : Schedule) : Schedule :=
  {| id := id s; time := time s; message := message s;
     useClipboard := useClipboard s; contactList := contactList s;
     sent := true; lastSentDate := Some d |}.

(** [updateSchedule]: [findIndex] picks the first record with that id. *)
Fixpoint updateSchedule (sid : string) (upd : Schedule -> Schedule)
  (l : list Schedule) : list Schedule :=
  match l with
  | [] => []
  | s :: l' =>
      if id s =? sid then upd s :: l' else s :: updateSchedule sid upd l'
  end.

(** [window.wasStorage.markScheduleSent(id)] (debug.js 648-654, through
    [updateSchedule] 627-641 and [saveSchedules] 544-577).  While the
    extension context is valid the record is replaced under
    [was_schedules] and the answer tells whether there was one.  Once the
    context is invalid the storage module reads and writes its copy in
    [localStorage] only: [was_schedules] stays as it is and the answer is
    [false]. *)
Definition markScheduleSent (sid : string) : M bool :=
  emit (EMarkSent sid) ;;
  w <- get ;;
  if contextValid w then
    modify (set_schedules
              (updateSchedule sid (mark_sent (today (clock w)))
                 (schedules w))) ;;
    ret (existsb (fun s => id s =? sid) (schedules w))
  else ret false.

(* ------------------------------------------------------------------ *)
(** ** shouldSendMessage (scheduler.js 245-263) *)

Definition shouldSendMessage (p : Page) (schedule : Schedule)
  (currentTime : string) : bool :=
  if sent schedule then false
  else if negb (time schedule =? currentTime) then false
  else if negb (isWhatsAppConnected p) then false
  else true.

(* ------------------------------------------------------------------ *)
(** ** getClipboardText (1518-1525) *)

Definition getClipboardText : M string :=
  emit EClipboardRead ;;
  try_catch
    (p <- read clipboardText ;;
     match p with
     | Ok s => ret s
     | Throw e => throw e
     end)
    (fun _ => ret "").

(* ------------------------------------------------------------------ *)
(** ** waitForMessageSent (940-970) *)

(** Check 1: [!content.trim()], an absent input counting as empty. *)
Definition inputCleared (p : Page) : bool :=
  let content :=
    match findMessageInputBox p with
    | Some input => textOf p input
    | None => ""
    end in
  str_falsy (trim content).

(** Check 2: some message element has text and that text includes the
    first 30 units of the message. *)
Definition messageFound (p : Page) (messageText : string) : bool :=
  existsb
    (fun t => negb (str_falsy t) && includes t (substring 0 30 messageText))
    (messageTexts p).

Fixpoint waitForMessageSent_from (messageText : string) (polls : nat)
  : M bool :=
  match polls with
  | O => ret false
  | S polls' =>
      sleep AtPoll 200 ;;
      p <- read (fun p => p) ;;
      if inputCleared p && messageFound p messageText then ret true
      else waitForMessageSent_from messageText polls'
  end.

Definition waitForMessageSent (messageText : string) : M bool :=
  waitForMessageSent_from messageText 15.

(* ------------------------------------------------------------------ *)
(** ** smartRetry (978-997) *)

(** [Math.min(1000 * Math.pow(2, attempt - 1), 5000)] *)
Definition backoff (attempt : nat) : Z :=
  Z.min (1000 * 2 ^ (Z.of_nat attempt - 1)) 5000.

(** The loop [for (attempt = 1; attempt <= maxRetries; attempt++)], entered
    at [attempt] with [left] iterations to go. *)
Fixpoint smartRetry_from (operation : M JsVal) (maxRetries attempt left : nat)
  : M JsVal :=
  match left with
  | O => ret (JBool false)
  | S left' =>
      r <- try_catch
             (result <- operation ;;
              ret (if truthy result then Some result else None))
             (fun _ => ret None) ;;
      match r with
      | Some result => ret result
      | None =>
          (if (attempt <? maxRetries)%nat
           then sleep AtBackoff (backoff attempt)
           else ret tt) ;;
          smartRetry_from operation maxRetries (S attempt) left'
      end
  end.

Definition smartRetry (operation : M JsVal) (maxRetries : nat) : M JsVal :=
  smartRetry_from operation maxRetries 1 maxRetries.

(** A boolean-valued method seen as an operation for [smartRetry]. *)
Definition as_js (m : M bool) : M JsVal :=
  b <- m ;; ret (JBool b).

(* ------------------------------------------------------------------ *)
(** ** injectAndSendMessage (735-933)

    Each of the three [try] blocks either makes the method return (the
    value is given) or is left, normally or through its [catch]
    ([None]). *)

Definition sendCooldown : Z := 2000.

Definition stampSend : M unit :=                (* lastSendTime = Date.now() *)
  w <- get ;; modify (set_lastSendTime (clock w)).

Definition pressEnter (el : Elem) : M unit :=
  ui (AKey el KeyDown "Enter" false) ;;
  ui (AKey el KeyUp "Enter" false) ;;
  ret tt.

(** Method 1: clipboard, Ctrl+A, Ctrl+V (755-821). *)
Definition injectByClipboard (inputBox : Elem) (messageText : string)
  : M (option bool) :=
  try_catch
    (ui (AClipboardWrite messageText) ;;
     ui (AFocus inputBox) ;;
     ui (AClick inputBox) ;;
     sleep AtPace 200 ;;
     ui (AKey inputBox KeyDown "a" true) ;;
     sleep AtPace 50 ;;
     ui (AKey inputBox KeyDown "v" true) ;;
     ui (AKey inputBox KeyUp "v" true) ;;
     sleep AtPace 500 ;;
     content <- read (fun p => textOf p inputBox) ;;
     if includes content (substring 0 20 messageText) then
       pressEnter inputBox ;;
       sent <- waitForMessageSent messageText ;;
       if sent then stampSend ;; ret (Some true)
       else throw "Send confirmation failed"
     else ret None)
    (fun _ => ret None).

(** Method 2: execCommand insertText (823-874). *)
Definition injectByInsertion (inputBox : Elem) (messageText : string)
  : M (option bool) :=
  try_catch
    (ui (AFocus inputBox) ;;
     sleep AtPace 100 ;;
     ui (AExec "selectAll" "") ;;
     ui (AExec "delete" "") ;;
     inserted <- ui (AExec "insertText" messageText) ;;
     (if inserted then ret tt
      else ui (ASet inputBox "textContent" messageText) ;;
           ui (ADispatch inputBox "input") ;;
           ret tt) ;;
     sleep AtPace 300 ;;
     finalContent <- read (fun p => textOf p inputBox) ;;
     if includes finalContent (substring 0 20 messageText) then
       pressEnter inputBox ;;
       sent <- waitForMessageSent messageText ;;
       if sent then stampSend ;; ret (Some true)
       else throw "Send confirmation failed"
     else ret None)
    (fun _ => ret None).

(** [for (const char of messageText)] in method 3. *)
Fixpoint typeChars (inputBox : Elem) (chars : list ascii) : M unit :=
  match chars with
  | [] => ret tt
  | c :: rest =>
      let char := String c "" in
      ui (AKey inputBox KeyDown char false) ;;
      ui (AExec "insertText" char) ;;
      ui (AKey inputBox KeyUp char false) ;;
      sleep AtPace 5 ;;
      typeChars inputBox rest
  end.

(** Method 3: character-by-character typing (876-924). *)
Definition injectByTyping (inputBox : Elem) (messageText : string)
  : M (option bool) :=
  try_catch
    (ui (AFocus inputBox) ;;
     sleep AtPace 100 ;;
     ui (AExec "selectAll" "") ;;
     ui (AExec "delete" "") ;;
     typeChars inputBox (list_ascii_of_string messageText) ;;
     sleep AtPace 200 ;;
     pressEnter inputBox ;;
     stampSend ;;
     ret (Some true))
    (fun _ => ret None).

Definition injectAndSendMessage (messageText : string) : M bool :=
  try_catch
    (w <- get ;;
     let now := clock w in
     (if (now - lastSendTime w <? sendCooldown)%Z
      then sleep AtCooldown (sendCooldown - (now - lastSendTime w))
      else ret tt) ;;
     found <- read findMessageInputBox ;;
     match found with
     | None => ret false
     | Some inputBox =>
         r1 <- injectByClipboard inputBox messageText ;;
         match r1 with
         | Some b => ret b
         | None =>
             r2 <- injectByInsertion inputBox messageText ;;
             match r2 with
             | Some b => ret b
             | None =>
                 r3 <- injectByTyping inputBox messageText ;;
                 match r3 with
                 | Some b => ret b
                 | None => ret false
                 end
             end
         end
     end)
    (fun _ => ret false).

(* ------------------------------------------------------------------ *)
(** ** openChat and its helpers (409-496, 521-527, 1374-1495) *)

Definition focusElement (el : Elem) : M unit :=
  try_catch
    (ui (AFocus el) ;;
     ui (ADispatch el "focus") ;;
     ui (ADispatch el "focusin") ;;
     ret tt)
    (fun _ => ret tt).

Fixpoint dispatchAll (el : Elem) (types : list string) : M unit :=
  match types with
  | [] => ret tt
  | t :: rest => ui (ADispatch el t) ;; dispatchAll el rest
  end.

Definition clearInputBox (inputBox : Elem) : M unit :=
  try_catch
    (ui (AFocus inputBox) ;;
     sleep AtPace 100 ;;
     ui (AExec "selectAll" "") ;;
     ui (AExec "delete" "") ;;
     ui (ASet inputBox "innerHTML" "") ;;
     ui (ASet inputBox "textContent" "") ;;
     ui (ASet inputBox "innerText" "") ;;
     ui (ASet inputBox "value" "") ;;
     ui (AKey inputBox KeyDown "a" true) ;;
     ui (AKey inputBox KeyUp "a" true) ;;
     ui (AKey inputBox KeyDown "Delete" false) ;;
     ui (AKey inputBox KeyUp "Delete" false) ;;
     dispatchAll inputBox
       ["input"; "change"; "keyup"; "textInput"; "compositionend"] ;;
     sleep AtPace 200 ;;
     remainingText <- read (fun p => textOf p inputBox) ;;
     if negb (str_falsy (trim remainingText)) then
       ui (ASet inputBox "innerHTML" "") ;;
       ui (ASet inputBox "textContent" "") ;;
       ui (ADispatch inputBox "input") ;;
       sleep AtPace 100
     else ret tt)
    (fun _ => ret tt).

Definition insertMessageText (inputBox : Elem) (messageText : string)
  : M bool :=
  try_catch
    (ui (AFocus inputBox) ;;
     sleep AtPace 50 ;;
     currentContent <- read (fun p => textOf p inputBox) ;;
     if trim currentContent =? trim messageText then ret true
     else
       inserted <- ui (AExec "insertText" messageText) ;;
       verified <-
         (if inserted then
            sleep AtPace 100 ;;
            content <- read (fun p => textOf p inputBox) ;;
            ret (trim content =? trim messageText)
          else ret false) ;;
       if verified then ret true
       else
         ui (ASet inputBox "textContent" messageText) ;;
         ui (ADispatch inputBox "input") ;;
         sleep AtPace 100 ;;
         finalContent <- read (fun p => textOf p inputBox) ;;
         ret (trim finalContent =? trim messageText))
    (fun _ => ret false).

(** How one pass of the [for] loop of [openChat] ends. *)
Inductive Pass : Type :=
| PassOpened        (* return true *)
| PassContinue      (* continue: no search input *)
| PassRetry.        (* fell out of the try block, or into its catch *)

(** [document.activeElement.dispatchEvent(..)]: throws on [null]. *)
Definition keyOnActive (ph : KeyPhase) (key : string) : M unit :=
  a <- read activeElement ;;
  match a with
  | Some el => ui (AKey el ph key false) ;; ret tt
  | None => throw "TypeError: document.activeElement is null"
  end.

(** The [try] block of one pass, after the notice that opens it. *)
Definition openChat_attempt (chatName : string) : M Pass :=
  found <- read findSearchInput ;;
  match found with
  | None => sleep AtPace 300 ;; ret PassContinue
  | Some searchInput =>
      focusElement searchInput ;;
      sleep AtPace 100 ;;
      clearInputBox searchInput ;;
      sleep AtPace 120 ;;
      insertMessageText searchInput chatName ;;
      sleep AtPace 800 ;;
      ui (AKey searchInput KeyDown "Tab" false) ;;
      ui (AKey searchInput KeyUp "Tab" false) ;;
      sleep AtPace 100 ;;
      ui (AKey searchInput KeyDown "Tab" false) ;;
      ui (AKey searchInput KeyUp "Tab" false) ;;
      sleep AtPace 200 ;;
      keyOnActive KeyDown "Enter" ;;
      keyOnActive KeyUp "Enter" ;;
      sleep AtPace 1000 ;;
      p <- read (fun p => p) ;;
      match findMessageInputBox p with
      | Some messageInput =>
          if negb (isSearchBox p messageInput) then
            updateStatus (MsgChatOpened chatName) SSuccess ;;
            ret PassOpened
          else ret PassRetry
      | None => ret PassRetry
      end
  end.

Definition openChat_pass (chatName : string) : M Pass :=
  try_catch
    (updateStatus (MsgOpeningChat chatName) SWorking ;;
     openChat_attempt chatName)
    (fun _ => ret PassRetry).

(** [for (attempt = 0; attempt < retries; attempt++)] *)
Fixpoint openChat (chatName : string) (retries : nat) : M bool :=
  match retries with
  | O => updateStatus (MsgChatOpenFailed chatName) SError ;; ret false
  | S retries' =>
      r <- openChat_pass chatName ;;
      match r with
      | PassOpened => ret true
      | PassContinue => openChat chatName retries'
      | PassRetry => sleep AtPace 500 ;; openChat chatName retries'
      end
  end.

(* ------------------------------------------------------------------ *)
(** ** handlePostSendAction (1904-1945) *)

Definition handlePostSendAction : M unit :=
  try_catch
    (w <- get ;;
     let action :=
       match postSendAction w with
       | Some a => if str_falsy a then "refresh" else a
       | None => "refresh"
       end in
     if action =? "refresh" then emit (ETimer 3000 ReloadPage)
     else if action =? "close" then emit (ETimer 3000 CloseTab)
     else if action =? "none" then ret tt
     else emit (ETimer 3000 ReloadPage))
    (fun _ => ret tt).

(* ------------------------------------------------------------------ *)
(** ** sendScheduledMessage (267-357) *)

(** [contactList.filter(Boolean)] *)
Definition namedContacts (l : list string) : list string :=
  filter (fun name => negb (str_falsy name)) l.

(** [messageText.substring(0, 50) + (messageText.length > 50 ? '...' : '')] *)
Definition preview (messageText : string) : string :=
  substring 0 50 messageText
  ++ (if (50 <? String.length messageText)%nat then "..." else "").

(** The loop [for (i = 0; i < contacts.length; i++)] of lines 298-323,
    entered at index [i] with [rest] the contacts from [i] on, [len] being
    [contacts.length] and [success] the flag so far. *)
Fixpoint sendToContacts (messageText : string) (len i : nat)
  (rest : list string) (success : JsVal) : M JsVal :=
  match rest with
  | [] => ret success
  | name :: rest' =>
      w <- get ;;
      opened <- smartRetry (as_js (openChat name 1))
                  (if autoRetry (settings w) then 3 else 1) ;;
      if negb (truthy opened) then
        sendToContacts messageText len (S i) rest' success     (* continue *)
      else
        sleep AtAfterOpen 300 ;;
        sent <- smartRetry (as_js (injectAndSendMessage messageText)) 2 ;;
        let success' := js_or success sent in
        w' <- get ;;
        (if (i <? len - 1)%nat
         then sleep AtInterTarget (sendDelay (settings w'))
         else ret tt) ;;
        sendToContacts messageText len (S i) rest' success'
  end.

(** Lines 331-349: what follows the sends. *)
Definition concludeSchedule (schedule : Schedule) (messageText : string)
  (success : JsVal) : M unit :=
  if truthy success then
    markScheduleSent (id schedule) ;;
    updateStatus MsgSentOk SSuccess ;;
    emit (EMessageSent (id schedule) (time schedule) (preview messageText)) ;;
    handlePostSendAction
  else
    updateStatus MsgSendFailed SError.

(** The [try] block of [sendScheduledMessage] (lines 277-349). *)
Definition sendScheduledMessage_try (schedule : Schedule) : M JsVal :=
  text <-
    (if field_falsy (message schedule) && useClipboard schedule
     then t <- getClipboardText ;; ret (Some t)
     else ret (message schedule)) ;;
  match text with
  | None => ret JUndefined
  | Some messageText =>
      if str_falsy messageText then ret JUndefined
      else
        let contacts := namedContacts (contactList schedule) in
        success <-
          match contacts with
          | _ :: _ =>
              sendToContacts messageText (List.length contacts) 0
                contacts (JBool false)
          | [] =>
              smartRetry (as_js (injectAndSendMessage messageText)) 2
          end ;;
        concludeSchedule schedule messageText success ;;
        ret JUndefined
  end.

Definition sendScheduledMessage (schedule : Schedule) : M JsVal :=
  w <- get ;;
  if isSending w then ret JUndefined
  else
    modify (set_isSending true) ;;
    finally
      (try_catch (sendScheduledMessage_try schedule)
                 (fun _ => ret JUndefined))
      (modify (set_isSending false)).

(* ------------------------------------------------------------------ *)
(** ** sendToTargets (363-401) *)

(** The loop of lines 373-386. *)
Fixpoint sendToEach (messageText : string) (len i : nat)
  (rest : list string) (success : JsVal) : M JsVal :=
  match rest with
  | [] => ret success
  | name :: rest' =>
      w <- get ;;
      opened <- openChat name (if autoRetry (settings w) then 3 else 1) ;;
      if negb opened then
        sendToEach messageText len (S i) rest' success         (* continue *)
      else
        sleep AtAfterOpen 250 ;;
        sent <- injectAndSendMessage messageText ;;
        let success' := js_or success (JBool sent) in
        w' <- get ;;
        (if (i <? len - 1)%nat
         then sleep AtInterTarget (sendDelay (settings w'))
         else ret tt) ;;
        sendToEach messageText len (S i) rest' success'
  end.

(** The [try] block of [sendToTargets] (lines 371-394). *)
Definition sendToTargets_try (messageText : string) (contacts : list string)
  : M JsVal :=
  let targets := namedContacts contacts in
  success <-
    match targets with
    | _ :: _ =>
        sendToEach messageText (List.length targets) 0 targets (JBool false)
    | [] => as_js (injectAndSendMessage messageText)
    end ;;
  (if truthy success then handlePostSendAction else ret tt) ;;
  ret success.

(** The [catch] of [sendToTargets] only logs and [success] keeps the value
    it had when the error was thrown; no step of the [try] block throws
    (see [sendToTargets_try_total]), so the handler below is never run. *)
Definition sendToTargets (messageText : string) (contacts : list string)
  : M JsVal :=
  w <- get ;;
  if isSending w then ret (JBool false)
  else
    modify (set_isSending true) ;;
    finally
      (try_catch (sendToTargets_try messageText contacts)
                 (fun _ => ret (JBool false)))
      (modify (set_isSending false)).

(* ------------------------------------------------------------------ *)
(** ** checkSchedules (139-212) and what it calls *)

Definition stop : M unit :=
  w <- get ;;
  if negb (isRunning w) then ret tt
  else modify (set_isRunning false) ;; emit EStopped.

(** [window.wasStorage.handleContextInvalidation()]: a notice, and a
    reload two seconds later. *)
Definition handleContextInvalidation : M unit :=
  emit (ETimer 2000 RecoverContext).

(** [activeSchedules.sort((a, b) => a.time.localeCompare(b.time))[0]]:
    the sort is stable, so this is the first of the schedules before
    which [localeCompare] puts no other. *)
Definition earliest (l : list Schedule) : option Schedule :=
  match l with
  | [] => None
  | s :: l' =>
      Some (fold_left
              (fun best x =>
                 if (localeCompare (time x) (time best) <? 0)%Z then x
                 else best)
              l' s)
  end.

Definition updateNextMessageStatus (all : list Schedule) : M unit :=
  match earliest (filter (fun s => negb (sent s)) all) with
  | None => updateStatus MsgNoScheduled SInfo
  | Some nextSchedule =>
      updateStatus
        (MsgNext (time nextSchedule)
                 (List.length (contactList nextSchedule))) SInfo
  end.

(** The body of the loop of lines 182-198 for one schedule; [count] is
    [pendingSchedules.length] and [deliver] the method called at line
    186, which is [sendScheduledMessage].  [schedule.message.substring]
    is a TypeError when the field is missing. *)
Definition processOneWith (deliver : Schedule -> M JsVal) (count : nat)
  (schedule : Schedule) : M unit :=
  try_catch
    (prefix <-
       match message schedule with
       | Some m => ret (substring 0 30 m)
       | None => throw "Cannot read properties of undefined"
       end ;;
     updateStatus (MsgSendingOne prefix) SWorking ;;
     deliver schedule ;;
     if (1 <? count)%nat then sleep AtSettle 3000 else ret tt)
    (fun error => updateStatus (MsgFailedToSend error) SError).

(** [for (const schedule of pendingSchedules)] *)
Fixpoint processPendingWith (deliver : Schedule -> M JsVal) (count : nat)
  (pending : list Schedule) : M unit :=
  match pending with
  | [] => ret tt
  | schedule :: rest =>
      processOneWith deliver count schedule ;;
      processPendingWith deliver count rest
  end.

Definition processOne : nat -> Schedule -> M unit :=
  processOneWith sendScheduledMessage.

Definition processPending : nat -> list Schedule -> M unit :=
  processPendingWith sendScheduledMessage.

(** The [try] block of [checkSchedules] (lines 149-198). *)
Definition checkSchedules_try : M unit :=
  w1 <- get ;;
  if negb (contextValid w1) then
    stop ;; handleContextInvalidation
  else
    let all := schedules w1 in
    let currentTime := getCurrentTimeString (clock w1) in
    updateNextMessageStatus all ;;
    let pendingSchedules :=
      filter (fun s => shouldSendMessage (page w1) s currentTime) all in
    match pendingSchedules with
    | [] => ret tt
    | _ :: _ =>
        updateStatus
          (MsgSendingCount (List.length pendingSchedules)) SWorking ;;
        processPending (List.length pendingSchedules) pendingSchedules
    end.

Definition checkSchedules : M unit :=
  w <- get ;;
  if isCheckingSchedules w then ret tt
  else
    modify (set_isCheckingSchedules true) ;;
    finally
      (try_catch checkSchedules_try
         (fun error =>
            if includes error "Extension context invalidated" then
              stop ;; handleContextInvalidation
            else updateStatus (MsgScheduleCheckError error) SError))
      (modify (set_isCheckingSchedules false)).

End Scheduler.

(* ------------------------------------------------------------------ *)
(** ** The same components in the words of the specification *)

Section Described.
Context {B : Browser}.

(** An attempt that did not deliver: it threw, or resolved falsy. *)
Definition attemptFailed (o : Outcome JsVal) : Prop :=
  match res o with
  | Ok v => truthy v = false
  | Throw _ => True
  end.

(** Retry Controller (specification 4.6): attempts are numbered from 1;
    an attempt past the maximum is not made and the answer is [false]; a
    truthy result is returned as it is; after a failed attempt that is
    not the last the controller sleeps
    [min (1000 * 2^(attempt-1)) 5000] ms and tries again; after the last
    one it answers [false] without sleeping. *)
Inductive Retried (operation : M JsVal) (maxRetries : nat)
  : nat -> World -> Outcome JsVal -> Prop :=
| Retried_none attempt w :
    (maxRetries < attempt)%nat ->
    Retried operation maxRetries attempt w
      {| res := Ok (JBool false); st := w; evs := [] |}
| Retried_done attempt w v :
    (attempt <= maxRetries)%nat ->
    res (operation w) = Ok v ->
    truthy v = true ->
    Retried operation maxRetries attempt w
      {| res := Ok v; st := st (operation w); evs := evs (operation w) |}
| Retried_last attempt w :
    attempt = maxRetries ->
    attemptFailed (operation w) ->
    Retried operation maxRetries attempt w
      {| res := Ok (JBool false); st := st (operation w);
         evs := evs (operation w) |}
| Retried_again attempt w o :
    (attempt < maxRetries)%nat ->
    attemptFailed (operation w) ->
    Retried operation maxRetries (S attempt)
      (st (sleep AtBackoff (Z.min (1000 * 2 ^ (Z.of_nat attempt - 1)) 5000)
             (st (operation w)))) o ->
    Retried operation maxRetries attempt w
      {| res := res o; st := st o;
         evs := evs (operation w)
                ++ ESleep AtBackoff
                     (Z.min (1000 * 2 ^ (Z.of_nat attempt - 1)) 5000)
                   :: evs o |}.

(** The text a schedule is delivered with on page [p]: its message; if
    that is empty and the clipboard fallback is on, the text of the
    clipboard; none if that is empty too or cannot be read. *)
Definition resolvedText (schedule : Schedule) (p : Page) : option string :=
  let text :=
    if field_falsy (message schedule) then
      if useClipboard schedule then
        match clipboardText p with
        | Ok t => Some t
        | Throw _ => None
        end
      else None
    else message schedule in
  match text with
  | Some t => if str_falsy t then None else Some t
  | None => None
  end.

(** What the resolution of the text leaves in the events. *)
Definition resolutionEvents (schedule : Schedule) : list Event :=
  if field_falsy (message schedule) && useClipboard schedule
  then [EClipboardRead] else [].

(** Conversation Switcher with its retry budget, and the send primitive
    with its own, as the orchestrator calls them. *)
Definition switchConversation (name : string) : M JsVal :=
  w <- get ;;
  smartRetry (as_js (openChat name 1))
    (if autoRetry (settings w) then 3 else 1).

Definition injectAndSend (messageText : string) : M JsVal :=
  smartRetry (as_js (injectAndSendMessage messageText)) 2.

Definition interTargetDelay : M unit :=
  w <- get ;; sleep AtInterTarget (sendDelay (settings w)).

(** What is done with a target once the switcher has answered: if the
    conversation is open the message is injected and sent, and a delay
    follows unless the target is the last. *)
Definition sendIfOpened (messageText : string) (isLast : bool)
  (opened : JsVal) : M bool :=
  if truthy opened then
    sleep AtAfterOpen 300 ;;
    s <- injectAndSend messageText ;;
    (if isLast then ret tt else interTargetDelay) ;;
    ret (truthy s)
  else ret false.

Definition isNil {A} (l : list A) : bool :=
  match l with
  | [] => true
  | _ :: _ => false
  end.

(** Delivery to a target list, target by target in the listed order; the
    answer is the disjunction of the per-target results. *)
Fixpoint deliverInOrder (messageText : string) (targets : list string)
  : M bool :=
  match targets with
  | [] => ret false
  | name :: rest =>
      opened <- switchConversation name ;;
      sent <- sendIfOpened messageText (isNil rest) opened ;;
      others <- deliverInOrder messageText rest ;;
      ret (sent || others)
  end.

(** The delivery with the delay between every two consecutive targets,
    whether or not the first of the two could be opened. *)
Fixpoint deliverWithDelayBetweenAll (messageText : string)
  (targets : list string) : M bool :=
  match targets with
  | [] => ret false
  | name :: rest =>
      opened <- switchConversation name ;;
      sent <-
        (if truthy opened then
           sleep AtAfterOpen 300 ;;
           s <- injectAndSend messageText ;;
           ret (truthy s)
         else ret false) ;;
      (if isNil rest then ret tt else interTargetDelay) ;;
      others <- deliverWithDelayBetweenAll messageText rest ;;
      ret (sent || others)
  end.

(** The same for [sendToTargets], which opens each chat with the retry
    budget of [openChat] itself and sends once. *)
Definition switchNow (name : string) : M bool :=
  w <- get ;;
  openChat name (if autoRetry (settings w) then 3 else 1).

Definition sendNowIfOpened (messageText : string) (isLast : bool)
  (opened : bool) : M bool :=
  if opened then
    sleep AtAfterOpen 250 ;;
    s <- injectAndSendMessage messageText ;;
    (if isLast then ret tt else interTargetDelay) ;;
    ret s
  else ret false.

Fixpoint deliverNowInOrder (messageText : string) (targets : list string)
  : M bool :=
  match targets with
  | [] => ret false
  | name :: rest =>
      opened <- switchNow name ;;
      sent <- sendNowIfOpened messageText (isNil rest) opened ;;
      others <- deliverNowInOrder messageText rest ;;
      ret (sent || others)
  end.

(** The page as the [i]-th poll of the verifier finds it: [i] pauses of
    200 ms after the submit. *)
Fixpoint pollPage (i : nat) (p : Page) : Page :=
  match i with
  | O => p
  | S i' => pollPage i' (elapse 200 p)
  end.

(** Both signs of a delivered message at once: the composer is empty
    and a message element carries the start of the text. *)
Definition confirmedAt (messageText : string) (p : Page) : bool :=
  inputCleared p && messageFound p messageText.

(** The first poll among [1..polls] at which the send is confirmed. *)
Fixpoint firstConfirmed (messageText : string) (polls : nat) (p : Page)
  : option nat :=
  match polls with
  | O => None
  | S polls' =>
      if confirmedAt messageText (elapse 200 p) then Some 1%nat
      else option_map S (firstConfirmed messageText polls' (elapse 200 p))
  end.

(** A computation seen through the truth value of its result. *)
Definition as_bool (m : M JsVal) : M bool :=
  v <- m ;; ret (truthy v).

End Described.

(* ------------------------------------------------------------------ *)
(** ** Reading an event list *)

(** The lengths of the inter-target delays, in order. *)
Fixpoint interTargetDelays (l : list Event) : list Z :=
  match l with
  | ESleep AtInterTarget ms :: l' => ms :: interTargetDelays l'
  | _ :: l' => interTargetDelays l'
  | [] => []
  end.

(** The lengths of the settle delays of a tick, in order. *)
Fixpoint settleDelays (l : list Event) : list Z :=
  match l with
  | ESleep AtSettle ms :: l' => ms :: settleDelays l'
  | _ :: l' => settleDelays l'
  | [] => []
  end.

(** The lengths of the retry back-off delays, in order. *)
Fixpoint backoffDelays (l : list Event) : list Z :=
  match l with
  | ESleep AtBackoff ms :: l' => ms :: backoffDelays l'
  | _ :: l' => backoffDelays l'
  | [] => []
  end.


(** The course of a delivery to several targets: each pass of the
    switcher on a conversation, and each inter-target delay. *)
Inductive Mark : Type :=
| Opening (name : string)
| Delay (ms : Z).

Fixpoint course (l : list Event) : list Mark :=
  match l with
  | EStatus (MsgOpeningChat name) _ :: l' => Opening name :: course l'
  | ESleep AtInterTarget ms :: l' => Delay ms :: course l'
  | _ :: l' => course l'
  | [] => []
  end.

(** A course that takes the targets in the listed order: for each
    target at least one and at most [budget] passes of the switcher on
    it; after a target that is not the last, possibly one delay of
    [delay] ms; after the last target nothing. *)
Inductive InOrder (budget : nat) (delay : Z)
  : list string -> list Mark -> Prop :=
| InOrder_nil : InOrder budget delay [] []
| InOrder_last name k :
    (1 <= k <= budget)%nat ->
    InOrder budget delay [name] (repeat (Opening name) k)
| InOrder_next name k (delayed : bool) next rest tail :
    (1 <= k <= budget)%nat ->
    InOrder budget delay (next :: rest) tail ->
    InOrder budget delay (name :: next :: rest)
      (repeat (Opening name) k
       ++ (if delayed then [Delay delay] else []) ++ tail).

(** The two status events [checkSchedules] emits per due schedule: the
    announcement of its delivery, or the report of its failure. *)
Definition is_tick_mark (e : Event) : bool :=
  match e with
  | EStatus (MsgSendingOne _) _ => true
  | EStatus (MsgFailedToSend _) _ => true
  | _ => false
  end.

Definition tick_mark (schedule : Schedule) : Event :=
  match message schedule with
  | Some m => EStatus (MsgSendingOne (substring 0 30 m)) SWorking
  | None =>
      EStatus (MsgFailedToSend "Cannot read properties of undefined") SError
  end.

(** A poll of the send verifier. *)
Definition is_poll (e : Event) : bool :=
  match e with
  | ESleep AtPoll _ => true
  | _ => false
  end.


(** The stored record a schedule id stands for ([findIndex]). *)
Definition stored (sid : string) (l : list Schedule) : option Schedule :=
  find (fun s => id s =? sid) l.

Definition hasMessage (schedule : Schedule) : bool :=
  match message schedule with
  | Some _ => true
  | None => false
  end.

(* ------------------------------------------------------------------ *)
(** ** The vocabulary of the properties *)

Section Vocabulary.
Context {B : Browser}.

(** The part of the world that only the orchestration layer writes. *)
Definition ctl (w : World) :=
  (isRunning w, isSending w, isCheckingSchedules w, settings w,
   schedules w, postSendAction w, contextValid w).

(** A relation between the world before and after that tolerates
    everything the page-facing code does: changing the page, letting
    time pass, stamping the last send. *)
Class UiFrame (I : World -> World -> Prop) : Prop := {
  uf_refl : forall w, I w w;
  uf_trans : forall w1 w2 w3, I w1 w2 -> I w2 w3 -> I w1 w3;
  uf_page : forall p w, I w (set_page p w);
  uf_clock : forall t w, I w (set_clock t w);
  uf_last : forall t w, I w (set_lastSendTime t w)
}.

(** [m] relates every world to the one it reaches by [I] and emits only
    events accepted by [ok]. *)
Definition Sound (I : World -> World -> Prop) (ok : Event -> bool)
  {A} (m : M A) : Prop :=
  forall w, I w (st (m w)) /\ forallb ok (evs (m w)) = true.

(** [m] never throws. *)
Definition Total {A} (m : M A) : Prop :=
  forall w, exists a, res (m w) = Ok a.

(** The retry budget of the switcher in world [w]. *)
Definition budget (w : World) : nat :=
  if autoRetry (settings w) then 3 else 1.

End Vocabulary.

(** What each layer may emit. *)

(** Driving the page: UI actions and the pauses between them. *)
Definition ui_level (e : Event) : bool :=
  match e with
  | EUi _ => true
  | ESleep AtPace _ => true
  | _ => false
  end.

(** The send primitive: besides, the cooldown and the verifier's polls. *)
Definition typing_level (e : Event) : bool :=
  ui_level e ||
  match e with
  | ESleep AtPoll _ | ESleep AtCooldown _ => true
  | _ => false
  end.

(** One pass of the conversation switcher after its opening notice. *)
Definition attempt_level (e : Event) : bool :=
  ui_level e ||
  match e with
  | EStatus (MsgChatOpened _) _ => true
  | _ => false
  end.

(** The conversation switcher. *)
Definition switch_level (e : Event) : bool :=
  attempt_level e ||
  match e with
  | EStatus (MsgOpeningChat _) _
  | EStatus (MsgChatOpenFailed _) _ => true
  | _ => false
  end.

(** One target of a delivery apart from the switcher's opening notices
    and the inter-target delay. *)
Definition target_level (e : Event) : bool :=
  typing_level e || attempt_level e ||
  match e with
  | EStatus (MsgChatOpenFailed _) _ => true
  | ESleep AtBackoff _ | ESleep AtAfterOpen _ => true
  | _ => false
  end.

(** One delivery ([sendScheduledMessage], [sendToTargets]). *)
Definition send_level (e : Event) : bool :=
  typing_level e || switch_level e ||
  match e with
  | ESleep AtBackoff _ | ESleep AtAfterOpen _ | ESleep AtInterTarget _ => true
  | EClipboardRead | EMarkSent _ | EMessageSent _ _ _ | ETimer _ _ => true
  | EStatus MsgSentOk _ | EStatus MsgSendFailed _ => true
  | _ => false
  end.


(* ------------------------------------------------------------------ *)
(** ** Two pages to run the engine on *)

(** The comparison of two texts unit by unit, as the sign [localeCompare]
    answers with.  On the texts of two times of day, two digits, a colon
    and two digits, this is the order of the times. *)
Definition compareUnits (a b : string) : Z :=
  match String.compare a b with
  | Lt => (-1)%Z
  | Eq => 0%Z
  | Gt => 1%Z
  end.

(** A page on which the composer is found but nothing the scheduler does
    has any effect and no message ever appears. *)
Definition InertPage : Browser :=
  {| Page := unit;
     act := fun _ p => (Ok false, p);
     elapse := fun _ p => p;
     findMessageInputBox := fun _ => Some 1%nat;
     findSearchInput := fun _ => Some 0%nat;
     isSearchBox := fun _ e => Nat.eqb e 0;
     activeElement := fun _ => Some 0%nat;
     textOf := fun _ _ => "";
     messageTexts := fun _ => [];
     disconnectedBanner := fun _ => false;
     clipboardText := fun _ => Ok "";
     localeCompare := compareUnits |}.

(** A small messaging page.  Element 0 is the search field, 1 the
    composer of the open conversation, 2 the first search result.  Tab
    in the search field moves the focus to the result; Enter on the
    result opens the conversation named in the search field when there
    is one; [insertText] writes into the focused field; Enter in the
    composer sends its text.  Synthetic Ctrl+V pastes nothing.  On a
    lagging page a message that was sent is not shown in the list. *)
Record Chat : Type := {
  known : list string;         (* the conversations that exist *)
  query : string;              (* text of the search field *)
  focused : Elem;
  opened : bool;               (* a conversation is open *)
  composer : string;
  outgoing : list string;      (* messages shown as sent, oldest first *)
  delivered : list string;     (* messages that left, oldest first *)
  lagging : bool;              (* sent messages do not show *)
  offline : bool;              (* the disconnect banner is shown *)
  clip : string                (* the clipboard *)
}.

Definition chat_write (e : Elem) (f : string -> string) (p : Chat) : Chat :=
  {| known := known p;
     query := if Nat.eqb e 0 then f (query p) else query p;
     focused := focused p;
     opened := opened p;
     composer := if Nat.eqb e 1 && opened p then f (composer p)
                 else composer p;
     outgoing := outgoing p; delivered := delivered p;
     lagging := lagging p; offline := offline p; clip := clip p |}.

Definition chat_focus (e : Elem) (p : Chat) : Chat :=
  {| known := known p; query := query p; focused := e;
     opened := opened p; composer := composer p;
     outgoing := outgoing p; delivered := delivered p;
     lagging := lagging p; offline := offline p; clip := clip p |}.

Definition chat_open (p : Chat) : Chat :=
  {| known := known p; query := query p; focused := 1%nat;
     opened := true; composer := "";
     outgoing := []; delivered := delivered p;
     lagging := lagging p; offline := offline p; clip := clip p |}.

Definition chat_send (p : Chat) : Chat :=
  {| known := known p; query := query p; focused := focused p;
     opened := opened p; composer := "";
     outgoing := if lagging p then outgoing p
                 else outgoing p ++ [composer p];
     delivered := delivered p ++ [composer p];
     lagging := lagging p; offline := offline p; clip := clip p |}.

Definition chat_copy (s : string) (p : Chat) : Chat :=
  {| known := known p; query := query p; focused := focused p;
     opened := opened p; composer := composer p;
     outgoing := outgoing p; delivered := delivered p;
     lagging := lagging p; offline := offline p; clip := s |}.

Definition chat_act (a : UiAction) (p : Chat) : Result bool * Chat :=
  match a with
  | AFocus e => (Ok false, chat_focus e p)
  | AKey e KeyDown key false =>
      if key =? "Tab" then
        (Ok false, if Nat.eqb e 0 then chat_focus 2%nat p else p)
      else if key =? "Enter" then
        if Nat.eqb e 2 then
          (Ok false,
           if existsb (String.eqb (query p)) (known p) then chat_open p
           else p)
        else if Nat.eqb e 1 && opened p
                && negb (str_falsy (trim (composer p))) then
          (Ok false, chat_send p)
        else (Ok false, p)
      else (Ok false, p)
  | AExec cmd arg =>
      if cmd =? "insertText" then
        if Nat.eqb (focused p) 0 || (Nat.eqb (focused p) 1 && opened p)
        then (Ok true, chat_write (focused p) (fun s => (s ++ arg)%string) p)
        else (Ok false, p)
      else if cmd =? "delete" then
        (Ok true, chat_write (focused p) (fun _ => "") p)
      else (Ok true, p)
  | ASet e prop s =>
      if prop =? "textContent" then
        (Ok false, chat_write e (fun _ => s) p)
      else (Ok false, p)
  | AClipboardWrite s => (Ok false, chat_copy s p)
  | _ => (Ok false, p)
  end.

Definition ChatPage : Browser :=
  {| Page := Chat;
     act := chat_act;
     elapse := fun _ p => p;
     findMessageInputBox := fun p => if opened p then Some 1%nat else None;
     findSearchInput := fun _ => Some 0%nat;
     isSearchBox := fun _ e => Nat.eqb e 0;
     activeElement := fun p => Some (focused p);
     textOf := fun p e =>
                 if Nat.eqb e 0 then query p
                 else if Nat.eqb e 1 then composer p
                 else "";
     messageTexts := outgoing;
     disconnectedBanner := offline;
     clipboardText := fun p => Ok (clip p);
     localeCompare := compareUnits |}.

(** Worlds to start from: 09:00 on day 20000, nothing in flight. *)
Definition nineOClock : Z := 20000 * 86400000 + 9 * 3600000.

Definition defaultSettings : Settings :=
  {| sendDelay := 3000; autoRetry := true |}.

Definition inertWorld (store : list Schedule) : @World InertPage :=
  {| page := (tt : @Page InertPage); clock := nineOClock;
     isRunning := true; isSending := false; isCheckingSchedules := false;
     lastSendTime := 0; settings := defaultSettings;
     schedules := store; postSendAction := Some "none";
     contextValid := true |}.

Definition chatWorld (p : Chat) (store : list Schedule) : @World ChatPage :=
  {| page := (p : @Page ChatPage); clock := nineOClock;
     isRunning := true; isSending := false; isCheckingSchedules := false;
     lastSendTime := 0; settings := defaultSettings;
     schedules := store; postSendAction := Some "none";
     contextValid := true |}.

(** Only Bob can be found; no conversation is open yet. *)
Definition onlyBob : Chat :=
  {| known := ["Bob"]; query := ""; focused := 0%nat; opened := false;
     composer := ""; outgoing := []; delivered := []; lagging := false;
     offline := false; clip := "" |}.

(** Alice and Bob can both be found. *)
Definition aliceAndBob : Chat :=
  {| known := ["Alice"; "Bob"]; query := ""; focused := 0%nat;
     opened := false; composer := ""; outgoing := []; delivered := [];
     lagging := false; offline := false; clip := "" |}.

(** A conversation is open already. *)
Definition inConversation : Chat :=
  {| known := ["Bob"]; query := ""; focused := 1%nat; opened := true;
     composer := ""; outgoing := []; delivered := []; lagging := false;
     offline := false; clip := "" |}.

(** A conversation is open, and what is sent does not show. *)
Definition laggingConversation : Chat :=
  {| known := ["Bob"]; query := ""; focused := 1%nat; opened := true;
     composer := ""; outgoing := []; delivered := []; lagging := true;
     offline := false; clip := "" |}.

Definition pingAliceBob : Schedule :=
  {| id := "s1"; time := "09:00"; message := Some "Ping";
     useClipboard := false; contactList := ["Alice"; "Bob"];
     sent := false; lastSentDate := None |}.

Definition hiHere : Schedule :=
  {| id := "s2"; time := "09:00"; message := Some "Hi";
     useClipboard := false; contactList := [];
     sent := false; lastSentDate := None |}.

Definition helloHere : Schedule :=
  {| id := "s3"; time := "09:00"; message := Some "Hello";
     useClipboard := false; contactList := [];
     sent := false; lastSentDate := None |}.

(** A record saved without a message field. *)
Definition noMessage : Schedule :=
  {| id := "s4"; time := "09:00"; message := None;
     useClipboard := false; contactList := [];
     sent := false; lastSentDate := None |}.

Definition emptyToBob : Schedule :=
  {| id := "s5"; time := "09:00"; message := Some "";
     useClipboard := false; contactList := ["Bob"];
     sent := false; lastSentDate := None |}.

(** An operation for the retry controller that fails while the search
    field is empty or "x" and answers with the field's text from then
    on, typing one "x" at every attempt. *)
Definition thirdTimeLucky : @M ChatPage JsVal :=
  q <- @read ChatPage string query ;;
  @ui ChatPage (ASet 0%nat "textContent" (q ++ "x")) ;;
  if (String.length q <? 2)%nat then ret (JStr "") else ret (JStr q).

(** A delivery that always throws. *)
Definition alwaysThrows : Schedule -> @M ChatPage JsVal :=
  fun _ => throw "boom".

(** A world in which a delivery is in flight. *)
Definition busyWorld : @World ChatPage :=
  set_isSending true (chatWorld inConversation [hiHere]).

(* ------------------------------------------------------------------ *)
(** ** The countdown to the next message (scheduler.js 1704-1728) *)

(** [s.split(sep)] for a separator of one unit. *)
Fixpoint split (sep : ascii) (s : string) : list string :=
  match s with
  | EmptyString => [EmptyString]
  | String c s' =>
      if Ascii.eqb c sep then EmptyString :: split sep s'
      else
        match split sep s' with
        | part :: parts => String c part :: parts
        | [] => [String c EmptyString]
        end
  end.

Definition digitOf (c : ascii) : option Z :=
  let n := Z.of_nat (nat_of_ascii c) in
  if (48 <=? n)%Z && (n <=? 57)%Z then Some (n - 48)%Z else None.

Fixpoint digitsValue (acc : Z) (s : string) : option Z :=
  match s with
  | EmptyString => Some acc
  | String c s' =>
      match digitOf c with
      | Some d => digitsValue (10 * acc + d) s'
      | None => None
      end
  end.

(** [Number(s)] where [s] is empty or made of decimal digits; any other
    text is not covered ([None]). *)
Definition toNumber (s : string) : option Z := digitsValue 0 s.

(** The four texts [getTimeUntilNext] can return. *)
Inductive Countdown : Type :=
| AnyMoment                  (* 'any moment now' *)
| InMinutes (n : Z)          (* `in ${n} minute${n !== 1 ? 's' : ''}` *)
| InHours (h m : Z)          (* `in ${h}h ${m}m` *)
| InDays (d h : Z).          (* `in ${d} day${d !== 1 ? 's' : ''} ${h}h` *)

(** [n.toString()] for an integer *)
Definition toString (n : Z) : string := NilZero.string_of_int (Z.to_int n).

Definition countdownText (c : Countdown) : string :=
  match c with
  | AnyMoment => "any moment now"
  | InMinutes n =>
      "in " ++ toString n ++ " minute" ++ (if (n =? 1)%Z then "" else "s")
  | InHours h m => "in " ++ toString h ++ "h " ++ toString m ++ "m"
  | InDays d h =>
      "in " ++ toString d ++ " day" ++ (if (d =? 1)%Z then "" else "s")
      ++ " " ++ toString h ++ "h"
  end.

(** [getTimeUntilNext(targetTime)] at instant [now], for a target time
    whose two parts are covered by [toNumber]; as in
    [getCurrentTimeString] the local time zone is taken to be UTC, so
    [setHours(h, m, 0, 0)] is midnight plus [h] hours and [m] minutes and
    [setDate(getDate() + 1)] adds 86400000 ms. *)
Definition getTimeUntilNext (now : Z) (targetTime : string)
  : option Countdown :=
  match map toNumber (split ":" targetTime) with
  | Some hours :: Some minutes :: _ =>
      let target :=
        (now / 86400000 * 86400000 + hours * 3600000 + minutes * 60000)%Z in
      let target :=
        if (target <=? now)%Z then (target + 86400000)%Z else target in
      let diffMs := (target - now)%Z in
      let diffMinutes := (diffMs / 60000)%Z in
      let diffHours := (diffMinutes / 60)%Z in
      let remainingMinutes := Z.rem diffMinutes 60 in
      Some
        (if (diffMinutes <? 1)%Z then AnyMoment
         else if (diffMinutes <? 60)%Z then InMinutes diffMinutes
         else if (diffHours <? 24)%Z then InHours diffHours remainingMinutes
         else InDays (diffHours / 24) (Z.rem diffHours 24))
  | _ => None
  end.

(** The whole minutes a countdown text speaks of. *)
Definition minutesOf (c : Countdown) : Z :=
  match c with
  | AnyMoment => 0
  | InMinutes n => n
  | InHours h m => 60 * h + m
  | InDays d h => 1440 * d + 60 * h
  end.

(* ================================================================== *)
(** * The storage module ([WASStorage], src/debug.js 438-910)

    What the module keeps lies in three places: the two keys of
    [chrome.storage.local], and the copy of the schedules it puts in
    [localStorage].  The state below also holds what the code tests, or
    meets, on its way there: whether [chrome.storage.local] exists,
    whether [chrome.runtime.id] is set (and no [lastError] is), and the
    error the calls of [chrome.storage.local] are rejected with when they
    are.  [localStorage] is taken to accept every write, and
    [JSON.parse] to give back what [JSON.stringify] was given.  The
    page reloads the module asks for with [setTimeout] are counted in
    the state as well.  Console output is left out. *)

Module WASStorage.

(** A plain object with values of [JsVal]: its property lookup, a
    property that is not there reading as [undefined]. *)
Definition Obj : Type := string -> JsVal.

Definition emptyObj : Obj := fun _ => JUndefined.       (* {} *)

Definition setProp (key : string) (value : JsVal) (o : Obj) : Obj :=
  fun k => if k =? key then value else o k.        (* o[key] = value *)

Record Storage : Type := {
  chromeLocal : bool;     (* chrome && chrome.storage && chrome.storage.local *)
  runtimeId : bool;       (* chrome.runtime.id, and no chrome.runtime.lastError *)
  rejects : option Err;   (* what chrome.storage.local calls reject with *)
  was_schedules : option (list Schedule);
  was_settings : option Obj;
  was_fallback : option (list Schedule);  (* localStorage *)
  reloads : list Z        (* setTimeout(() => window.location.reload(), ms) *)
}.

Definition set_was_schedules (v : option (list Schedule)) (s : Storage)
  : Storage :=
  {| chromeLocal := chromeLocal s; runtimeId := runtimeId s;
     rejects := rejects s; was_schedules := v;
     was_settings := was_settings s; was_fallback := was_fallback s;
     reloads := reloads s |}.

Definition set_was_settings (v : option Obj) (s : Storage) : Storage :=
  {| chromeLocal := chromeLocal s; runtimeId := runtimeId s;
     rejects := rejects s; was_schedules := was_schedules s;
     was_settings := v; was_fallback := was_fallback s;
     reloads := reloads s |}.

Definition set_was_fallback (v : option (list Schedule)) (s : Storage)
  : Storage :=
  {| chromeLocal := chromeLocal s; runtimeId := runtimeId s;
     rejects := rejects s; was_schedules := was_schedules s;
     was_settings := was_settings s; was_fallback := v;
     reloads := reloads s |}.

Definition reloadIn (ms : Z) (s : Storage) : Storage :=
  {| chromeLocal := chromeLocal s; runtimeId := runtimeId s;
     rejects := rejects s; was_schedules := was_schedules s;
     was_settings := was_settings s; was_fallback := was_fallback s;
     reloads := reloads s ++ [ms] |}.

(** [value || []] *)
Definition orEmpty {A} (v : option (list A)) : list A :=
  match v with
  | Some l => l
  | None => []
  end.

(** 819-825 *)
Definition saveFallbackSchedules (schedules : list Schedule) (s : Storage)
  : Storage :=
  set_was_fallback (Some schedules) s.

(** 831-839 *)
Definition getFallbackSchedules (s : Storage) : list Schedule :=
  orEmpty (was_fallback s).

(** 845-851 *)
Definition isExtensionContextValid (s : Storage) : bool := runtimeId s.

(** 511-539 *)
Definition getSchedules (s : Storage) : list Schedule * Storage :=
  if negb (chromeLocal s) then ([], s)
  else if negb (runtimeId s) then (getFallbackSchedules s, s)
  else
    match rejects s with
    | None => (orEmpty (was_schedules s), s)
    | Some error =>
        if includes error "Extension context invalidated"
        then ([], reloadIn 1000 s)
        else ([], s)
    end.

(** 544-577 *)
Definition saveSchedules (schedules : list Schedule) (s : Storage)
  : bool * Storage :=
  if negb (chromeLocal s) then (false, saveFallbackSchedules schedules s)
  else if negb (runtimeId s) then (false, saveFallbackSchedules schedules s)
  else
    match rejects s with
    | None =>
        (true,
         saveFallbackSchedules schedules
           (set_was_schedules (Some schedules) s))
    | Some error =>
        if includes error "Extension context invalidated"
        then (false, saveFallbackSchedules schedules s)
        else (false, s)
    end.

(** What [addSchedule] is handed: an object with a [time] and, possibly,
    the other fields.  [contactName] is the field older callers gave
    instead of [contactList]. *)
Record Draft : Type := {
  d_time : string;
  d_message : option string;
  d_useClipboard : option bool;
  d_contactList : option (list string);
  d_contactName : option string
}.

(** The record [addSchedule] builds (587-596); [created] is never read
    and has no field in [Schedule]. *)
Definition newSchedule (now : Z) (schedule : Draft) : Schedule :=
  {| id := toString now;                          (* Date.now().toString() *)
     time := d_time schedule;
     message :=
       Some match d_message schedule with
            | Some m => if str_falsy m then "" else m
            | None => ""
            end;
     useClipboard :=
       match d_useClipboard schedule with
       | Some b => b
       | None => false
       end;
     contactList :=
       match d_contactList schedule with
       | Some l => l
       | None =>
           match d_contactName schedule with
           | Some n => if str_falsy n then [] else [n]
           | None => []
           end
       end;
     sent := false;
     lastSentDate := None |}.

(** 584-603 *)
Definition addSchedule (now : Z) (schedule : Draft) (s : Storage)
  : bool * Storage :=
  let (schedules, s1) := getSchedules s in
  saveSchedules (schedules ++ [newSchedule now schedule]) s1.

(** 610-619 *)
Definition removeSchedule (sid : string) (s : Storage) : bool * Storage :=
  let (schedules, s1) := getSchedules s in
  saveSchedules (filter (fun schedule => negb (id schedule =? sid)) schedules)
    s1.

(** 627-641; [updates] is what spreading it over a record does. *)
Definition updateSchedule (sid : string) (updates : Schedule -> Schedule)
  (s : Storage) : bool * Storage :=
  let (schedules, s1) := getSchedules s in
  if existsb (fun schedule => id schedule =? sid) schedules
  then saveSchedules (updateSchedule sid updates schedules) s1
  else (false, s1).

(** 648-654 *)
Definition markScheduleSent (now : Z) (sid : string) (s : Storage)
  : bool * Storage :=
  updateSchedule sid (mark_sent (today now)) s.




(** 683-697; [None] is [null] or [undefined]. *)
Definition getSettings (s : Storage) : option Obj :=
  if negb (chromeLocal s) then None
  else
    match rejects s with
    | None => was_settings s
    | Some _ => None
    end.

(** 704-720 *)
Definition saveSettings (settings : Obj) (s : Storage) : bool * Storage :=
  if negb (chromeLocal s) then (false, s)
  else
    match rejects s with
    | None => (true, set_was_settings (Some settings) s)
    | Some _ => (false, s)
    end.

(** [settings || {}] *)
Definition orObj (v : option Obj) : Obj :=
  match v with
  | Some o => o
  | None => emptyObj
  end.

(** 728-737 *)
Definition saveSetting (key : string) (value : JsVal) (s : Storage)
  : bool * Storage :=
  saveSettings (setProp key value (orObj (getSettings s))) s.

(** 744-752 *)
Definition getSetting (key : string) (s : Storage) : JsVal :=
  orObj (getSettings s) key.

(** The object of lines 491-498. *)
Definition defaults : Obj :=
  setProp "reloadInterval" (JNum 30)
    (setProp "debugMode" (JBool false)
       (setProp "autoReload" (JBool true)
          (setProp "sendDelay" (JNum 3000)
             (setProp "autoRetry" (JBool true)
                (setProp "postSendAction" (JStr "refresh") emptyObj))))).

(** 483-507 *)
Definition initializeDefaults (s : Storage) : Storage :=
  if negb (chromeLocal s) then s
  else
    match getSettings s with
    | None => snd (saveSettings defaults s)
    | Some settings =>
        match settings "postSendAction" with
        | JUndefined =>
            snd (saveSettings
                   (setProp "postSendAction" (JStr "refresh") settings) s)
        | _ => s
        end
    end.

(** 756-764 *)
Definition clearAll (s : Storage) : bool * Storage :=
  if negb (chromeLocal s) then (false, s)
  else
    match rejects s with
    | None => (true, set_was_settings None (set_was_schedules None s))
    | Some _ => (false, s)
    end.

(** 770-782 *)
Definition clearSchedules (s : Storage) : bool * Storage :=
  if chromeLocal s then
    match rejects s with
    | None => (true, saveFallbackSchedules [] (set_was_schedules None s))
    | Some _ => (false, s)
    end
  else (true, saveFallbackSchedules [] s).

End WASStorage.

(** The storage while the extension runs undisturbed. *)
Definition healthy (s : WASStorage.Storage) : Prop :=
  WASStorage.chromeLocal s = true
  /\ WASStorage.runtimeId s = true
  /\ WASStorage.rejects s = None.

(** A storage in that state holding [stored] under both keys. *)
Definition storageOf (stored : option (list Schedule))
  (prefs : option WASStorage.Obj) : WASStorage.Storage :=
  {| WASStorage.chromeLocal := true; WASStorage.runtimeId := true;
     WASStorage.rejects := None;
     WASStorage.was_schedules := stored;
     WASStorage.was_settings := prefs;
     WASStorage.was_fallback := stored;
     WASStorage.reloads := [] |}.

(** The same once the extension was reloaded under the page: the
    runtime id is gone and only the fallback copy can be reached. *)
Definition orphaned (s : WASStorage.Storage) : WASStorage.Storage :=
  {| WASStorage.chromeLocal := WASStorage.chromeLocal s;
     WASStorage.runtimeId := false;
     WASStorage.rejects := WASStorage.rejects s;
     WASStorage.was_schedules := WASStorage.was_schedules s;
     WASStorage.was_settings := WASStorage.was_settings s;
     WASStorage.was_fallback := WASStorage.was_fallback s;
     WASStorage.reloads := WASStorage.reloads s |}.

(** Day 20001, 09:00. *)
Definition nextMorning : Z := nineOClock + 86400000.



(** What a caller hands to [addSchedule] for a message to Bob at 09:00. *)
Definition pingDraft : WASStorage.Draft :=
  {| WASStorage.d_time := "09:00";
     WASStorage.d_message := Some "Ping";
     WASStorage.d_useClipboard := None;
     WASStorage.d_contactList := Some ["Bob"];
     WASStorage.d_contactName := None |}.

(* ================================================================== *)
(** * The panel ([WASUI], src/unnamed/part_002): what it stores and
      what it asks of the scheduler

    Of the panel only the four inputs of its form are kept, and the
    notifications it shows, in order; how the list of schedules is drawn
    is left out. *)

Module WASUI.

Record Form : Type := {
  timeInput : string;              (* #was-time-input *)
  messageInput : string;           (* #was-message-input *)
  clipboardCheckbox : bool;        (* #was-clipboard-checkbox *)
  contactsInput : string           (* #was-contacts-input *)
}.

(** [showNotification(title, message, type)] *)
Record Notice : Type := {
  title : string;
  body : string;
  kind : string
}.

(** [(contactsInput.value || '').split(',').map(s => s.trim())
      .filter(Boolean)] (694-697, 1104-1107) *)
Definition contactList (value : string) : list string :=
  namedContacts (map trim (split "," value)).

Definition cleared : Form :=
  {| timeInput := ""; messageInput := ""; clipboardCheckbox := false;
     contactsInput := "" |}.

(** [loadData], as far as the storage goes (652-664). *)
Definition loadData (s : WASStorage.Storage) : WASStorage.Storage :=
  snd (WASStorage.getSchedules s).

(** 685-742.  The answer is the notifications shown, the form as it is left
    and the storage. *)
Definition addSchedule (now : Z) (form : Form) (s : WASStorage.Storage)
  : list Notice * Form * WASStorage.Storage :=
  let time := timeInput form in
  let message := trim (messageInput form) in
  let useClipboard := clipboardCheckbox form in
  let contacts := contactList (contactsInput form) in
  if str_falsy time then
    ([{| title := "Error"; body := "Please select a time";
         kind := "error" |}], form, s)
  else if str_falsy message && negb useClipboard then
    ([{| title := "Error";
         body := "Please enter a message or enable clipboard option";
         kind := "error" |}], form, s)
  else
    let note :=
      match contacts with
      | [] =>
          [{| title := "Note";
              body := "No contacts specified. Message will be sent to the currently open chat.";
              kind := "success" |}]
      | _ :: _ => []
      end in
    let (success, s1) :=
      WASStorage.addSchedule now
        {| WASStorage.d_time := time;
           WASStorage.d_message := Some message;
           WASStorage.d_useClipboard := Some useClipboard;
           WASStorage.d_contactList := Some contacts;
           WASStorage.d_contactName := None |} s in
    if success then
      (note ++ [{| title := "Success"; body := "Schedule added successfully";
                   kind := "success" |}],
       cleared, loadData s1)
    else
      (note ++ [{| title := "Error"; body := "Failed to add schedule";
                   kind := "error" |}],
       form, s1).

(** 744-757 *)
Definition deleteSchedule (sid : string) (s : WASStorage.Storage)
  : list Notice * WASStorage.Storage :=
  let (success, s1) := WASStorage.removeSchedule sid s in
  if success then
    ([{| title := "Success"; body := "Schedule deleted";
         kind := "success" |}], loadData s1)
  else
    ([{| title := "Error"; body := "Failed to delete schedule";
         kind := "error" |}], s1).

Section OnThePage.
Context {B : Browser}.


End OnThePage.

End WASUI.


(** [names.join(', ')] *)
Fixpoint joinNames (names : list string) : string :=
  match names with
  | [] => ""
  | [name] => name
  | name :: rest => name ++ ", " ++ joinNames rest
  end.

(** The units of a string. *)
Definition hasUnit (c : ascii) (s : string) : bool :=
  existsb (Ascii.eqb c) (list_ascii_of_string s).

(** The units of a trimmed text: what is left of [l] once white space is
    dropped at both ends. *)
Definition trimmed (l : list ascii) : list ascii :=
  rev (drop_ws (rev (drop_ws l))).


(** A name as the panel stores it. *)
Definition cleanName (name : string) : Prop :=
  name <> "" /\ trim name = name /\ hasUnit "," name = false.


(** The form filled in for a message to Bob at 09:00. *)
Definition bobForm : WASUI.Form :=
  {| WASUI.timeInput := "09:00"; WASUI.messageInput := " Hi ";
     WASUI.clipboardCheckbox := false; WASUI.contactsInput := "Bob" |}.


(* ------------------------------------------------------------------ *)
(** ** What a tick may change *)

(** The store [l'] is the store [l] but for records marked sent, each of
    them carrying one of the ids [ids]. *)
Definition onlyMarks (ids : list string) (l l' : list Schedule) : Prop :=
  Forall2
    (fun s s' => s' = s \/ (In (id s) ids /\ exists d, s' = mark_sent d s))
    l l'.

Section TickVocabulary.
Context {B : Browser}.

(** What the scheduler keeps of itself across a delivery or a tick: the
    two semaphores, its settings, and what it knows of the storage
    besides the schedules. *)
Definition sameControls (w w' : World) : Prop :=
  isSending w' = isSending w
  /\ isCheckingSchedules w' = isCheckingSchedules w
  /\ settings w' = settings w
  /\ postSendAction w' = postSendAction w
  /\ contextValid w' = contextValid w.

Definition tickFrame (ids : list string) (w w' : World) : Prop :=
  sameControls w w'
  /\ isRunning w' = isRunning w
  /\ onlyMarks ids (schedules w) (schedules w').

(** The schedules due at the start of a tick. *)
Definition dueAt (w : World) : list Schedule :=
  filter
    (fun s => shouldSendMessage (page w) s (getCurrentTimeString (clock w)))
    (schedules w).

End TickVocabulary.

(** A world whose extension context is gone. *)
Definition invalidWorld : @World ChatPage :=
  {| page := (inConversation : @Page ChatPage); clock := nineOClock;
     isRunning := true; isSending := false; isCheckingSchedules := false;
     lastSendTime := 0; settings := defaultSettings;
     schedules := [hiHere]; postSendAction := Some "none";
     contextValid := false |}.

(** A page on which nothing is found: neither a search field nor a
    composer. *)
Definition BlankPage : Browser :=
  {| Page := unit;
     act := fun _ p => (Ok false, p);
     elapse := fun _ p => p;
     findMessageInputBox := fun _ => None;
     findSearchInput := fun _ => None;
     isSearchBox := fun _ _ => false;
     activeElement := fun _ => None;
     textOf := fun _ _ => "";
     messageTexts := fun _ => [];
     disconnectedBanner := fun _ => false;
     clipboardText := fun _ => Ok "";
     localeCompare := compareUnits |}.

Definition blankWorld (store : list Schedule) : @World BlankPage :=
  {| page := (tt : @Page BlankPage); clock := nineOClock;
     isRunning := true; isSending := false; isCheckingSchedules := false;
     lastSendTime := 0; settings := defaultSettings;
     schedules := store; postSendAction := Some "none";
     contextValid := true |}.

(** The events of [retries] passes of [openChat] that find no search
    field. *)
Fixpoint passesWithoutSearch (name : string) (retries : nat) : list Event :=
  match retries with
  | O => []
  | S n =>
      EStatus (MsgOpeningChat name) SWorking :: ESleep AtPace 300
      :: passesWithoutSearch name n
  end.

(** The page after [n] pauses of [ms] milliseconds. *)
Fixpoint elapsed {B : Browser} (ms : Z) (n : nat) (p : Page) : Page :=
  match n with
  | O => p
  | S n' => elapsed ms n' (elapse ms p)
  end.

(** An event that does nothing to the page. *)
Definition hands_off (e : Event) : bool := negb (is_ui_mutation e).

(** What the target loops of a delivery emit: all of a delivery but the
    mark in the store, the notifications that follow it and the timers. *)
Definition loop_level (e : Event) : bool :=
  typing_level e || switch_level e ||
  match e with
  | ESleep AtBackoff _ | ESleep AtAfterOpen _ | ESleep AtInterTarget _ => true
  | _ => false
  end.

(* ------------------------------------------------------------------ *)
(** ** The world and the storage module *)


(** A message to Bob at 10:30. *)
Definition laterToBob : Schedule :=
  {| id := "s6"; time := "10:30"; message := Some "Later";
     useClipboard := false; contactList := ["Bob"];
     sent := false; lastSentDate := None |}.



(* ------------------------------------------------------------------ *)
(** ** The two checks of the verifier, and a conversation to run it on *)

Section Signs.
Context {B : Browser}.

(** The first check passes: no composer is found, or the one found holds
    nothing but white space. *)
Definition composerBlank (p : Page) : Prop :=
  findMessageInputBox p = None
  \/ exists input,
       findMessageInputBox p = Some input /\ trim (textOf p input) = "".

(** The second check passes: an element matching the message selector has
    a text, and the text contains the first 30 units of the message. *)
Definition matchShown (messageText : string) (p : Page) : Prop :=
  exists t,
    In t (messageTexts p) /\ t <> ""
    /\ includes t (substring 0 30 messageText) = true.

End Signs.

(** A conversation as it is shown: the composer with its text, when there
    is one, and the messages in it, oldest first, each with its direction.
    The selector [[data-testid="msg-container"]] matches the container of
    every message, received or sent. *)
Inductive Direction : Type := Received | Sent.

Record Thread : Type := {
  draft : option string;
  thread : list (Direction * string)
}.

Definition sentOnes (p : Thread) : list string :=
  map snd (filter (fun m => match fst m with
                            | Sent => true
                            | Received => false
                            end) (thread p)).

(** Nothing the scheduler does has an effect on this page, and the page
    does nothing on its own. *)
Definition ThreadPage : Browser :=
  {| Page := Thread;
     act := fun _ p => (Ok false, p);
     elapse := fun _ p => p;
     findMessageInputBox :=
       fun p => match draft p with
                | Some _ => Some 1%nat
                | None => None
                end;
     findSearchInput := fun _ => None;
     isSearchBox := fun _ _ => false;
     activeElement := fun _ => None;
     textOf := fun p e =>
                 match draft p with
                 | Some text => if Nat.eqb e 1 then text else ""
                 | None => ""
                 end;
     messageTexts := fun p => map snd (thread p);
     disconnectedBanner := fun _ => false;
     clipboardText := fun _ => Ok "";
     localeCompare := compareUnits |}.

Definition threadWorld (p : Thread) : @World ThreadPage :=
  {| page := (p : @Page ThreadPage); clock := nineOClock;
     isRunning := true; isSending := false; isCheckingSchedules := false;
     lastSendTime := 0; settings := defaultSettings;
     schedules := []; postSendAction := Some "none";
     contextValid := true |}.

(** No composer, and an old message that was received. *)
Definition greeted : Thread :=
  {| draft := None; thread := [(Received, "Hi, how are you?")] |}.

(** The same with an empty composer. *)
Definition greetedAtComposer : Thread :=
  {| draft := Some ""; thread := [(Received, "Hi, how are you?")] |}.

(** "Hi" was sent and shows, and the composer holds a blank. *)
Definition answered : Thread :=
  {| draft := Some " ";
     thread := [(Received, "Hi, how are you?"); (Sent, "Hi")] |}.

(* ================================================================== *)
(** * Properties *)

(** ** The string helpers on a few inputs *)

Example includes_inside : includes "hello" "ell" = true.
Proof. reflexivity. Qed.

Example includes_empty : includes "hello" "" = true.
Proof. reflexivity. Qed.

Example includes_missing : includes "" "a" = false.
Proof. reflexivity. Qed.

Example trim_both_ends :
  trim (String " "%char (String "a"%char (String " "%char
         (String "b"%char (String (ascii_of_nat 10) EmptyString)))))
  = "a b".
Proof. reflexivity. Qed.

Example time_string : getCurrentTimeString nineOClock = "09:00".
Proof. reflexivity. Qed.

Section Laws.
Context {B : Browser}.

(** ** Computations *)

Lemma outcome_eta {A} (o : Outcome A) :
  {| res := res o; st := st o; evs := evs o |} = o.
Proof. destruct o; reflexivity. Qed.

Lemma bind_ok {A C} (m : M A) (f : A -> M C) w a :
  res (m w) = Ok a -> bind m f w = andThen (m w) (f a).
Proof. unfold bind. intros ->. reflexivity. Qed.

Lemma bind_throw {A C} (m : M A) (f : A -> M C) w e :
  res (m w) = Throw e ->
  bind m f w = {| res := Throw e; st := st (m w); evs := evs (m w) |}.
Proof. unfold bind. intros ->. reflexivity. Qed.

Lemma bind_run {A C} (m : M A) (f : A -> M C) w a w' l :
  m w = {| res := Ok a; st := w'; evs := l |} ->
  bind m f w
  = {| res := res (f a w'); st := st (f a w'); evs := l ++ evs (f a w') |}.
Proof. unfold bind, andThen. intros ->. reflexivity. Qed.

Lemma bind_ret_l {A C} (a : A) (f : A -> M C) w :
  bind (ret a) f w = f a w.
Proof. unfold bind, andThen. simpl. apply outcome_eta. Qed.

Lemma bind_get {C} (f : World -> M C) w :
  bind get f w = f w w.
Proof. unfold bind, andThen. simpl. apply outcome_eta. Qed.

Lemma bind_ret_r {A} (m : M A) w :
  bind m (fun a => ret a) w = m w.
Proof.
  unfold bind, andThen. destruct (m w) as [[a|e] w1 l]; simpl.
  - rewrite app_nil_r. reflexivity.
  - reflexivity.
Qed.

Lemma bind_assoc {A C D} (m : M A) (f : A -> M C) (g : C -> M D) w :
  bind (bind m f) g w = bind m (fun a => bind (f a) g) w.
Proof.
  unfold bind, andThen. destruct (m w) as [[a|e] w1 l1]; simpl; [|reflexivity].
  destruct (f a w1) as [[c|e] w2 l2]; simpl; [|reflexivity].
  rewrite app_assoc. reflexivity.
Qed.

Lemma bind_ext {A C} (m : M A) (f g : A -> M C) w :
  (forall a w', f a w' = g a w') -> bind m f w = bind m g w.
Proof.
  intros E. unfold bind, andThen.
  destruct (res (m w)); [rewrite E|]; reflexivity.
Qed.

Lemma truthy_js_or a b : truthy (js_or a b) = truthy a || truthy b.
Proof. unfold js_or. destruct (truthy a) eqn:E; simpl; auto. Qed.

#[local] Instance anyFrame : UiFrame (fun _ _ => True).
Proof. split; auto. Qed.

#[local] Instance ctlFrame : UiFrame (fun w w' => ctl w' = ctl w).
Proof.
  split; try reflexivity.
  intros w1 w2 w3 H1 H2. congruence.
Qed.

Section Frames.
Variable I : World -> World -> Prop.
Context {FI : UiFrame I}.
Variable ok : Event -> bool.

Lemma Sound_ret {A} (a : A) : Sound I ok (ret a).
Proof. intros w. split; [apply uf_refl | reflexivity]. Qed.

Lemma Sound_throw {A} e : Sound I ok (@throw _ A e).
Proof. intros w. split; [apply uf_refl | reflexivity]. Qed.

Lemma Sound_get : Sound I ok get.
Proof. intros w. split; [apply uf_refl | reflexivity]. Qed.

Lemma Sound_read {A} (f : Page -> A) : Sound I ok (read f).
Proof. intros w. split; [apply uf_refl | reflexivity]. Qed.

Lemma Sound_emit e : ok e = true -> Sound I ok (emit e).
Proof. intros H w. split; [apply uf_refl | simpl; rewrite H; reflexivity]. Qed.

Lemma Sound_updateStatus m t :
  ok (EStatus m t) = true -> Sound I ok (updateStatus m t).
Proof. apply Sound_emit. Qed.

Lemma Sound_sleep site ms :
  ok (ESleep site ms) = true -> Sound I ok (sleep site ms).
Proof.
  intros H w. split.
  - simpl. eapply uf_trans; [apply uf_page | apply uf_clock].
  - simpl. rewrite H. reflexivity.
Qed.

Lemma Sound_ui a : ok (EUi a) = true -> Sound I ok (ui a).
Proof.
  intros H w. split; [apply uf_page | simpl; rewrite H; reflexivity].
Qed.

Lemma Sound_modify f :
  (forall w, I w (f w)) -> Sound I ok (modify f).
Proof. intros H w. split; [apply H | reflexivity]. Qed.

Lemma Sound_bind {A C} (m : M A) (f : A -> M C) :
  Sound I ok m -> (forall a, Sound I ok (f a)) -> Sound I ok (bind m f).
Proof.
  intros Hm Hf w. destruct (Hm w) as [I1 E1].
  unfold bind. destruct (res (m w)) as [a|e]; simpl.
  - destruct (Hf a (st (m w))) as [I2 E2]. split.
    + eapply uf_trans; eassumption.
    + rewrite forallb_app, E1, E2. reflexivity.
  - split; assumption.
Qed.

Lemma Sound_try_catch {A} (m : M A) (h : Err -> M A) :
  Sound I ok m -> (forall e, Sound I ok (h e)) -> Sound I ok (try_catch m h).
Proof.
  intros Hm Hh w. destruct (Hm w) as [I1 E1].
  unfold try_catch. destruct (res (m w)) as [a|e]; simpl.
  - split; assumption.
  - destruct (Hh e (st (m w))) as [I2 E2]. split.
    + eapply uf_trans; eassumption.
    + rewrite forallb_app, E1, E2. reflexivity.
Qed.

Lemma Sound_finally {A} (m : M A) (f : M unit) :
  Sound I ok m -> Sound I ok f -> Sound I ok (finally m f).
Proof.
  intros Hm Hf w. destruct (Hm w) as [I1 E1].
  destruct (Hf (st (m w))) as [I2 E2].
  unfold finally; simpl. split.
  - eapply uf_trans; eassumption.
  - rewrite forallb_app, E1, E2. reflexivity.
Qed.

End Frames.

Lemma Sound_weaken I (ok ok' : Event -> bool) {A} (m : M A) :
  (forall e, ok e = true -> ok' e = true) ->
  Sound I ok m -> Sound I ok' m.
Proof.
  intros Hsub Hm w. destruct (Hm w) as [HI E]. split; [assumption|].
  rewrite forallb_forall in *. auto.
Qed.

Lemma Total_ret {A} (a : A) : Total (ret a).
Proof. intros w. exists a. reflexivity. Qed.

Lemma Total_bind {A C} (m : M A) (f : A -> M C) :
  Total m -> (forall a, Total (f a)) -> Total (bind m f).
Proof.
  intros Hm Hf w. destruct (Hm w) as [a Ha].
  rewrite (bind_ok _ _ _ _ Ha). apply Hf.
Qed.

Lemma Total_try_catch {A} (m : M A) (h : Err -> M A) :
  (forall e, Total (h e)) -> Total (try_catch m h).
Proof.
  intros Hh w. unfold try_catch.
  destruct (res (m w)) as [a|e] eqn:E.
  - exists a. assumption.
  - apply Hh.
Qed.

Lemma Total_finally {A} (m : M A) (f : M unit) :
  Total m -> Total f -> Total (finally m f).
Proof.
  intros Hm Hf w. destruct (Hm w) as [a Ha].
  destruct (Hf (st (m w))) as [u Hu].
  exists a. unfold finally; simpl. rewrite Hu. assumption.
Qed.

Lemma Total_sleep site ms : Total (sleep site ms).
Proof. intros w. exists tt. reflexivity. Qed.

Lemma Total_emit e : Total (emit e).
Proof. intros w. exists tt. reflexivity. Qed.

Lemma Total_get : Total get.
Proof. intros w. exists w. reflexivity. Qed.

Lemma Total_modify f : Total (modify f).
Proof. intros w. exists tt. reflexivity. Qed.

Lemma Total_read {A} (f : Page -> A) : Total (read f).
Proof. intros w. eexists. reflexivity. Qed.

End Laws.

Ltac level_sub :=
  let e := fresh "e" in
  let H := fresh "H" in
  intros e H; destruct e as [[] ?|?| |[] ?|? ? ?|?|? ?|];
  simpl in *; solve [reflexivity | discriminate].

Ltac sound_step :=
  lazymatch goal with
  | |- Sound ?I _ (bind _ _) => apply (Sound_bind I); [ | intros ? ]
  | |- Sound ?I _ (try_catch _ _) => apply (Sound_try_catch I); [ | intros ? ]
  | |- Sound ?I _ (finally _ _) => apply (Sound_finally I)
  | |- Sound ?I _ (ret _) => apply (Sound_ret I)
  | |- Sound ?I _ (throw _) => apply (Sound_throw I)
  | |- Sound ?I _ get => apply (Sound_get I)
  | |- Sound ?I _ (read _) => apply (Sound_read I)
  | |- Sound ?I _ (sleep _ _) => apply (Sound_sleep I); reflexivity
  | |- Sound ?I _ (ui _) => apply (Sound_ui I); reflexivity
  | |- Sound ?I _ (updateStatus _ _) =>
      apply (Sound_updateStatus I); reflexivity
  | |- Sound ?I _ (emit _) => apply (Sound_emit I); reflexivity
  | |- Sound ?I _ (modify _) => apply (Sound_modify I); intros ?; constructor
  | |- Sound _ _ (if ?b then _ else _) => destruct b
  | |- Sound _ _ (match ?x with _ => _ end) => destruct x
  end.

Create HintDb sound.

Ltac sound :=
  repeat sound_step;
  try solve
    [ eauto with sound
    | match goal with
      | |- Sound ?I _ _ =>
          eapply (Sound_weaken I); [ | solve [eauto with sound] ]; level_sub
      end ].

Section PageFacing.
Context {B : Browser}.
Variable I : World -> World -> Prop.
Context {FI : UiFrame I}.

Lemma Sound_waitForMessageSent_from text polls :
  Sound I typing_level (waitForMessageSent_from text polls).
Proof. induction polls as [|n IH]; simpl; sound. Qed.

Lemma Sound_waitForMessageSent text :
  Sound I typing_level (waitForMessageSent text).
Proof. apply Sound_waitForMessageSent_from. Qed.

Lemma Sound_stampSend ok : Sound I ok stampSend.
Proof.
  unfold stampSend. sound. apply (Sound_modify I). intros w. apply uf_last.
Qed.

Lemma Sound_pressEnter el : Sound I ui_level (pressEnter el).
Proof. unfold pressEnter. sound. Qed.

Lemma Sound_typeChars el chars : Sound I ui_level (typeChars el chars).
Proof. induction chars as [|c l IH]; simpl; sound. Qed.

Hint Resolve Sound_waitForMessageSent Sound_stampSend Sound_pressEnter
  Sound_typeChars : sound.

Lemma Sound_injectByClipboard el text :
  Sound I typing_level (injectByClipboard el text).
Proof. unfold injectByClipboard. sound. Qed.

Lemma Sound_injectByInsertion el text :
  Sound I typing_level (injectByInsertion el text).
Proof. unfold injectByInsertion. sound. Qed.

Lemma Sound_injectByTyping el text :
  Sound I ui_level (injectByTyping el text).
Proof. unfold injectByTyping. sound. Qed.

Hint Resolve Sound_injectByClipboard Sound_injectByInsertion
  Sound_injectByTyping : sound.

Lemma Sound_injectAndSendMessage ok text :
  (forall e, typing_level e = true -> ok e = true) ->
  Sound I ok (injectAndSendMessage text).
Proof.
  intros Hsub. apply (Sound_weaken I typing_level); [assumption|].
  unfold injectAndSendMessage. sound.
Qed.

Lemma Sound_focusElement el : Sound I ui_level (focusElement el).
Proof. unfold focusElement. sound. Qed.

Lemma Sound_dispatchAll el types : Sound I ui_level (dispatchAll el types).
Proof. induction types as [|t l IH]; simpl; sound. Qed.

Hint Resolve Sound_focusElement Sound_dispatchAll : sound.

Lemma Sound_clearInputBox el : Sound I ui_level (clearInputBox el).
Proof. unfold clearInputBox. sound. Qed.

Lemma Sound_insertMessageText el text :
  Sound I ui_level (insertMessageText el text).
Proof. unfold insertMessageText. sound. Qed.

Lemma Sound_keyOnActive ph key : Sound I ui_level (keyOnActive ph key).
Proof. unfold keyOnActive. sound. Qed.

Hint Resolve Sound_clearInputBox Sound_insertMessageText
  Sound_keyOnActive : sound.

Lemma Sound_openChat_attempt name :
  Sound I attempt_level (openChat_attempt name).
Proof. unfold openChat_attempt. sound. Qed.

Hint Resolve Sound_openChat_attempt : sound.

Lemma Sound_openChat_pass name : Sound I switch_level (openChat_pass name).
Proof. unfold openChat_pass. sound. Qed.

Hint Resolve Sound_openChat_pass : sound.

Lemma Sound_openChat ok name retries :
  (forall e, switch_level e = true -> ok e = true) ->
  Sound I ok (openChat name retries).
Proof.
  intros Hsub. apply (Sound_weaken I switch_level); [assumption|].
  induction retries as [|n IH]; simpl; sound.
Qed.

Lemma Sound_as_js ok (m : M bool) : Sound I ok m -> Sound I ok (as_js m).
Proof. intros H. unfold as_js. sound. Qed.

Lemma Sound_smartRetry_from ok operation maxRetries attempt left :
  (forall ms, ok (ESleep AtBackoff ms) = true) ->
  Sound I ok operation ->
  Sound I ok (smartRetry_from operation maxRetries attempt left).
Proof.
  intros Hb Hop. revert attempt.
  induction left as [|n IH]; intros attempt; simpl; sound.
  apply (Sound_sleep I). apply Hb.
Qed.

Lemma Sound_smartRetry ok operation maxRetries :
  (forall ms, ok (ESleep AtBackoff ms) = true) ->
  Sound I ok operation ->
  Sound I ok (smartRetry operation maxRetries).
Proof. intros. apply Sound_smartRetry_from; assumption. Qed.

End PageFacing.

#[global] Existing Instance anyFrame.
#[global] Existing Instance ctlFrame.

(* ------------------------------------------------------------------ *)
(** ** shouldSendMessage *)

(** C2: [shouldSendMessage] answers [true] exactly when the schedule is
    not yet sent, its time is the current time, and the page shows no
    disconnect banner; for a schedule already sent it answers [false]
    whatever the time and the page. *)
Theorem shouldSendMessage_iff {B : Browser}
  (p : Page) (schedule : Schedule) (currentTime : string) :
  (shouldSendMessage p schedule currentTime = true <->
     sent schedule = false
     /\ time schedule = currentTime
     /\ isWhatsAppConnected p = true)
  /\ (sent schedule = true ->
      shouldSendMessage p schedule currentTime = false).
Proof.
  unfold shouldSendMessage. split.
  - destruct (sent schedule); [intuition discriminate|].
    destruct (String.eqb_spec (time schedule) currentTime) as [E|N]; simpl.
    + destruct (isWhatsAppConnected p); simpl; intuition discriminate.
    + intuition discriminate.
  - intros ->. reflexivity.
Qed.

Lemma shouldSendMessage_iff_witness :
  sent (mark_sent 20000 hiHere) = true
  /\ @shouldSendMessage ChatPage inConversation (mark_sent 20000 hiHere)
       "09:00" = false.
Proof.
  split; [reflexivity|].
  apply (proj2 (@shouldSendMessage_iff ChatPage inConversation
                  (mark_sent 20000 hiHere) "09:00")).
  reflexivity.
Defined.

(* ------------------------------------------------------------------ *)
(** ** No text, no send *)

(** C4: a schedule whose message is empty (or missing) and whose
    clipboard fallback is off, or whose clipboard read gives the empty
    string or fails, is given up before anything is done to the page:
    the only event there can be is the clipboard read, the page and the
    store are as before, and the schedule is not marked sent. *)
Theorem empty_message_aborts {B : Browser} (schedule : Schedule) (w : World) :
  field_falsy (message schedule) = true ->
  (useClipboard schedule = false
   \/ clipboardText (page w) = Ok ""
   \/ exists e, clipboardText (page w) = Throw e) ->
  let o := sendScheduledMessage schedule w in
  res o = Ok JUndefined
  /\ (evs o = [] \/ evs o = [EClipboardRead])
  /\ forallb (fun e => negb (is_ui_mutation e) && negb (is_store_update e))
       (evs o) = true
  /\ page (st o) = page w
  /\ clock (st o) = clock w
  /\ schedules (st o) = schedules w.
Proof.
  intros Empty Clip.
  assert (Body : exists l,
             sendScheduledMessage_try schedule (set_isSending true w)
             = {| res := Ok JUndefined; st := set_isSending true w;
                  evs := l |}
             /\ (l = [] \/ l = [EClipboardRead])).
  { unfold sendScheduledMessage_try. rewrite Empty.
    destruct (useClipboard schedule) eqn:Use; cbn [andb].
    - exists [EClipboardRead]. split; [|auto].
      assert (G : getClipboardText (set_isSending true w)
                  = {| res := Ok ""; st := set_isSending true w;
                       evs := [EClipboardRead] |}).
      { unfold getClipboardText, bind, try_catch, read, emit, andThen. simpl.
        destruct Clip as [F|[E|[e E]]]; [discriminate| |]; rewrite E;
          reflexivity. }
      rewrite bind_assoc, (bind_run _ _ _ _ _ _ G), bind_ret_l.
      reflexivity.
    - exists []. split; [|auto]. rewrite bind_ret_l.
      destruct (message schedule) as [m|]; [|reflexivity].
      simpl in Empty. rewrite Empty. reflexivity. }
  destruct Body as [l [Body Shape]].
  unfold sendScheduledMessage. rewrite bind_get.
  destruct (isSending w) eqn:Busy.
  { simpl. auto 10. }
  unfold bind, andThen, finally, try_catch. cbn [modify res st evs].
  rewrite Body. cbn [modify res st evs app]. rewrite app_nil_r.
  repeat split; auto.
  destruct Shape as [-> | ->]; reflexivity.
Qed.

Lemma empty_message_aborts_witness :
  let o := sendScheduledMessage emptyToBob (chatWorld onlyBob [emptyToBob]) in
  res o = Ok JUndefined
  /\ (evs o = [] \/ evs o = [EClipboardRead])
  /\ forallb (fun e => negb (is_ui_mutation e) && negb (is_store_update e))
       (evs o) = true
  /\ page (st o) = onlyBob
  /\ clock (st o) = nineOClock
  /\ schedules (st o) = [emptyToBob].
Proof.
  apply (empty_message_aborts emptyToBob (chatWorld onlyBob [emptyToBob])).
  - reflexivity.
  - left. reflexivity.
Defined.

(* ------------------------------------------------------------------ *)
(** ** The retry controller *)

Section Retry.
Context {B : Browser}.

(** The guarded attempt of one turn of the loop. *)
Lemma attempt_hit (operation : M JsVal) w v :
  res (operation w) = Ok v -> truthy v = true ->
  try_catch
    (result <- operation ;;
     ret (if truthy result then Some result else None))
    (fun _ => ret None) w
  = {| res := Ok (Some v); st := st (operation w);
       evs := evs (operation w) |}.
Proof.
  intros R T. unfold try_catch, bind, andThen.
  destruct (operation w) as [r w' l]. simpl in *. subst r. simpl.
  rewrite T, app_nil_r. reflexivity.
Qed.

Lemma attempt_miss (operation : M JsVal) w :
  attemptFailed (operation w) ->
  try_catch
    (result <- operation ;;
     ret (if truthy result then Some result else None))
    (fun _ => ret None) w
  = {| res := Ok None; st := st (operation w); evs := evs (operation w) |}.
Proof.
  unfold attemptFailed, try_catch, bind, andThen.
  destruct (operation w) as [[v|e] w' l]; simpl.
  - intros ->. simpl. rewrite app_nil_r. reflexivity.
  - intros _. rewrite app_nil_r. reflexivity.
Qed.

(** One turn of the loop, according to how the attempt went. *)
Lemma smartRetry_from_hit operation maxRetries attempt left w v :
  res (operation w) = Ok v -> truthy v = true ->
  smartRetry_from operation maxRetries attempt (S left) w
  = {| res := Ok v; st := st (operation w); evs := evs (operation w) |}.
Proof.
  intros R T. cbn [smartRetry_from].
  rewrite (bind_run _ _ _ _ _ _ (attempt_hit _ _ _ R T)).
  simpl. rewrite app_nil_r. reflexivity.
Qed.

Lemma smartRetry_from_miss operation maxRetries attempt left w :
  attemptFailed (operation w) ->
  smartRetry_from operation maxRetries attempt (S left) w
  = andThen
      {| res := Ok tt; st := st (operation w); evs := evs (operation w) |}
      ((if (attempt <? maxRetries)%nat
        then sleep AtBackoff (backoff attempt) else ret tt) ;;
       smartRetry_from operation maxRetries (S attempt) left).
Proof.
  intros F. cbn [smartRetry_from].
  rewrite (bind_run _ _ _ _ _ _ (attempt_miss _ _ F)). reflexivity.
Qed.

Lemma smartRetry_from_again operation maxRetries attempt left w :
  attemptFailed (operation w) ->
  (attempt < maxRetries)%nat ->
  smartRetry_from operation maxRetries attempt (S left) w
  = let o := smartRetry_from operation maxRetries (S attempt) left
               (st (sleep AtBackoff (backoff attempt) (st (operation w)))) in
    {| res := res o; st := st o;
       evs := evs (operation w) ++ ESleep AtBackoff (backoff attempt)
                                   :: evs o |}.
Proof.
  intros F Lt. rewrite (smartRetry_from_miss _ _ _ _ _ F).
  apply Nat.ltb_lt in Lt. rewrite Lt.
  unfold andThen. cbn [res st evs].
  rewrite (bind_run (sleep AtBackoff (backoff attempt)) _ _ tt _ _ eq_refl).
  reflexivity.
Qed.

Lemma attempt_hit_or_miss (o : Outcome JsVal) :
  (exists v, res o = Ok v /\ truthy v = true) \/ attemptFailed o.
Proof.
  unfold attemptFailed. destruct (res o) as [v|e]; [|right; exact I].
  destruct (truthy v) eqn:T; [left; eauto | right; reflexivity].
Qed.

Lemma smartRetry_from_Retried operation maxRetries left :
  forall attempt w,
    (attempt + left = S maxRetries)%nat ->
    Retried operation maxRetries attempt w
      (smartRetry_from operation maxRetries attempt left w).
Proof.
  induction left as [|n IH]; intros attempt w Len.
  - simpl. apply Retried_none. lia.
  - destruct (attempt_hit_or_miss (operation w)) as [[v [R T]]|F].
    + rewrite (smartRetry_from_hit _ _ _ _ _ _ R T).
      apply Retried_done; [lia | assumption | assumption].
    + destruct (Nat.ltb_spec attempt maxRetries) as [Lt|Ge];
        [|rewrite (smartRetry_from_miss _ _ _ _ _ F);
          destruct (Nat.ltb_spec attempt maxRetries) as [Lt|_]; [lia|]].
      * rewrite (smartRetry_from_again _ _ _ _ _ F Lt). cbv zeta.
        apply (Retried_again operation maxRetries attempt w _ Lt F).
        apply IH. lia.
      * assert (n = 0)%nat by lia. subst n.
        unfold andThen, bind. simpl. rewrite app_nil_r.
        apply Retried_last; [lia | assumption].
Qed.

(** C5: [smartRetry] behaves as the retry controller is described: the
    first attempt is made at once, a truthy result is returned as it is,
    a falsy result or a throw leads to a pause of
    [min (1000 * 2^(attempt-1)) 5000] ms and another attempt unless it was
    the last one, after which the answer is [false] with no pause.  With
    three attempts allowed and an operation that fails twice and then
    succeeds, the events are those of the three attempts with a pause of
    1000 ms and one of 2000 ms in between, and the value of the third
    attempt is returned. *)
Theorem smartRetry_spec (operation : M JsVal) :
  (forall maxRetries w,
      Retried operation maxRetries 1 w (smartRetry operation maxRetries w))
  /\ (forall w v,
         let w1 := st (sleep AtBackoff 1000 (st (operation w))) in
         let w2 := st (sleep AtBackoff 2000 (st (operation w1))) in
         attemptFailed (operation w) ->
         attemptFailed (operation w1) ->
         res (operation w2) = Ok v -> truthy v = true ->
         smartRetry operation 3 w
         = {| res := Ok v; st := st (operation w2);
              evs := evs (operation w)
                     ++ ESleep AtBackoff 1000
                        :: evs (operation w1)
                     ++ ESleep AtBackoff 2000
                        :: evs (operation w2) |}).
Proof.
  split.
  - intros maxRetries w. apply smartRetry_from_Retried. lia.
  - intros w v w1 w2 F1 F2 R T. unfold smartRetry.
    rewrite (smartRetry_from_again _ _ _ _ _ F1) by lia. cbv zeta.
    change (backoff 1) with 1000%Z. fold w1.
    rewrite (smartRetry_from_again _ _ _ _ _ F2) by lia. cbv zeta.
    change (backoff 2) with 2000%Z. fold w2.
    rewrite (smartRetry_from_hit _ _ _ _ _ _ R T).
    reflexivity.
Qed.

End Retry.

Lemma smartRetry_spec_witness :
  let w := chatWorld onlyBob [] in
  res (smartRetry thirdTimeLucky 3 w) = Ok (JStr "xx")
  /\ backoffDelays (evs (smartRetry thirdTimeLucky 3 w)) = [1000; 2000]%Z
  /\ clock (st (smartRetry thirdTimeLucky 3 w)) = (clock w + 1000 + 2000)%Z.
Proof.
  intros w.
  pose proof (proj2 (smartRetry_spec thirdTimeLucky) w (JStr "xx")
                eq_refl eq_refl eq_refl eq_refl) as E.
  rewrite E. repeat split.
Defined.

(* ------------------------------------------------------------------ *)
(** ** The send verifier *)

Section Verifier.
Context {B : Browser}.

Lemma pollPage_succ i p : pollPage (S i) p = pollPage i (elapse 200 p).
Proof. reflexivity. Qed.

Lemma firstConfirmed_sound text polls : forall p k,
  firstConfirmed text polls p = Some k ->
  (1 <= k <= polls)%nat
  /\ confirmedAt text (pollPage k p) = true
  /\ forall j, (1 <= j < k)%nat -> confirmedAt text (pollPage j p) = false.
Proof.
  induction polls as [|n IH]; intros p k; simpl; [discriminate|].
  destruct (confirmedAt text (elapse 200 p)) eqn:C.
  - intros [= <-]. repeat split; try lia. assumption.
  - destruct (firstConfirmed text n (elapse 200 p)) as [k'|] eqn:F;
      [|discriminate].
    intros [= <-]. destruct (IH _ _ F) as [Rg [Ck Before]].
    repeat split; try lia; [assumption|].
    intros j Hj. destruct j as [|[|j]]; [lia|assumption|].
    rewrite pollPage_succ. apply Before. lia.
Qed.

Lemma firstConfirmed_none text polls : forall p,
  firstConfirmed text polls p = None ->
  forall j, (1 <= j <= polls)%nat -> confirmedAt text (pollPage j p) = false.
Proof.
  induction polls as [|n IH]; intros p; simpl; [intros _ j; lia|].
  destruct (confirmedAt text (elapse 200 p)) eqn:C; [discriminate|].
  destruct (firstConfirmed text n (elapse 200 p)) eqn:F; [discriminate|].
  intros _ j Hj. destruct j as [|[|j]]; [lia|assumption|].
  rewrite pollPage_succ. apply (IH _ F). lia.
Qed.

(** What the polling loop does, in closed form. *)
Lemma waitForMessageSent_from_run text polls : forall w,
  let k := match firstConfirmed text polls (page w) with
           | Some k => k
           | None => polls
           end in
  waitForMessageSent_from text polls w
  = {| res := Ok (match firstConfirmed text polls (page w) with
                  | Some _ => true
                  | None => false
                  end);
       st := set_clock (clock w + 200 * Z.of_nat k)
               (set_page (pollPage k (page w)) w);
       evs := repeat (ESleep AtPoll 200) k |}.
Proof.
  induction polls as [|n IH]; intros w.
  - cbn [waitForMessageSent_from firstConfirmed pollPage repeat]. unfold ret.
    f_equal. destruct w. unfold set_clock, set_page.
    cbn [page clock isRunning isSending isCheckingSchedules lastSendTime
         settings schedules postSendAction contextValid].
    f_equal. lia.
  - cbn [waitForMessageSent_from firstConfirmed].
    rewrite (bind_run (sleep AtPoll 200) _ _ tt _ _ eq_refl).
    change (Z.max 0 200) with 200%Z.
    set (w1 := set_clock (clock w + 200)
                 (set_page (elapse 200 (page w)) w)).
    rewrite (bind_run (read (fun p => p)) _ w1 (page w1) w1 [] eq_refl).
    change (page w1) with (elapse 200 (page w)).
    fold (confirmedAt text (elapse 200 (page w))).
    destruct (confirmedAt text (elapse 200 (page w))) eqn:C.
    + cbn [ret res st evs app repeat pollPage]. unfold w1. f_equal.
    + rewrite IH. change (page w1) with (elapse 200 (page w)).
      assert (Step : forall k,
                 set_clock (clock w1 + 200 * Z.of_nat k)
                   (set_page (pollPage k (elapse 200 (page w))) w1)
                 = set_clock (clock w + 200 * Z.of_nat (S k))
                     (set_page (pollPage (S k) (page w)) w)).
      { intros k. unfold w1, set_clock, set_page.
        cbn [page clock isRunning isSending isCheckingSchedules lastSendTime
             settings schedules postSendAction contextValid pollPage].
        f_equal. lia. }
      destruct (firstConfirmed text n (elapse 200 (page w))) as [k|];
        cbn [option_map res st evs app repeat]; rewrite Step; reflexivity.
Qed.

Lemma inputCleared_blank p : inputCleared p = true <-> composerBlank p.
Proof.
  unfold inputCleared, composerBlank, str_falsy.
  destruct (findMessageInputBox p) as [input|].
  - rewrite String.eqb_eq. split.
    + intros E. right. exists input. split; [reflexivity|assumption].
    + intros [D|[i [[= <-] E]]]; [discriminate|assumption].
  - split; intros _; [left|]; reflexivity.
Qed.

Lemma messageFound_shown text p :
  messageFound p text = true <-> matchShown text p.
Proof.
  unfold messageFound, matchShown, str_falsy. rewrite existsb_exists.
  split; intros [t [I H]]; exists t; (split; [assumption|]).
  - apply andb_prop in H. destruct H as [N Inc]. split; [|assumption].
    apply negb_true_iff in N. apply String.eqb_neq in N. assumption.
  - destruct H as [N Inc]. rewrite Inc, andb_true_r.
    apply negb_true_iff, String.eqb_neq. assumption.
Qed.

Lemma confirmedAt_checks text p :
  confirmedAt text p = true <-> composerBlank p /\ matchShown text p.
Proof.
  unfold confirmedAt. rewrite andb_true_iff, inputCleared_blank,
    messageFound_shown. reflexivity.
Qed.

Lemma unconfirmedAt_checks text p :
  confirmedAt text p = false -> ~ (composerBlank p /\ matchShown text p).
Proof.
  intros F C. apply confirmedAt_checks in C. congruence.
Qed.

(** C6 (as amended): the verifier polls every 200 ms, at most 15 times.
    It answers [true] exactly when at one of these polls both of its
    checks pass at once: no composer is found or the one found holds
    nothing but white space, and an element matching the message
    selector, whatever message it shows, has a text containing the first
    30 units of the sent text.  It stops at the first such poll;
    otherwise it answers [false] after the 15th poll.  If no such
    element shows at any poll, cleared composer or not, the answer is
    [false]. *)
Theorem waitForMessageSent_spec (messageText : string) (w : World) :
  let o := waitForMessageSent messageText w in
  let confirmed i :=
    composerBlank (pollPage i (page w))
    /\ matchShown messageText (pollPage i (page w)) in
  exists (b : bool) (k : nat),
    res o = Ok b
    /\ (1 <= k <= 15)%nat
    /\ evs o = repeat (ESleep AtPoll 200) k
    /\ clock (st o) = (clock w + 200 * Z.of_nat k)%Z
    /\ page (st o) = pollPage k (page w)
    /\ (b = true <-> exists i, (1 <= i <= 15)%nat /\ confirmed i)
    /\ (b = true ->
        confirmed k /\ forall j, (1 <= j < k)%nat -> ~ confirmed j)
    /\ (b = false -> k = 15%nat)
    /\ ((forall i, (1 <= i <= 15)%nat ->
                   ~ matchShown messageText (pollPage i (page w))) ->
        b = false).
Proof.
  intros o confirmed. unfold o, confirmed, waitForMessageSent.
  rewrite waitForMessageSent_from_run.
  destruct (firstConfirmed messageText 15 (page w)) as [k|] eqn:F.
  - destruct (firstConfirmed_sound _ _ _ _ F) as [Rg [Ck Before]].
    apply confirmedAt_checks in Ck.
    exists true, k. cbn [res st evs clock page set_clock set_page].
    split; [reflexivity|]. split; [assumption|]. split; [reflexivity|].
    split; [reflexivity|]. split; [reflexivity|]. split.
    { split; [|reflexivity]. intros _. exists k. split; assumption. }
    split.
    { intros _. split; [assumption|]. intros j Hj.
      apply unconfirmedAt_checks, Before. assumption. }
    split; [discriminate|].
    intros Never. exfalso. apply (Never k Rg). apply Ck.
  - pose proof (firstConfirmed_none _ _ _ F) as Never.
    exists false, 15%nat. cbn [res st evs clock page set_clock set_page].
    split; [reflexivity|]. split; [lia|]. split; [reflexivity|].
    split; [reflexivity|]. split; [reflexivity|]. split.
    { split; [discriminate|]. intros [i [Hi C]]. exfalso.
      apply (unconfirmedAt_checks _ _ (Never i Hi)). assumption. }
    split; [discriminate|]. split; reflexivity.
Qed.

End Verifier.

(** On a page where the composer is empty but no message ever shows, the
    verifier gives up after its 15 polls; in a conversation where the
    message shows above a blank composer, it confirms at the first. *)
Lemma waitForMessageSent_spec_witness :
  res (waitForMessageSent "Hi" (inertWorld [])) = Ok false
  /\ evs (waitForMessageSent "Hi" (inertWorld []))
     = repeat (ESleep AtPoll 200) 15
  /\ res (waitForMessageSent "Hi" (threadWorld answered)) = Ok true
  /\ evs (waitForMessageSent "Hi" (threadWorld answered))
     = [ESleep AtPoll 200].
Proof.
  destruct (waitForMessageSent_spec "Hi" (inertWorld []))
    as [b [k [R [_ [E [_ [_ [_ [_ [Last Lag]]]]]]]]]].
  assert (Hb : b = false).
  { apply Lag. intros i _ [t [[] _]]. }
  rewrite R, E, (Last Hb), Hb.
  split; [reflexivity|]. split; [reflexivity|].
  destruct (waitForMessageSent_spec "Hi" (threadWorld answered))
    as [b' [k' [R' [Rg [E' [_ [_ [Iff [First _]]]]]]]]].
  assert (Shown : composerBlank (pollPage 1 (page (threadWorld answered)))
                  /\ matchShown "Hi"
                       (pollPage 1 (page (threadWorld answered)))).
  { split.
    - right. exists 1%nat. split; reflexivity.
    - exists "Hi". split; [right; left; reflexivity|].
      split; [discriminate|reflexivity]. }
  assert (Hb' : b' = true).
  { apply Iff. exists 1%nat. split; [lia|exact Shown]. }
  assert (Hk : k' = 1%nat).
  { destruct (First Hb') as [_ Before].
    destruct k' as [|[|k'']]; [lia|reflexivity|].
    exfalso. apply (Before 1%nat); [lia|exact Shown]. }
  rewrite R', E', Hb', Hk. split; reflexivity.
Defined.

(** The verifier confirms a send that nothing on the page shows: no
    composer is there to be empty, or an empty one, and the only message
    is one that was received earlier and begins with the same text. *)
Lemma waitForMessageSent_confirms_on_received_message :
  res (waitForMessageSent "Hi" (threadWorld greeted)) = Ok true
  /\ (forall i,
        @findMessageInputBox ThreadPage (@pollPage ThreadPage i greeted)
        = None)
  /\ (forall i, sentOnes (pollPage (B := ThreadPage) i greeted) = [])
  /\ res (waitForMessageSent "Hi" (threadWorld greetedAtComposer)) = Ok true
  /\ (forall i,
        sentOnes (pollPage (B := ThreadPage) i greetedAtComposer) = []).
Proof.
  assert (Still : forall i p, pollPage (B := ThreadPage) i p = p).
  { induction i as [|i IH]; intros p; [reflexivity|]. cbn [pollPage].
    apply IH. }
  split; [vm_compute; reflexivity|].
  split; [intros i; rewrite Still; reflexivity|].
  split; [intros i; rewrite Still; reflexivity|].
  split; [vm_compute; reflexivity|].
  intros i. rewrite Still. reflexivity.
Qed.

(* ------------------------------------------------------------------ *)
(** ** The send primitive and the verifier *)

Section Primitive.
Context {B : Browser}.

Lemma bind_inv {A C} (m : M A) (f : A -> M C) w c :
  res (bind m f w) = Ok c ->
  exists a, res (m w) = Ok a
            /\ res (f a (st (m w))) = Ok c
            /\ st (bind m f w) = st (f a (st (m w))).
Proof.
  unfold bind, andThen. destruct (res (m w)) as [a|e]; simpl.
  - intros H. exists a. auto.
  - discriminate.
Qed.

Lemma try_catch_inv_some {A} (m : M (option A)) w x :
  res (try_catch m (fun _ => ret None) w) = Ok (Some x) ->
  res (m w) = Ok (Some x) /\ st (try_catch m (fun _ => ret None) w) = st (m w).
Proof.
  unfold try_catch, andThen. destruct (res (m w)) as [a|e] eqn:R; simpl.
  - rewrite R. auto.
  - discriminate.
Qed.

(** The tail shared by methods 1 and 2: submit, verify, stamp. *)
Lemma submit_and_verify_inv el text w :
  res ((pressEnter el ;;
        sent <- waitForMessageSent text ;;
        if sent then stampSend ;; ret (Some true)
        else throw "Send confirmation failed") w) = Ok (Some true) ->
  exists w1,
    res (waitForMessageSent text w1) = Ok true
    /\ st ((pressEnter el ;;
            sent <- waitForMessageSent text ;;
            if sent then stampSend ;; ret (Some true)
            else throw "Send confirmation failed") w)
       = set_lastSendTime (clock (st (waitForMessageSent text w1)))
           (st (waitForMessageSent text w1)).
Proof.
  intros H. apply bind_inv in H. destruct H as [u [_ [H S1]]].
  rewrite S1. apply bind_inv in H. destruct H as [sent [V [H S2]]].
  rewrite S2. exists (st (pressEnter el w)).
  destruct sent; [|discriminate]. split; [assumption|reflexivity].
Qed.

Ltac peel H :=
  let a := fresh "a" in
  let S := fresh "S" in
  apply bind_inv in H; destruct H as [a [_ [H S]]]; rewrite S; clear S.

(** Methods 1 and 2 make [injectAndSendMessage] return [true] only on a
    confirmation by the verifier, and stamp the send at that moment. *)
Lemma injectByClipboard_confirmed el text w :
  res (injectByClipboard el text w) = Ok (Some true) ->
  exists w1,
    res (waitForMessageSent text w1) = Ok true
    /\ st (injectByClipboard el text w)
       = set_lastSendTime (clock (st (waitForMessageSent text w1)))
           (st (waitForMessageSent text w1)).
Proof.
  unfold injectByClipboard. intros H.
  apply try_catch_inv_some in H. destruct H as [H S0]. rewrite S0.
  do 10 peel H.
  match type of H with context [if ?c then _ else _] => destruct c end;
    [|discriminate].
  apply submit_and_verify_inv. assumption.
Qed.

Lemma injectByInsertion_confirmed el text w :
  res (injectByInsertion el text w) = Ok (Some true) ->
  exists w1,
    res (waitForMessageSent text w1) = Ok true
    /\ st (injectByInsertion el text w)
       = set_lastSendTime (clock (st (waitForMessageSent text w1)))
           (st (waitForMessageSent text w1)).
Proof.
  unfold injectByInsertion. intros H.
  apply try_catch_inv_some in H. destruct H as [H S0]. rewrite S0.
  do 8 peel H.
  match type of H with context [if ?c then _ else _] => destruct c end;
    [|discriminate].
  apply submit_and_verify_inv. assumption.
Qed.

End Primitive.

Lemma filter_quiet (ok p : Event -> bool) l :
  (forall e, ok e = true -> p e = false) ->
  forallb ok l = true -> filter p l = [].
Proof.
  intros Sub. induction l as [|e l IH]; [reflexivity|]. simpl.
  intros H. apply andb_prop in H. destruct H as [He Hl].
  rewrite (Sub e He). auto.
Qed.

Lemma inert_never_confirms text polls (p : @Page InertPage) :
  firstConfirmed text polls p = None.
Proof.
  induction polls as [|n IH]; [reflexivity|].
  cbn [firstConfirmed]. unfold confirmedAt, messageFound.
  cbn [messageTexts InertPage existsb]. rewrite andb_false_r.
  change (elapse 200 p) with p. rewrite IH. reflexivity.
Qed.

Lemma ui_level_no_poll e : ui_level e = true -> is_poll e = false.
Proof. revert e. level_sub. Qed.

(** C3 (where the code departs from it): the typing method never calls
    the verifier, on any page: none of its events is a poll.  On a page
    where what is sent does not show in the list, the insertion method
    submits and the verifier polls 15 times in vain; the typing method
    then submits the text a second time, and [injectAndSendMessage]
    returns [true] and stamps the cooldown although no submit was ever
    confirmed.  On a page that ignores all input, where the verifier
    confirms nothing whatever the text and the moment, it returns [true]
    without a single poll, and [sendScheduledMessage] marks the schedule
    sent. *)
Theorem typing_method_skips_verifier :
  (forall (B : Browser) el text (w : World),
      filter is_poll (evs (injectByTyping el text w)) = [])
  /\ (let o := injectAndSendMessage "Hi" (chatWorld laggingConversation []) in
      res o = Ok true
      /\ lastSendTime (st o) = clock (st o)
      /\ List.length (filter is_poll (evs o)) = 15%nat
      /\ messageTexts (page (st o)) = []
      /\ delivered (page (st o)) = ["Hi"; "Hi"])
  /\ (forall text (w : @World InertPage),
         res (waitForMessageSent text w) = Ok false)
  /\ (let o := injectAndSendMessage "Hi" (inertWorld [hiHere]) in
      res o = Ok true
      /\ lastSendTime (inertWorld [hiHere]) = 0%Z
      /\ lastSendTime (st o) = clock (st o)
      /\ messageTexts (page (st o)) = []
      /\ filter is_poll (evs o) = [])
  /\ (let o := sendScheduledMessage hiHere (inertWorld [hiHere]) in
      map sent (schedules (st o)) = [true]
      /\ In (EMessageSent "s2" "09:00" "Hi") (evs o)).
Proof.
  split; [|split; [|split; [|split]]].
  - intros B el text w.
    destruct (Sound_injectByTyping (fun _ _ => True) el text w) as [_ Q].
    apply (filter_quiet _ _ _ ui_level_no_poll Q).
  - vm_compute. repeat split; reflexivity.
  - intros text w. unfold waitForMessageSent.
    rewrite waitForMessageSent_from_run, inert_never_confirms. reflexivity.
  - vm_compute. repeat split; reflexivity.
  - vm_compute. split; [reflexivity|]. tauto.
Qed.

(* ------------------------------------------------------------------ *)
(** ** The target loops *)

Ltac norm := repeat (rewrite bind_assoc || rewrite bind_ret_l
                     || rewrite bind_get).

Section Targets.
Context {B : Browser}.

Lemma sendToContacts_refines messageText rest :
  forall len i success w,
    len = (i + List.length rest)%nat ->
    bind (sendToContacts messageText len i rest success)
         (fun v => ret (truthy v)) w
    = bind (deliverInOrder messageText rest)
           (fun r => ret (truthy success || r)) w.
Proof.
  induction rest as [|name rest' IH]; intros len i success w Len.
  - simpl. norm. rewrite orb_false_r. reflexivity.
  - cbn [sendToContacts deliverInOrder].
    unfold switchConversation, sendIfOpened.
    norm. apply bind_ext. intros opened w1. norm.
    destruct (truthy opened); cbn [negb].
    + unfold injectAndSend. norm. apply bind_ext. intros u w2. norm.
      apply bind_ext. intros sent w3. norm.
      destruct rest' as [|next rest'']; cbn [isNil].
      * replace (i <? len - 1)%nat with false
          by (symmetry; apply Nat.ltb_ge; simpl in Len; lia).
        simpl. norm. rewrite truthy_js_or, orb_false_r. reflexivity.
      * replace (i <? len - 1)%nat with true
          by (symmetry; apply Nat.ltb_lt; simpl in Len; lia).
        unfold interTargetDelay. norm. apply bind_ext. intros u' w4. norm.
        rewrite IH by (simpl in *; lia).
        apply bind_ext. intros others w5. norm.
        rewrite truthy_js_or, orb_assoc. reflexivity.
    + norm. rewrite IH by (simpl in *; lia).
      apply bind_ext. intros others w2. norm. reflexivity.
Qed.

Lemma sendToEach_refines messageText rest :
  forall len i success w,
    len = (i + List.length rest)%nat ->
    bind (sendToEach messageText len i rest success)
         (fun v => ret (truthy v)) w
    = bind (deliverNowInOrder messageText rest)
           (fun r => ret (truthy success || r)) w.
Proof.
  induction rest as [|name rest' IH]; intros len i success w Len.
  - simpl. norm. rewrite orb_false_r. reflexivity.
  - cbn [sendToEach deliverNowInOrder]. unfold switchNow, sendNowIfOpened.
    norm. apply bind_ext. intros opened w1. norm.
    destruct opened; cbn [negb].
    + norm. apply bind_ext. intros u w2. norm.
      apply bind_ext. intros sent w3. norm.
      destruct rest' as [|next rest'']; cbn [isNil].
      * replace (i <? len - 1)%nat with false
          by (symmetry; apply Nat.ltb_ge; simpl in Len; lia).
        simpl. norm. rewrite truthy_js_or, orb_false_r. reflexivity.
      * replace (i <? len - 1)%nat with true
          by (symmetry; apply Nat.ltb_lt; simpl in Len; lia).
        unfold interTargetDelay. norm. apply bind_ext. intros u' w4. norm.
        rewrite IH by (simpl in *; lia).
        apply bind_ext. intros others w5. norm.
        rewrite truthy_js_or, orb_assoc. reflexivity.
    + norm. rewrite IH by (simpl in *; lia).
      apply bind_ext. intros others w2. norm. reflexivity.
Qed.

End Targets.

(** ** The course of a delivery *)

Lemma course_app l1 l2 : course (l1 ++ l2) = course l1 ++ course l2.
Proof.
  induction l1 as [|e l IH]; [reflexivity|].
  destruct e as [[] ?|?| |[] ?|? ? ?|?|? ?|]; simpl; rewrite IH; reflexivity.
Qed.

Lemma course_quiet l : forallb target_level l = true -> course l = [].
Proof.
  induction l as [|e l IH]; [reflexivity|]. simpl.
  intros H. apply andb_prop in H. destruct H as [He Hl].
  destruct e as [[] ?|?| |[] ?|? ? ?|?|? ?|]; simpl in *;
    try discriminate; auto.
Qed.

Section Course.
Context {B : Browser}.

Lemma bind_total {A C} (m : M A) (f : A -> M C) w :
  Total m ->
  exists a, res (m w) = Ok a /\ bind m f w = andThen (m w) (f a).
Proof.
  intros T. destruct (T w) as [a Ha]. exists a. split; [assumption|].
  apply bind_ok. assumption.
Qed.

Lemma Total_openChat_pass name : Total (openChat_pass name).
Proof. apply Total_try_catch. intros e. apply Total_ret. Qed.

Lemma Total_openChat name retries : Total (openChat name retries).
Proof.
  induction retries as [|n IH]; simpl.
  - apply Total_bind; [apply Total_emit | intros; apply Total_ret].
  - apply Total_bind; [apply Total_openChat_pass|].
    intros [| |]; [apply Total_ret | assumption |].
    apply Total_bind; [apply Total_sleep | intros; assumption].
Qed.

Lemma Total_injectAndSendMessage text : Total (injectAndSendMessage text).
Proof. apply Total_try_catch. intros e. apply Total_ret. Qed.


Lemma Total_smartRetry_from operation maxRetries left :
  forall attempt, Total (smartRetry_from operation maxRetries attempt left).
Proof.
  induction left as [|n IH]; intros attempt; simpl; [apply Total_ret|].
  apply Total_bind.
  - apply Total_try_catch. intros e. apply Total_ret.
  - intros [v|]; [apply Total_ret|].
    apply Total_bind; [|intros; apply IH].
    destruct (attempt <? maxRetries)%nat; [apply Total_sleep|apply Total_ret].
Qed.

Lemma Total_smartRetry operation maxRetries :
  Total (smartRetry operation maxRetries).
Proof. apply Total_smartRetry_from. Qed.

(** One pass of the switcher shows in the course as one opening. *)
Lemma openChat_pass_course name w :
  course (evs (openChat_pass name w)) = [Opening name].
Proof.
  unfold openChat_pass, try_catch.
  rewrite (bind_run (updateStatus (MsgOpeningChat name) SWorking)
             _ _ tt _ _ eq_refl).
  destruct (Sound_openChat_attempt (fun _ _ => True) name w) as [_ Q].
  assert (Q' : course (evs (openChat_attempt name w)) = []).
  { apply course_quiet. rewrite forallb_forall in *. intros e He.
    specialize (Q e He). revert Q. clear. revert e. level_sub. }
  destruct (res (openChat_attempt name w)); unfold andThen;
    cbn [res st evs app course]; rewrite ?course_app, Q'; reflexivity.
Qed.

Lemma openChat_course name retries : forall w,
  exists k, (k <= retries)%nat /\ (1 <= retries -> 1 <= k)%nat
            /\ course (evs (openChat name retries w))
               = repeat (Opening name) k.
Proof.
  induction retries as [|n IH]; intros w.
  - exists 0%nat. repeat split; try lia; try reflexivity.
  - cbn [openChat].
    destruct (bind_total (openChat_pass name)
                (fun r => match r with
                          | PassOpened => ret true
                          | PassContinue => openChat name n
                          | PassRetry => sleep AtPace 500 ;; openChat name n
                          end) w (Total_openChat_pass name)) as [r [_ E]].
    rewrite E. unfold andThen. cbn [evs]. rewrite course_app.
    rewrite openChat_pass_course.
    destruct r.
    + exists 1%nat. repeat split; try lia; try reflexivity.
    + destruct (IH (st (openChat_pass name w))) as [k [Le [_ C]]].
      exists (S k). split; [lia|]. split; [lia|]. rewrite C. reflexivity.
    + rewrite (bind_run (sleep AtPace 500) _ _ tt _ _ eq_refl).
      cbn [evs app course].
      destruct (IH (st (sleep AtPace 500 (st (openChat_pass name w)))))
        as [k [Le [_ C]]].
      exists (S k). split; [lia|]. split; [lia|].
      cbn [sleep st] in C. rewrite C. reflexivity.
Qed.

Lemma as_js_course (m : M bool) w :
  course (evs (as_js m w)) = course (evs (m w)).
Proof.
  unfold as_js, bind, andThen. destruct (res (m w)); simpl;
    rewrite ?app_nil_r; reflexivity.
Qed.

(** The switcher under the retry controller: between one and
    [maxRetries] passes on the same conversation. *)
Lemma retried_openChat_course name maxRetries left : forall attempt w,
  exists k, (k <= left)%nat /\ (1 <= left -> 1 <= k)%nat
            /\ course (evs (smartRetry_from (as_js (openChat name 1))
                              maxRetries attempt left w))
               = repeat (Opening name) k.
Proof.
  induction left as [|n IH]; intros attempt w.
  - exists 0%nat. repeat split; try lia; try reflexivity.
  - assert (One : course (evs (as_js (openChat name 1) w))
                  = [Opening name]).
    { rewrite as_js_course.
      destruct (openChat_course name 1 w) as [k [Le [Ge C]]].
      rewrite C. replace k with 1%nat by lia. reflexivity. }
    destruct (attempt_hit_or_miss (as_js (openChat name 1) w))
      as [[v [R T]]|F].
    + rewrite (smartRetry_from_hit _ _ _ _ _ _ R T). cbn [evs].
      exists 1%nat. split; [lia|]. split; [lia|]. assumption.
    + rewrite (smartRetry_from_miss _ _ _ _ _ F). unfold andThen.
      cbn [res st evs]. rewrite course_app, One.
      destruct (attempt <? maxRetries)%nat.
      * rewrite (bind_run (sleep AtBackoff (backoff attempt))
                   _ _ tt _ _ eq_refl).
        cbn [evs app course].
        destruct (IH (S attempt)
                    (st (sleep AtBackoff (backoff attempt)
                           (st (as_js (openChat name 1) w)))))
          as [k [Le [_ C]]].
        exists (S k). split; [lia|]. split; [lia|].
        cbn [sleep st] in C. rewrite C. reflexivity.
      * rewrite bind_ret_l.
        destruct (IH (S attempt) (st (as_js (openChat name 1) w)))
          as [k [Le [_ C]]].
        exists (S k). split; [lia|]. split; [lia|]. rewrite C. reflexivity.
Qed.

End Course.

Section CourseOfDelivery.
Context {B : Browser}.

Lemma ctl_settings (w w' : World) :
  ctl w' = ctl w -> settings w' = settings w.
Proof. unfold ctl. intros [=]. assumption. Qed.

Lemma Sound_switchConversation I {FI : UiFrame I} name :
  Sound I (fun _ => true) (switchConversation name).
Proof.
  unfold switchConversation. sound. apply (Sound_smartRetry I); [auto|].
  apply (Sound_as_js I), (Sound_openChat I). auto.
Qed.

Lemma Sound_injectAndSend I {FI : UiFrame I} text :
  Sound I target_level (injectAndSend text).
Proof.
  unfold injectAndSend. apply (Sound_smartRetry I); [reflexivity|].
  apply (Sound_as_js I), (Sound_injectAndSendMessage I). level_sub.
Qed.

Lemma switchConversation_run name w :
  exists opened k,
    res (switchConversation name w) = Ok opened
    /\ ctl (st (switchConversation name w)) = ctl w
    /\ (1 <= k <= budget w)%nat
    /\ course (evs (switchConversation name w)) = repeat (Opening name) k.
Proof.
  destruct (Sound_switchConversation (fun w w' => ctl w' = ctl w) name w)
    as [Keep _].
  unfold switchConversation in *. rewrite bind_get in *.
  destruct (Total_smartRetry (as_js (openChat name 1)) (budget w) w)
    as [opened R].
  destruct (retried_openChat_course name (budget w) (budget w) 1 w)
    as [k [Le [Ge C]]].
  exists opened, k. repeat split; try assumption.
  apply Ge. unfold budget. destruct (autoRetry (settings w)); lia.
Qed.

Lemma sendIfOpened_run text isLast opened w :
  exists sent,
    res (sendIfOpened text isLast opened w) = Ok sent
    /\ ctl (st (sendIfOpened text isLast opened w)) = ctl w
    /\ course (evs (sendIfOpened text isLast opened w))
       = if truthy opened && negb isLast
         then [Delay (sendDelay (settings w))] else [].
Proof.
  unfold sendIfOpened. destruct (truthy opened); cbn [andb];
    [|exists false; repeat split].
  rewrite (bind_run (sleep AtAfterOpen 300) _ _ tt _ _ eq_refl).
  set (w1 := st (sleep AtAfterOpen 300 w)).
  assert (K1 : ctl w1 = ctl w) by reflexivity.
  cbn [sleep st] in *. fold w1.
  destruct (Sound_injectAndSend (fun w w' => ctl w' = ctl w) text w1)
    as [K2 Q].
  apply course_quiet in Q.
  destruct (Total_smartRetry (as_js (injectAndSendMessage text)) 2 w1)
    as [s R]. fold (injectAndSend text) in R.
  rewrite (bind_ok _ _ _ _ R). unfold andThen.
  set (w2 := st (injectAndSend text w1)) in *.
  assert (S2 : settings w2 = settings w)
    by (rewrite (ctl_settings _ _ K2); apply (ctl_settings _ _ K1)).
  exists (truthy s). destruct isLast; cbn [negb].
  - rewrite bind_ret_l. cbn [res st evs ret app course].
    rewrite app_nil_r, Q. repeat split. congruence.
  - unfold interTargetDelay. rewrite bind_assoc, bind_get.
    rewrite (bind_run (sleep AtInterTarget (sendDelay (settings w2)))
               _ _ tt _ _ eq_refl).
    cbn [res st evs ret app course sleep].
    rewrite course_app, Q, S2. repeat split.
    transitivity (ctl w2); [reflexivity | congruence].
Qed.

Lemma deliverInOrder_course text targets : forall w,
  exists b,
    res (deliverInOrder text targets w) = Ok b
    /\ ctl (st (deliverInOrder text targets w)) = ctl w
    /\ InOrder (budget w) (sendDelay (settings w)) targets
         (course (evs (deliverInOrder text targets w))).
Proof.
  induction targets as [|name rest IH]; intros w.
  - exists false. repeat split. constructor.
  - cbn [deliverInOrder].
    destruct (switchConversation_run name w) as [opened [k [R1 [K1 [Hk C1]]]]].
    rewrite (bind_ok _ _ _ _ R1). unfold andThen.
    set (w1 := st (switchConversation name w)) in *.
    destruct (sendIfOpened_run text (isNil rest) opened w1)
      as [sent [R2 [K2 C2]]].
    rewrite (bind_ok _ _ _ _ R2). unfold andThen.
    set (w2 := st (sendIfOpened text (isNil rest) opened w1)) in *.
    destruct (IH w2) as [others [R3 [K3 C3]]].
    rewrite (bind_ok _ _ _ _ R3). unfold andThen.
    cbn [res st evs ret]. rewrite app_nil_r.
    assert (K : ctl w2 = ctl w) by congruence.
    assert (Sw1 : settings w1 = settings w) by (apply ctl_settings, K1).
    assert (Sw2 : settings w2 = settings w) by (apply ctl_settings, K).
    exists (sent || others). split; [reflexivity|]. split; [congruence|].
    rewrite !course_app, C1, C2.
    unfold budget in C3. rewrite Sw2 in C3. fold (budget w) in C3.
    rewrite Sw1. destruct rest as [|next rest'].
    + inversion C3 as [E| |]. cbn [isNil negb]. rewrite andb_false_r.
      rewrite !app_nil_r. apply InOrder_last. assumption.
    + cbn [isNil negb]. rewrite andb_true_r.
      apply (InOrder_next _ _ name k (truthy opened) next rest' _ Hk C3).
Qed.

End CourseOfDelivery.

Section CourseOfSendNow.
Context {B : Browser}.

Lemma switchNow_run name w :
  exists opened k,
    res (switchNow name w) = Ok opened
    /\ ctl (st (switchNow name w)) = ctl w
    /\ (1 <= k <= budget w)%nat
    /\ course (evs (switchNow name w)) = repeat (Opening name) k.
Proof.
  assert (Keep : Sound (fun w w' => ctl w' = ctl w) (fun _ => true)
                   (switchNow name)).
  { unfold switchNow. sound. apply (Sound_openChat _). auto. }
  destruct (Keep w) as [K _].
  unfold switchNow in *. rewrite bind_get in *.
  destruct (Total_openChat name (budget w) w) as [opened R].
  destruct (openChat_course name (budget w) w) as [k [Le [Ge C]]].
  exists opened, k. repeat split; try assumption.
  apply Ge. unfold budget. destruct (autoRetry (settings w)); lia.
Qed.

Lemma sendNowIfOpened_run text isLast opened w :
  exists sent,
    res (sendNowIfOpened text isLast opened w) = Ok sent
    /\ ctl (st (sendNowIfOpened text isLast opened w)) = ctl w
    /\ course (evs (sendNowIfOpened text isLast opened w))
       = if opened && negb isLast
         then [Delay (sendDelay (settings w))] else [].
Proof.
  unfold sendNowIfOpened. destruct opened; cbn [andb];
    [|exists false; repeat split].
  rewrite (bind_run (sleep AtAfterOpen 250) _ _ tt _ _ eq_refl).
  set (w1 := st (sleep AtAfterOpen 250 w)).
  assert (K1 : ctl w1 = ctl w) by reflexivity.
  cbn [sleep st] in *. fold w1.
  destruct (Sound_injectAndSendMessage (fun w w' => ctl w' = ctl w)
              target_level text ltac:(level_sub) w1) as [K2 Q].
  apply course_quiet in Q.
  destruct (Total_injectAndSendMessage text w1) as [s R].
  rewrite (bind_ok _ _ _ _ R). unfold andThen.
  set (w2 := st (injectAndSendMessage text w1)) in *.
  assert (S2 : settings w2 = settings w)
    by (rewrite (ctl_settings _ _ K2); apply (ctl_settings _ _ K1)).
  exists s. destruct isLast; cbn [negb].
  - rewrite bind_ret_l. cbn [res st evs ret app course].
    rewrite app_nil_r, Q. repeat split. congruence.
  - unfold interTargetDelay. rewrite bind_assoc, bind_get.
    rewrite (bind_run (sleep AtInterTarget (sendDelay (settings w2)))
               _ _ tt _ _ eq_refl).
    cbn [res st evs ret app course sleep].
    rewrite course_app, Q, S2. repeat split.
    transitivity (ctl w2); [reflexivity | congruence].
Qed.

Lemma deliverNowInOrder_course text targets : forall w,
  exists b,
    res (deliverNowInOrder text targets w) = Ok b
    /\ ctl (st (deliverNowInOrder text targets w)) = ctl w
    /\ InOrder (budget w) (sendDelay (settings w)) targets
         (course (evs (deliverNowInOrder text targets w))).
Proof.
  induction targets as [|name rest IH]; intros w.
  - exists false. repeat split. constructor.
  - cbn [deliverNowInOrder].
    destruct (switchNow_run name w) as [opened [k [R1 [K1 [Hk C1]]]]].
    rewrite (bind_ok _ _ _ _ R1). unfold andThen.
    set (w1 := st (switchNow name w)) in *.
    destruct (sendNowIfOpened_run text (isNil rest) opened w1)
      as [sent [R2 [K2 C2]]].
    rewrite (bind_ok _ _ _ _ R2). unfold andThen.
    set (w2 := st (sendNowIfOpened text (isNil rest) opened w1)) in *.
    destruct (IH w2) as [others [R3 [K3 C3]]].
    rewrite (bind_ok _ _ _ _ R3). unfold andThen.
    cbn [res st evs ret]. rewrite app_nil_r.
    assert (K : ctl w2 = ctl w) by congruence.
    assert (Sw1 : settings w1 = settings w) by (apply ctl_settings, K1).
    assert (Sw2 : settings w2 = settings w) by (apply ctl_settings, K).
    exists (sent || others). split; [reflexivity|]. split; [congruence|].
    rewrite !course_app, C1, C2.
    unfold budget in C3. rewrite Sw2 in C3. fold (budget w) in C3.
    rewrite Sw1. destruct rest as [|next rest'].
    + inversion C3 as [E| |]. cbn [isNil negb]. rewrite andb_false_r.
      rewrite !app_nil_r. apply InOrder_last. assumption.
    + cbn [isNil negb]. rewrite andb_true_r.
      apply (InOrder_next _ _ name k opened next rest' _ Hk C3).
Qed.

Lemma bind_ret_evs {A C} (m : M A) (g : A -> C) w :
  evs (bind m (fun a => ret (g a)) w) = evs (m w).
Proof.
  unfold bind, andThen. destruct (res (m w)); simpl;
    rewrite ?app_nil_r; reflexivity.
Qed.

(** C7 (as amended): the target loop of [sendScheduledMessage], and that
    of [sendToTargets], is the delivery in listed order: each target's
    conversation is switched to in turn, the message is injected and sent
    where the conversation opened, and the answer is the disjunction of
    the per-target results.  In the events, the switcher's passes come
    target by target in the listed order, at least one per target; a delay
    of [sendDelay] ms can only stand between the passes of one target and
    those of the next (it is there when the first of the two opened, and
    is skipped with it otherwise), and nothing follows the last target. *)
Theorem targets_taken_in_order (messageText : string)
  (contacts : list string) (w : World) :
  (as_bool (sendToContacts messageText (List.length contacts) 0 contacts
              (JBool false)) w
   = deliverInOrder messageText contacts w
   /\ InOrder (budget w) (sendDelay (settings w)) contacts
        (course (evs (sendToContacts messageText (List.length contacts) 0
                        contacts (JBool false) w))))
  /\ (as_bool (sendToEach messageText (List.length contacts) 0 contacts
                 (JBool false)) w
      = deliverNowInOrder messageText contacts w
      /\ InOrder (budget w) (sendDelay (settings w)) contacts
           (course (evs (sendToEach messageText (List.length contacts) 0
                           contacts (JBool false) w)))).
Proof.
  pose proof (sendToContacts_refines messageText contacts
                (List.length contacts) 0 (JBool false) w eq_refl) as E1.
  pose proof (sendToEach_refines messageText contacts
                (List.length contacts) 0 (JBool false) w eq_refl) as E2.
  cbn [truthy orb] in E1, E2. rewrite bind_ret_r in E1, E2.
  split; (split; [assumption|]).
  - rewrite <- (bind_ret_evs _ truthy), E1.
    destruct (deliverInOrder_course messageText contacts w)
      as [b [_ [_ C]]]. assumption.
  - rewrite <- (bind_ret_evs _ truthy), E2.
    destruct (deliverNowInOrder_course messageText contacts w)
      as [b [_ [_ C]]]. assumption.
Qed.

End CourseOfSendNow.

(** C7 as stated fails: Alice cannot be found and is skipped, Bob's chat
    opens and the message is sent there; no delay stands between the two
    targets, where a delivery with a delay between every two consecutive
    targets has one. *)
Lemma skipped_target_is_not_followed_by_delay :
  let w := chatWorld onlyBob [pingAliceBob] in
  let o := sendScheduledMessage pingAliceBob w in
  namedContacts (contactList pingAliceBob) = ["Alice"; "Bob"]
  /\ course (evs o)
     = [Opening "Alice"; Opening "Alice"; Opening "Alice"; Opening "Bob"]
  /\ interTargetDelays (evs o) = []
  /\ outgoing (page (st o)) = ["Ping"]
  /\ course (evs (deliverWithDelayBetweenAll "Ping" ["Alice"; "Bob"]
                    (set_isSending true w)))
     = [Opening "Alice"; Opening "Alice"; Opening "Alice"; Delay 3000;
        Opening "Bob"].
Proof. vm_compute. repeat split. Qed.

(** With both conversations to be found the delay is there. *)
Example both_targets_opened :
  let o := sendScheduledMessage pingAliceBob
             (chatWorld aliceAndBob [pingAliceBob]) in
  course (evs o) = [Opening "Alice"; Delay 3000; Opening "Bob"].
Proof. vm_compute. reflexivity. Qed.

(* ------------------------------------------------------------------ *)
(** ** One delivery as a whole *)

Lemma send_level_no_tick_mark e : send_level e = true -> is_tick_mark e = false.
Proof. revert e. level_sub. Qed.

Lemma settleDelays_app l1 l2 :
  settleDelays (l1 ++ l2) = settleDelays l1 ++ settleDelays l2.
Proof.
  induction l1 as [|e l IH]; [reflexivity|].
  destruct e as [[] ?|?| |[] ?|? ? ?|?|? ?|]; simpl; rewrite IH; reflexivity.
Qed.

Lemma settleDelays_quiet l : forallb send_level l = true -> settleDelays l = [].
Proof.
  induction l as [|e l IH]; [reflexivity|]. simpl.
  intros H. apply andb_prop in H. destruct H as [He Hl].
  destruct e as [[] ?|?| |[] ?|? ? ?|?|? ?|]; simpl in *;
    try discriminate; auto.
Qed.

Section Delivery.
Context {B : Browser}.

Lemma Sound_sendToContacts I {FI : UiFrame I} text rest :
  forall len i success,
    Sound I send_level (sendToContacts text len i rest success).
Proof.
  induction rest as [|name rest' IH]; intros len i success;
    cbn [sendToContacts]; sound.
  - apply (Sound_smartRetry I); [reflexivity|].
    apply (Sound_as_js I), (Sound_openChat I). level_sub.
  - apply (Sound_smartRetry I); [reflexivity|].
    apply (Sound_as_js I), (Sound_injectAndSendMessage I). level_sub.
Qed.

Lemma Sound_sendToEach I {FI : UiFrame I} text rest :
  forall len i success,
    Sound I send_level (sendToEach text len i rest success).
Proof.
  induction rest as [|name rest' IH]; intros len i success;
    cbn [sendToEach]; sound.
  - apply (Sound_openChat I). level_sub.
  - apply (Sound_injectAndSendMessage I). level_sub.
Qed.

Lemma Sound_sendScheduledMessage schedule :
  Sound (fun _ _ => True) send_level (sendScheduledMessage schedule).
Proof.
  unfold sendScheduledMessage, sendScheduledMessage_try, concludeSchedule,
    markScheduleSent, getClipboardText, handlePostSendAction.
  cbv zeta. sound.
  - apply (Sound_smartRetry _); [reflexivity|].
    apply (Sound_as_js _), (Sound_injectAndSendMessage _). level_sub.
  - apply (Sound_sendToContacts _).
Qed.

Lemma Total_sendScheduledMessage schedule :
  Total (sendScheduledMessage schedule).
Proof.
  unfold sendScheduledMessage. apply Total_bind; [apply Total_get|].
  intros w. destruct (isSending w); [apply Total_ret|].
  apply Total_bind; [apply Total_modify|]. intros _.
  apply Total_finally; [|apply Total_modify].
  apply Total_try_catch. intros e. apply Total_ret.
Qed.


(** Nor does any step of the [try] block of [sendScheduledMessage]: its
    [catch] is never entered. *)
Lemma sendScheduledMessage_try_total schedule :
  Total (sendScheduledMessage_try schedule).
Proof.
  assert (Each : forall text rest len i success,
             Total (sendToContacts text len i rest success)).
  { intros text. induction rest as [|name rest' IH]; intros len i success;
      cbn [sendToContacts]; [apply Total_ret|].
    apply Total_bind; [apply Total_get|]. intros w.
    apply Total_bind; [apply Total_smartRetry|]. intros opened.
    destruct (negb (truthy opened)); [apply IH|].
    apply Total_bind; [apply Total_sleep|]. intros _.
    apply Total_bind; [apply Total_smartRetry|]. intros sent.
    apply Total_bind; [apply Total_get|]. intros w'.
    apply Total_bind; [|intros; apply IH].
    destruct (i <? len - 1)%nat; [apply Total_sleep|apply Total_ret]. }
  unfold sendScheduledMessage_try. apply Total_bind.
  - destruct (field_falsy (message schedule) && useClipboard schedule);
      [|apply Total_ret].
    apply Total_bind; [|intros; apply Total_ret].
    apply Total_bind; [apply Total_emit|]. intros _.
    apply Total_try_catch. intros e. apply Total_ret.
  - intros [text|]; [|apply Total_ret].
    destruct (str_falsy text); [apply Total_ret|]. cbv zeta.
    apply Total_bind.
    + destruct (namedContacts (contactList schedule));
        [apply Total_smartRetry|apply Each].
    + intros success. apply Total_bind; [|intros; apply Total_ret].
      unfold concludeSchedule. destruct (truthy success);
        [|apply Total_emit].
      apply Total_bind.
      * unfold markScheduleSent.
        apply Total_bind; [apply Total_emit|]. intros _.
        apply Total_bind; [apply Total_get|]. intros w.
        destruct (contextValid w); [|apply Total_ret].
        apply Total_bind; [apply Total_modify|intros; apply Total_ret].
      * intros _. apply Total_bind; [apply Total_emit|]. intros _.
        apply Total_bind; [apply Total_emit|]. intros _.
        apply Total_try_catch. intros e. apply Total_ret.
Qed.

End Delivery.

(* ------------------------------------------------------------------ *)
(** ** The send-in-progress flag *)

Section Flag.
Context {B : Browser}.

#[local] Instance flagFrame :
  UiFrame (fun w w' => isSending w' = isSending w).
Proof.
  split; try reflexivity.
  intros w1 w2 w3 H1 H2. congruence.
Qed.

(** Nothing in the [try] block of a delivery touches the flag. *)
Lemma sendScheduledMessage_try_keeps_flag schedule w :
  isSending (st (sendScheduledMessage_try schedule w)) = isSending w.
Proof.
  assert (S : Sound (fun w w' => isSending w' = isSending w) send_level
                (sendScheduledMessage_try schedule)).
  { unfold sendScheduledMessage_try, concludeSchedule, markScheduleSent,
      getClipboardText, handlePostSendAction.
    cbv zeta. sound.
    - apply (Sound_smartRetry _); [reflexivity|].
      apply (Sound_as_js _), (Sound_injectAndSendMessage _). level_sub.
    - apply (Sound_sendToContacts _). }
  apply S.
Qed.

Lemma sendToTargets_try_keeps_flag text contacts w :
  isSending (st (sendToTargets_try text contacts w)) = isSending w.
Proof.
  assert (S : Sound (fun w w' => isSending w' = isSending w) send_level
                (sendToTargets_try text contacts)).
  { unfold sendToTargets_try, as_js, handlePostSendAction.
    cbv zeta. sound.
    - apply (Sound_injectAndSendMessage _). level_sub.
    - apply (Sound_sendToEach _). }
  apply S.
Qed.

(** C1 (as amended): a call of [sendScheduledMessage] or [sendToTargets]
    made while the send-in-progress flag is set is rejected at once: the
    world is left exactly as it was (the flag stays set, the page and the
    store are untouched) and no event is emitted, so nothing is mutated,
    stored or queued.  [sendToTargets] answers [false];
    [sendScheduledMessage] answers [undefined], as on all its paths.  A
    call that is accepted sets the flag, runs its [try] block, which
    leaves the flag alone, and clears the flag at its end. *)
Theorem send_rejected_while_sending
  (schedule : Schedule) (messageText : string) (contacts : list string)
  (w : World) :
  (isSending w = true ->
   sendScheduledMessage schedule w
     = {| res := Ok JUndefined; st := w; evs := [] |}
   /\ sendToTargets messageText contacts w
     = {| res := Ok (JBool false); st := w; evs := [] |})
  /\ isSending (st (sendScheduledMessage_try schedule w)) = isSending w
  /\ isSending (st (sendToTargets_try messageText contacts w)) = isSending w
  /\ (isSending w = false ->
      evs (sendScheduledMessage schedule w)
        = evs (sendScheduledMessage_try schedule (set_isSending true w))
      /\ isSending (st (sendScheduledMessage schedule w)) = false
      /\ isSending (st (sendToTargets messageText contacts w)) = false).
Proof.
  split; [|split; [|split]].
  - intros Busy. unfold sendScheduledMessage, sendToTargets.
    rewrite !bind_get, Busy. split; reflexivity.
  - apply sendScheduledMessage_try_keeps_flag.
  - apply sendToTargets_try_keeps_flag.
  - intros Idle. unfold sendScheduledMessage, sendToTargets.
    rewrite !bind_get, Idle.
    rewrite !(bind_run (modify (set_isSending true)) _ _ tt _ _ eq_refl).
    unfold finally, try_catch, andThen. cbn [res st evs modify app].
    repeat split.
    + destruct (res (sendScheduledMessage_try schedule
                       (set_isSending true w)));
        cbn [res st evs ret]; rewrite ?app_nil_r; reflexivity.
Qed.

End Flag.

Lemma send_rejected_while_sending_witness :
  isSending busyWorld = true
  /\ sendScheduledMessage hiHere busyWorld
     = {| res := Ok JUndefined; st := busyWorld; evs := [] |}
  /\ sendToTargets "Hi" ["Bob"] busyWorld
     = {| res := Ok (JBool false); st := busyWorld; evs := [] |}.
Proof.
  split; [reflexivity|].
  apply (proj1 (send_rejected_while_sending hiHere "Hi" ["Bob"] busyWorld)).
  reflexivity.
Defined.

(** C1 as stated fails for [sendScheduledMessage]: rejected while a
    delivery is in flight, it completes with [undefined], not [false]. *)
Lemma sendScheduledMessage_busy_not_false :
  isSending busyWorld = true
  /\ res (sendScheduledMessage hiHere busyWorld) = Ok JUndefined
  /\ res (sendScheduledMessage hiHere busyWorld) <> Ok (JBool false).
Proof.
  split; [reflexivity|]. split; [reflexivity|]. discriminate.
Qed.

(* ------------------------------------------------------------------ *)
(** ** The tick *)

Section Tick.
Context {B : Browser}.

Lemma Total_processOneWith deliver count schedule :
  Total (processOneWith deliver count schedule).
Proof. apply Total_try_catch. intros e. apply Total_emit. Qed.

Lemma processPendingWith_total deliver count pending :
  forall w, res (processPendingWith deliver count pending w) = Ok tt.
Proof.
  induction pending as [|s rest IH]; intros w; [reflexivity|].
  cbn [processPendingWith].
  destruct (Total_processOneWith deliver count s w) as [u R].
  rewrite (bind_ok _ _ _ _ R). apply IH.
Qed.

(** A schedule whose delivery throws. *)
Lemma processOneWith_throw deliver count schedule m e w :
  message schedule = Some m ->
  res (deliver schedule w) = Throw e ->
  processOneWith deliver count schedule w
  = {| res := Ok tt; st := st (deliver schedule w);
       evs := EStatus (MsgSendingOne (substring 0 30 m)) SWorking
              :: evs (deliver schedule w)
              ++ [EStatus (MsgFailedToSend e) SError] |}.
Proof.
  intros Msg Thrown. unfold processOneWith, try_catch. rewrite Msg.
  rewrite bind_ret_l.
  rewrite (bind_run (updateStatus _ SWorking) _ _ tt _ _ eq_refl).
  rewrite (bind_throw _ _ _ _ Thrown). reflexivity.
Qed.

(** A schedule without a message field. *)
Lemma processOneWith_no_message deliver count schedule w :
  message schedule = None ->
  processOneWith deliver count schedule w
  = {| res := Ok tt; st := w; evs := [tick_mark schedule] |}.
Proof.
  intros Msg. unfold processOneWith, try_catch, tick_mark. rewrite Msg.
  reflexivity.
Qed.

(** A schedule that [sendScheduledMessage] is called for. *)
Lemma processOne_run count schedule m w :
  message schedule = Some m ->
  processOne count schedule w
  = andThen
      {| res := Ok tt; st := st (sendScheduledMessage schedule w);
         evs := tick_mark schedule :: evs (sendScheduledMessage schedule w) |}
      (if (1 <? count)%nat then sleep AtSettle 3000 else ret tt).
Proof.
  intros Msg. unfold processOne, processOneWith, try_catch, tick_mark.
  rewrite Msg. rewrite bind_ret_l.
  rewrite (bind_run (updateStatus _ SWorking) _ _ tt _ _ eq_refl).
  destruct (Total_sendScheduledMessage schedule w) as [v R].
  rewrite (bind_ok _ _ _ _ R). unfold andThen. cbn [res st evs].
  destruct (1 <? count)%nat; reflexivity.
Qed.

Lemma processPending_marks count pending : forall w,
  filter is_tick_mark (evs (processPending count pending w))
  = map tick_mark pending.
Proof.
  induction pending as [|s rest IH]; intros w; [reflexivity|].
  unfold processPending in *. cbn [processPendingWith map].
  destruct (Total_processOneWith sendScheduledMessage count s w) as [u R].
  rewrite (bind_ok _ _ _ _ R). unfold andThen. cbn [evs].
  rewrite filter_app, IH.
  enough (One : filter is_tick_mark
                  (evs (processOneWith sendScheduledMessage count s w))
                = [tick_mark s]) by (rewrite One; reflexivity).
  destruct (message s) as [m|] eqn:Msg.
  - fold (processOne count s w). rewrite (processOne_run _ _ _ _ Msg).
    unfold andThen. cbn [res st evs].
    destruct (Sound_sendScheduledMessage s w) as [_ Q].
    change (tick_mark s :: evs (sendScheduledMessage s w))
      with ([tick_mark s] ++ evs (sendScheduledMessage s w)).
    rewrite !filter_app, (filter_quiet _ _ _ send_level_no_tick_mark Q).
    unfold tick_mark. rewrite Msg.
    destruct (1 <? count)%nat; reflexivity.
  - rewrite (processOneWith_no_message _ _ _ _ Msg).
    unfold tick_mark. rewrite Msg. reflexivity.
Qed.

Lemma checkSchedules_total w : res (checkSchedules w) = Ok tt.
Proof.
  assert (T : Total checkSchedules).
  { unfold checkSchedules. apply Total_bind; [apply Total_get|].
    intros w0. destruct (isCheckingSchedules w0); [apply Total_ret|].
    apply Total_bind; [apply Total_modify|]. intros _.
    apply Total_finally; [|apply Total_modify].
    apply Total_try_catch. intros e.
    destruct (includes e "Extension context invalidated");
      [|apply Total_emit].
    apply Total_bind; [|intros; apply Total_emit].
    unfold stop. apply Total_bind; [apply Total_get|]. intros w1.
    destruct (negb (isRunning w1)); [apply Total_ret|].
    apply Total_bind; [apply Total_modify|intros; apply Total_emit]. }
  destruct (T w) as [[] R]. assumption.
Qed.

(** C8: whatever the delivery of a schedule throws, the loop over the
    due schedules of a tick catches it, reports it with an error status
    carrying the message of the error, and goes on with the schedules
    that remain; nothing is thrown out of the loop or out of the tick.
    With [sendScheduledMessage] as the delivery, every due schedule in
    turn leaves its own mark in the events: the announcement of its
    delivery, or the report of its failure; and no error stays inside
    the delivery, whose own [try] block never throws. *)
Theorem tick_survives_failures (deliver : Schedule -> M JsVal) (count : nat) :
  (forall pending w,
      res (processPendingWith deliver count pending w) = Ok tt)
  /\ (forall schedule rest m e w,
         message schedule = Some m ->
         res (deliver schedule w) = Throw e ->
         processPendingWith deliver count (schedule :: rest) w
         = andThen
             {| res := Ok tt; st := st (deliver schedule w);
                evs := EStatus (MsgSendingOne (substring 0 30 m)) SWorking
                       :: evs (deliver schedule w)
                       ++ [EStatus (MsgFailedToSend e) SError] |}
             (processPendingWith deliver count rest))
  /\ (forall pending w,
         filter is_tick_mark (evs (processPending count pending w))
         = map tick_mark pending)
  /\ (forall schedule w,
         exists v, res (sendScheduledMessage_try schedule w) = Ok v)
  /\ (forall w, res (checkSchedules w) = Ok tt).
Proof.
  split; [|split; [|split; [|split]]].
  - apply processPendingWith_total.
  - intros schedule rest m e w Msg Thrown. cbn [processPendingWith].
    rewrite (bind_run _ _ _ _ _ _
               (processOneWith_throw deliver count _ _ _ _ Msg Thrown)).
    reflexivity.
  - apply processPending_marks.
  - intros schedule w. apply sendScheduledMessage_try_total.
  - apply checkSchedules_total.
Qed.

(** ** The settle delay *)

Lemma processOne_settles count s w :
  settleDelays (evs (processOneWith sendScheduledMessage count s w))
  = if (1 <? count)%nat && hasMessage s then [3000%Z] else [].
Proof.
  unfold hasMessage. destruct (message s) as [m|] eqn:Msg.
  - fold (processOne count s w). rewrite (processOne_run _ _ _ _ Msg).
    unfold andThen. cbn [res st evs].
    destruct (Sound_sendScheduledMessage s w) as [_ Q].
    change (tick_mark s :: evs (sendScheduledMessage s w))
      with ([tick_mark s] ++ evs (sendScheduledMessage s w)).
    rewrite !settleDelays_app, (settleDelays_quiet _ Q).
    unfold tick_mark. rewrite Msg.
    destruct (1 <? count)%nat; reflexivity.
  - rewrite (processOneWith_no_message _ _ _ _ Msg).
    unfold tick_mark. rewrite Msg.
    destruct (1 <? count)%nat; reflexivity.
Qed.

Lemma processPending_settles count pending : forall w,
  settleDelays (evs (processPending count pending w))
  = if (1 <? count)%nat
    then repeat 3000%Z (List.length (filter hasMessage pending))
    else [].
Proof.
  induction pending as [|s rest IH]; intros w.
  - destruct (1 <? count)%nat; reflexivity.
  - unfold processPending in *. cbn [processPendingWith filter].
    destruct (Total_processOneWith sendScheduledMessage count s w) as [u R].
    rewrite (bind_ok _ _ _ _ R). unfold andThen. cbn [evs].
    rewrite settleDelays_app, IH, processOne_settles.
    destruct (1 <? count)%nat; destruct (hasMessage s); reflexivity.
Qed.

End Tick.

Lemma tick_survives_failures_witness :
  let w := chatWorld inConversation [hiHere; helloHere] in
  message hiHere = Some "Hi"
  /\ res (alwaysThrows hiHere w) = Throw "boom"
  /\ evs (processPendingWith alwaysThrows 2 [hiHere; helloHere] w)
     = [EStatus (MsgSendingOne "Hi") SWorking;
        EStatus (MsgFailedToSend "boom") SError;
        EStatus (MsgSendingOne "Hello") SWorking;
        EStatus (MsgFailedToSend "boom") SError].
Proof.
  intros w. split; [reflexivity|]. split; [reflexivity|].
  rewrite (proj1 (proj2 (tick_survives_failures alwaysThrows 2))
             hiHere [helloHere] "Hi" "boom" w eq_refl eq_refl).
  reflexivity.
Defined.

(** C9 (where the code departs from it): when more than one schedule is
    due, the settle delay of 3000 ms follows every delivery of the tick,
    the last one included: there are as many settle delays as deliveries.
    With two schedules due in the same minute the tick ends on the
    second of two settle delays. *)
Theorem settle_delay_follows_every_delivery :
  (forall (B : Browser) count pending (w : World),
      settleDelays (evs (processPending count pending w))
      = if (1 <? count)%nat
        then repeat 3000%Z (List.length (filter hasMessage pending))
        else [])
  /\ (let o := checkSchedules (chatWorld inConversation [hiHere; helloHere]) in
      settleDelays (evs o) = [3000; 3000]%Z
      /\ outgoing (page (st o)) = ["Hi"; "Hello"]
      /\ last (evs o) EStopped = ESleep AtSettle 3000).
Proof.
  split.
  - intros B count pending w. apply processPending_settles.
  - vm_compute. repeat split.
Qed.

(* ------------------------------------------------------------------ *)
(** ** Success of a delivery to several targets *)

Section PartialSuccess.
Context {B : Browser}.







(** The [try] block of a delivery once its text is resolved. *)
Lemma sendScheduledMessage_try_resolved schedule text w :
  resolvedText schedule (page w) = Some text ->
  sendScheduledMessage_try schedule w
  = andThen {| res := Ok tt; st := w; evs := resolutionEvents schedule |}
      (success <-
         match namedContacts (contactList schedule) with
         | _ :: _ =>
             sendToContacts text
               (List.length (namedContacts (contactList schedule))) 0
               (namedContacts (contactList schedule)) (JBool false)
         | [] => smartRetry (as_js (injectAndSendMessage text)) 2
         end ;;
       concludeSchedule schedule text success ;;
       ret JUndefined).
Proof.
  unfold resolvedText, sendScheduledMessage_try, resolutionEvents. cbv zeta.
  destruct (field_falsy (message schedule)) eqn:Falsy; cbn [andb].
  - destruct (useClipboard schedule); [|discriminate].
    destruct (clipboardText (page w)) as [t|e] eqn:Clip; [|discriminate].
    destruct (str_falsy t) eqn:F; [discriminate|]. intros [= <-].
    assert (G : getClipboardText w
                = {| res := Ok t; st := w; evs := [EClipboardRead] |}).
    { unfold getClipboardText, bind, try_catch, read, emit, andThen. simpl.
      rewrite Clip. reflexivity. }
    rewrite bind_assoc, (bind_run _ _ _ _ _ _ G), bind_ret_l, F.
    reflexivity.
  - destruct (message schedule) as [m|]; [|discriminate].
    destruct (str_falsy m) eqn:F; [discriminate|]. intros [= <-].
    rewrite bind_ret_l, F. unfold andThen.
    cbn [res st evs app]. symmetry. apply outcome_eta.
Qed.


End PartialSuccess.



(* ------------------------------------------------------------------ *)
(** ** The time of day and the countdown *)

Ltac digit_cases x :=
  let H := fresh in
  assert (H : (x = 0 \/ x = 1 \/ x = 2 \/ x = 3 \/ x = 4 \/ x = 5 \/ x = 6
               \/ x = 7 \/ x = 8 \/ x = 9)%Z) by lia;
  repeat (destruct H as [H|H]; [subst x|]); [ .. | subst x].

Lemma digitOf_digit x : (0 <= x < 10)%Z -> digitOf (digit x) = Some x.
Proof. intros R. digit_cases x; reflexivity. Qed.

Lemma digit_not_colon x : (0 <= x < 10)%Z -> Ascii.eqb (digit x) ":" = false.
Proof. intros R. digit_cases x; reflexivity. Qed.

Lemma digit_inj x y :
  (0 <= x < 10)%Z -> (0 <= y < 10)%Z -> digit x = digit y -> x = y.
Proof.
  intros Rx Ry E.
  assert (F : digitOf (digit x) = digitOf (digit y)) by (rewrite E; reflexivity).
  rewrite !digitOf_digit in F by assumption. congruence.
Qed.

Lemma toNumber_pad2 n : (0 <= n < 100)%Z -> toNumber (pad2 n) = Some n.
Proof.
  intros R. unfold toNumber, pad2. cbn [digitsValue].
  repeat (rewrite digitOf_digit by (Z.div_mod_to_equations; lia);
          cbn [digitsValue]).
  f_equal. Z.div_mod_to_equations. lia.
Qed.

Lemma pad2_inj a b :
  (0 <= a < 100)%Z -> (0 <= b < 100)%Z -> pad2 a = pad2 b -> a = b.
Proof.
  intros Ra Rb E.
  assert (F : toNumber (pad2 a) = toNumber (pad2 b)) by (rewrite E; reflexivity).
  rewrite !toNumber_pad2 in F by assumption. congruence.
Qed.

(** The text of a time of day. *)
Lemma timeText_parts h m :
  (0 <= h < 100)%Z -> (0 <= m < 100)%Z ->
  map toNumber (split ":" (pad2 h ++ ":" ++ pad2 m)) = [Some h; Some m].
Proof.
  intros Rh Rm.
  assert (S : split ":" (pad2 h ++ ":" ++ pad2 m) = [pad2 h; pad2 m]).
  { unfold pad2. cbn [append split].
    rewrite !digit_not_colon by (Z.div_mod_to_equations; lia).
    reflexivity. }
  rewrite S. cbn [map]. rewrite !toNumber_pad2 by assumption. reflexivity.
Qed.

Lemma timeText_inj h1 m1 h2 m2 :
  (0 <= h1 < 100)%Z -> (0 <= m1 < 100)%Z ->
  (0 <= h2 < 100)%Z -> (0 <= m2 < 100)%Z ->
  (pad2 h1 ++ ":" ++ pad2 m1 = pad2 h2 ++ ":" ++ pad2 m2)%string ->
  h1 = h2 /\ m1 = m2.
Proof.
  intros R1 R2 R3 R4 E.
  assert (F : map toNumber (split ":" (pad2 h1 ++ ":" ++ pad2 m1))
              = map toNumber (split ":" (pad2 h2 ++ ":" ++ pad2 m2)))
    by (rewrite E; reflexivity).
  rewrite !timeText_parts in F by assumption.
  injection F. auto.
Qed.

Lemma minute_of_day t :
  ((t / 60000) mod 1440
   = 60 * ((t / 3600000) mod 24) + (t / 60000) mod 60)%Z.
Proof. Z.div_mod_to_equations. lia. Qed.

Lemma getCurrentTimeString_eq t1 t2 :
  getCurrentTimeString t1 = getCurrentTimeString t2
  <-> ((t1 / 60000) mod 1440 = (t2 / 60000) mod 1440)%Z.
Proof.
  unfold getCurrentTimeString. rewrite !minute_of_day. split.
  - intros E. apply timeText_inj in E; Z.div_mod_to_equations; lia.
  - intros E.
    assert (H : ((t1 / 3600000) mod 24 = (t2 / 3600000) mod 24
                 /\ (t1 / 60000) mod 60 = (t2 / 60000) mod 60)%Z)
      by (Z.div_mod_to_equations; lia).
    destruct H as [-> ->]. reflexivity.
Qed.

(** X1: two instants give the same [getCurrentTimeString] exactly when
    they lie in the same minute of the day; so a schedule whose time is
    the text of hour [h] and minute [m] is due, by [shouldSendMessage],
    exactly while it is unsent, the page shows no disconnect banner and
    the clock is in minute [60 h + m] of the day: during one minute a
    day, whatever the seconds. *)
Theorem due_during_one_minute_a_day {B : Browser} :
  (forall t1 t2,
      getCurrentTimeString t1 = getCurrentTimeString t2
      <-> ((t1 / 60000) mod 1440 = (t2 / 60000) mod 1440)%Z)
  /\ (forall (p : Page) schedule h m t,
         (0 <= h < 24)%Z -> (0 <= m < 60)%Z ->
         time schedule = (pad2 h ++ ":" ++ pad2 m)%string ->
         (shouldSendMessage p schedule (getCurrentTimeString t) = true
          <-> sent schedule = false
              /\ disconnectedBanner p = false
              /\ ((t / 60000) mod 1440 = 60 * h + m)%Z)).
Proof.
  split; [apply getCurrentTimeString_eq|].
  intros p schedule h m t Rh Rm Tm.
  unfold shouldSendMessage, isWhatsAppConnected. rewrite Tm.
  rewrite minute_of_day.
  destruct (sent schedule); [intuition discriminate|].
  destruct (String.eqb_spec (pad2 h ++ ":" ++ pad2 m)
              (getCurrentTimeString t)) as [E|N]; cbn [negb].
  - unfold getCurrentTimeString in E.
    assert (H : (h = (t / 3600000) mod 24 /\ m = (t / 60000) mod 60)%Z)
      by (apply timeText_inj in E; Z.div_mod_to_equations; lia).
    destruct H as [-> ->].
    destruct (disconnectedBanner p); cbn [negb]; intuition discriminate.
  - split; [discriminate|]. intros [_ [_ E]]. exfalso. apply N.
    unfold getCurrentTimeString.
    assert (H : (h = (t / 3600000) mod 24 /\ m = (t / 60000) mod 60)%Z)
      by (Z.div_mod_to_equations; lia).
    destruct H as [<- <-]. reflexivity.
Qed.

Lemma getTimeUntilNext_timeText now h m :
  (0 <= h < 100)%Z -> (0 <= m < 100)%Z ->
  getTimeUntilNext now (pad2 h ++ ":" ++ pad2 m)
  = Some
      (let target :=
         (now / 86400000 * 86400000 + h * 3600000 + m * 60000)%Z in
       let target :=
         if (target <=? now)%Z then (target + 86400000)%Z else target in
       let diffMinutes := ((target - now) / 60000)%Z in
       let diffHours := (diffMinutes / 60)%Z in
       if (diffMinutes <? 1)%Z then AnyMoment
       else if (diffMinutes <? 60)%Z then InMinutes diffMinutes
       else if (diffHours <? 24)%Z
            then InHours diffHours (Z.rem diffMinutes 60)
       else InDays (diffHours / 24) (Z.rem diffHours 24)).
Proof.
  intros Rh Rm. unfold getTimeUntilNext.
  rewrite timeText_parts by assumption. reflexivity.
Qed.

(** X2: for a target time of hour [h] and minute [m],
    [getTimeUntilNext] counts down to the next instant, strictly after
    now and at most one day ahead, at which the clock shows that time.
    The text speaks of the whole minutes left: 'any moment now' exactly
    when less than a minute is left, minutes alone from 1 to 59, hours
    from 1 to 23 with minutes from 0 to 59, and days only as one day and
    no hours, which happens when the target is exactly one day ahead. *)
Theorem countdown_to_next_occurrence (now h m : Z) :
  (0 <= h < 24)%Z -> (0 <= m < 60)%Z ->
  exists target c,
    getTimeUntilNext now (pad2 h ++ ":" ++ pad2 m) = Some c
    /\ (now < target <= now + 86400000)%Z
    /\ (target mod 86400000 = h * 3600000 + m * 60000)%Z
    /\ minutesOf c = ((target - now) / 60000)%Z
    /\ (c = AnyMoment <-> (target - now < 60000)%Z)
    /\ (forall n, c = InMinutes n -> (1 <= n < 60)%Z)
    /\ (forall hh mm, c = InHours hh mm -> (1 <= hh < 24 /\ 0 <= mm < 60)%Z)
    /\ (forall d hh, c = InDays d hh ->
                     d = 1%Z /\ hh = 0%Z /\ target = (now + 86400000)%Z).
Proof.
  intros Rh Rm.
  rewrite getTimeUntilNext_timeText by lia. cbv zeta.
  set (t0 := (now / 86400000 * 86400000 + h * 3600000 + m * 60000)%Z).
  set (target := if (t0 <=? now)%Z then (t0 + 86400000)%Z else t0).
  set (d := ((target - now) / 60000)%Z).
  assert (Rt : (now < target <= now + 86400000)%Z).
  { unfold target. destruct (Z.leb_spec t0 now) as [L|L]; unfold t0 in *;
      Z.div_mod_to_equations; lia. }
  assert (Md : (target mod 86400000 = h * 3600000 + m * 60000)%Z).
  { unfold target. destruct (Z.leb_spec t0 now) as [L|L]; unfold t0 in *;
      Z.div_mod_to_equations; lia. }
  assert (Rd : (0 <= d <= 1440)%Z)
    by (unfold d; Z.div_mod_to_equations; lia).
  assert (Dd : (d = 1440 <-> target = now + 86400000)%Z)
    by (unfold d; Z.div_mod_to_equations; lia).
  assert (D0 : (d < 1 <-> target - now < 60000)%Z)
    by (unfold d; Z.div_mod_to_equations; lia).
  assert (Ed : d = ((target - now) / 60000)%Z) by reflexivity.
  clearbody d. clearbody target. clear t0.
  exists target. eexists. split; [reflexivity|]. rewrite <- Ed. clear Ed.
  split; [assumption|]. split; [assumption|].
  destruct (Z.ltb_spec d 1) as [L1|L1].
  { split; [cbn; lia|]. split; [tauto|].
    repeat split; discriminate. }
  destruct (Z.ltb_spec d 60) as [L2|L2].
  { split; [reflexivity|]. split; [split; [discriminate|lia]|].
    split; [intros n [= <-]; lia|]. split; intros; discriminate. }
  rewrite Z.rem_mod_nonneg by lia.
  destruct (Z.ltb_spec (d / 60) 24) as [L3|L3].
  { split; [cbn [minutesOf]; Z.div_mod_to_equations; lia|].
    split; [split; [discriminate|lia]|].
    split; [intros; discriminate|].
    split; [|intros; discriminate].
    intros hh mm [= <- <-]. Z.div_mod_to_equations. lia. }
  assert (D : d = 1440%Z) by (Z.div_mod_to_equations; lia).
  replace (d / 60 / 24)%Z with 1%Z by (subst d; reflexivity).
  replace (Z.rem (d / 60) 24) with 0%Z by (subst d; reflexivity).
  split; [subst d; reflexivity|]. split; [split; [discriminate|lia]|].
  split; [intros; discriminate|]. split; [intros; discriminate|].
  intros dd hh [= <- <-]. split; [reflexivity|]. split; [reflexivity|].
  apply Dd. assumption.
Qed.

(** X3: asked for the time the clock shows at this instant,
    [getTimeUntilNext] never answers 'any moment now': the target of
    today is not after now, so it counts down to tomorrow, 'in 23h 59m',
    or 'in 1 day 0h' at the very start of the minute. *)
Theorem countdown_when_due (now : Z) :
  getTimeUntilNext now (getCurrentTimeString now)
  = Some (if (now mod 60000 =? 0)%Z then InDays 1 0 else InHours 23 59).
Proof.
  unfold getCurrentTimeString.
  rewrite getTimeUntilNext_timeText by (Z.div_mod_to_equations; lia).
  cbv zeta.
  set (t0 := (now / 86400000 * 86400000
              + (now / 3600000) mod 24 * 3600000
              + (now / 60000) mod 60 * 60000)%Z).
  assert (E0 : (t0 = now - now mod 60000)%Z)
    by (unfold t0; Z.div_mod_to_equations; lia).
  assert (R : (0 <= now mod 60000 < 60000)%Z)
    by (Z.div_mod_to_equations; lia).
  destruct (Z.leb_spec t0 now) as [L|L]; [|lia].
  replace (t0 + 86400000 - now)%Z with (86400000 - now mod 60000)%Z by lia.
  destruct (Z.eqb_spec (now mod 60000) 0) as [Z0|NZ].
  - rewrite Z0. reflexivity.
  - assert (D : ((86400000 - now mod 60000) / 60000 = 1439)%Z)
      by (Z.div_mod_to_equations; lia).
    rewrite D. reflexivity.
Qed.

Lemma due_during_one_minute_a_day_witness :
  shouldSendMessage (B := ChatPage) inConversation hiHere
    (getCurrentTimeString (nineOClock + 59999)) = true
  /\ shouldSendMessage (B := ChatPage) inConversation hiHere
       (getCurrentTimeString (nineOClock + 60000)) = false.
Proof.
  pose proof (proj2 (@due_during_one_minute_a_day ChatPage)) as H.
  split.
  - apply (H inConversation hiHere 9%Z 0%Z);
      [lia|lia|reflexivity|vm_compute; repeat split].
  - destruct (shouldSendMessage (B := ChatPage) inConversation hiHere
                (getCurrentTimeString (nineOClock + 60000))) eqn:E;
      [|reflexivity].
    apply (H inConversation hiHere 9%Z 0%Z) in E; [|lia|lia|reflexivity].
    destruct E as [_ [_ E]]. vm_compute in E. discriminate E.
Defined.

Lemma countdown_to_next_occurrence_witness :
  exists target c,
    getTimeUntilNext nineOClock (pad2 17 ++ ":" ++ pad2 30) = Some c
    /\ (target mod 86400000 = 17 * 3600000 + 30 * 60000)%Z
    /\ minutesOf c = ((target - nineOClock) / 60000)%Z.
Proof.
  destruct (countdown_to_next_occurrence nineOClock 17 30
              ltac:(lia) ltac:(lia)) as [target [c [E [_ [M [D _]]]]]].
  exists target, c. split; [assumption|]. split; assumption.
Defined.

(* ------------------------------------------------------------------ *)
(** ** The storage module *)

Ltac storage_simpl :=
  cbn in *;
  repeat match goal with
         | H : includes ?e ?p = _ |- context [includes ?e ?p] =>
             rewrite H; cbn in *
         end.

Ltac storage_cases s :=
  let cl := fresh "cl" in
  let rid := fresh "rid" in
  let rej := fresh "rej" in
  let Inv := fresh "Inv" in
  destruct s as [cl rid rej ? ? ? ?];
  destruct cl; destruct rid; destruct rej as [rej|];
  try (destruct (includes rej "Extension context invalidated") eqn:Inv);
  storage_simpl.

Lemma getSchedules_healthy s :
  healthy s ->
  WASStorage.getSchedules s = (WASStorage.orEmpty (WASStorage.was_schedules s), s).
Proof.
  intros [C [R J]]. unfold WASStorage.getSchedules. rewrite C, R, J.
  reflexivity.
Qed.

Lemma saveSchedules_healthy l s :
  healthy s ->
  WASStorage.saveSchedules l s
  = (true, WASStorage.saveFallbackSchedules l
             (WASStorage.set_was_schedules (Some l) s))
  /\ healthy (snd (WASStorage.saveSchedules l s)).
Proof.
  intros [C [R J]]. unfold WASStorage.saveSchedules. rewrite C, R, J.
  split; [reflexivity|]. repeat split; assumption.
Qed.

(** X4: [saveSchedules] answers [true] exactly while the extension
    runs undisturbed, and then both [chrome.storage.local] and the
    fallback copy hold the list.  Whenever [chrome.storage.local] exists
    and either the context is invalid or its calls succeed,
    [getSchedules] reads back the list that was saved, even though the
    save answered [false] in the first case; without
    [chrome.storage.local] the list is kept in the fallback copy but
    [getSchedules] reads [[]].  The settings are never touched. *)
Theorem saved_schedules_are_read_back
  (schedules : list Schedule) (s : WASStorage.Storage) :
  let r := WASStorage.saveSchedules schedules s in
  (fst r = true <-> healthy s)
  /\ (fst r = true ->
      WASStorage.was_schedules (snd r) = Some schedules
      /\ WASStorage.was_fallback (snd r) = Some schedules)
  /\ (WASStorage.chromeLocal s = true ->
      WASStorage.runtimeId s = false \/ WASStorage.rejects s = None ->
      fst (WASStorage.getSchedules (snd r)) = schedules)
  /\ (WASStorage.chromeLocal s = false ->
      fst (WASStorage.getSchedules (snd r)) = []
      /\ WASStorage.getFallbackSchedules (snd r) = schedules)
  /\ WASStorage.was_settings (snd r) = WASStorage.was_settings s.
Proof.
  unfold healthy, WASStorage.saveSchedules, WASStorage.getSchedules,
    WASStorage.getFallbackSchedules.
  storage_cases s; repeat split; intros; try tauto; try discriminate;
    try (intuition discriminate).
Qed.

Lemma updateSchedule_fresh sid upd l :
  (forall x, In x l -> id x <> sid) -> updateSchedule sid upd l = l.
Proof.
  induction l as [|x l IH]; intros F; [reflexivity|]. cbn [updateSchedule].
  destruct (String.eqb_spec (id x) sid) as [E|N].
  - exfalso. apply (F x); [left; reflexivity|assumption].
  - rewrite IH; [reflexivity|]. intros y Hy. apply F. right. assumption.
Qed.

Lemma updateSchedule_app_fresh sid upd l rest :
  (forall x, In x l -> id x <> sid) ->
  updateSchedule sid upd (l ++ rest) = l ++ updateSchedule sid upd rest.
Proof.
  induction l as [|x l IH]; intros F; [reflexivity|].
  cbn [app updateSchedule].
  destruct (String.eqb_spec (id x) sid) as [E|N].
  - exfalso. apply (F x); [left; reflexivity|assumption].
  - rewrite IH; [reflexivity|]. intros y Hy. apply F. right. assumption.
Qed.

Lemma filter_fresh sid (l : list Schedule) :
  (forall x, In x l -> id x <> sid) ->
  filter (fun schedule => negb (id schedule =? sid)) l = l.
Proof.
  intros F. apply forallb_filter_id. apply forallb_forall. intros x Hx.
  destruct (String.eqb_spec (id x) sid) as [E|N]; [|reflexivity].
  exfalso. apply (F x); assumption.
Qed.

Lemma existsb_fresh sid (l : list Schedule) :
  (forall x, In x l -> id x <> sid) ->
  existsb (fun schedule => id schedule =? sid) l = false.
Proof.
  intros F. induction l as [|x l IH]; [reflexivity|]. cbn [existsb].
  destruct (String.eqb_spec (id x) sid) as [E|N].
  - exfalso. apply (F x); [left; reflexivity|assumption].
  - apply IH. intros y Hy. apply F. right. assumption.
Qed.

Lemma toString_inj t1 t2 : toString t1 = toString t2 -> t1 = t2.
Proof.
  unfold toString. intros E. apply DecimalZ.to_int_inj.
  assert (N : forall z, Z.to_int z <> Decimal.Pos Decimal.Nil
                        /\ Z.to_int z <> Decimal.Neg Decimal.Nil).
  { intros [|p|p]; cbn; split; try discriminate;
      intros [= H]; apply (Unsigned.to_uint_nonnil p H). }
  assert (F : NilZero.int_of_string (NilZero.string_of_int (Z.to_int t1))
              = NilZero.int_of_string (NilZero.string_of_int (Z.to_int t2)))
    by (rewrite E; reflexivity).
  rewrite !NilZero.isi in F by apply N. congruence.
Qed.

(** What a healthy storage holds after a list was saved. *)
Lemma healthy_saved l s :
  healthy s ->
  let s' := snd (WASStorage.saveSchedules l s) in
  healthy s'
  /\ fst (WASStorage.saveSchedules l s) = true
  /\ WASStorage.getSchedules s' = (l, s').
Proof.
  intros H. destruct (saveSchedules_healthy l s H) as [E H'].
  cbv zeta. split; [assumption|]. split; [rewrite E; reflexivity|].
  rewrite (getSchedules_healthy _ H'), E. reflexivity.
Qed.

Lemma addSchedule_healthy now schedule s :
  healthy s ->
  let r := WASStorage.addSchedule now schedule s in
  healthy (snd r)
  /\ fst r = true
  /\ WASStorage.getSchedules (snd r)
     = (fst (WASStorage.getSchedules s)
        ++ [WASStorage.newSchedule now schedule], snd r).
Proof.
  intros H. unfold WASStorage.addSchedule.
  rewrite (getSchedules_healthy _ H). cbn [fst].
  apply healthy_saved. assumption.
Qed.

(** X5: on an undisturbed storage [addSchedule] appends a record that
    is not sent, and, when no stored record has the id of this instant,
    [removeSchedule] with that id gives back the schedules as they were
    before. *)
Theorem removeSchedule_undoes_addSchedule
  (now : Z) (schedule : WASStorage.Draft) (s : WASStorage.Storage) :
  healthy s ->
  (forall x, In x (fst (WASStorage.getSchedules s)) -> id x <> toString now) ->
  let added := WASStorage.addSchedule now schedule s in
  let removed := WASStorage.removeSchedule (toString now) (snd added) in
  fst added = true
  /\ fst (WASStorage.getSchedules (snd added))
     = fst (WASStorage.getSchedules s)
       ++ [WASStorage.newSchedule now schedule]
  /\ sent (WASStorage.newSchedule now schedule) = false
  /\ fst removed = true
  /\ fst (WASStorage.getSchedules (snd removed))
     = fst (WASStorage.getSchedules s).
Proof.
  intros H Fresh added removed.
  destruct (addSchedule_healthy now schedule s H) as [H1 [A1 G1]].
  fold added in H1, A1, G1.
  split; [assumption|]. split; [rewrite G1; reflexivity|].
  split; [reflexivity|].
  unfold removed, WASStorage.removeSchedule. rewrite G1.
  rewrite filter_app, (filter_fresh _ _ Fresh). cbn [filter].
  change (id (WASStorage.newSchedule now schedule)) with (toString now).
  rewrite String.eqb_refl. cbn [negb]. rewrite app_nil_r.
  destruct (healthy_saved (fst (WASStorage.getSchedules s)) _ H1)
    as [_ [R G]].
  split; [assumption|]. rewrite G. reflexivity.
Qed.

(** X6: the id [addSchedule] gives is the instant of the call and
    nothing else: two records have the same id exactly when they were
    added at the same instant.  When two records are added at one
    instant, both are stored; [markScheduleSent] with their id marks the
    first of them only, and [removeSchedule] with their id removes
    both. *)
Theorem same_instant_same_id
  (now later : Z) (a b : WASStorage.Draft) (s : WASStorage.Storage) :
  (forall t1 t2 d1 d2,
      id (WASStorage.newSchedule t1 d1) = id (WASStorage.newSchedule t2 d2)
      <-> t1 = t2)
  /\ (healthy s ->
      (forall x, In x (fst (WASStorage.getSchedules s)) ->
                 id x <> toString now) ->
      let stored := fst (WASStorage.getSchedules s) in
      let A := WASStorage.newSchedule now a in
      let B := WASStorage.newSchedule now b in
      let s2 := snd (WASStorage.addSchedule now b
                       (snd (WASStorage.addSchedule now a s))) in
      fst (WASStorage.getSchedules s2) = stored ++ [A; B]
      /\ fst (WASStorage.getSchedules
                (snd (WASStorage.markScheduleSent later (id B) s2)))
         = stored ++ [mark_sent (today later) A; B]
      /\ fst (WASStorage.getSchedules
                (snd (WASStorage.removeSchedule (id A) s2)))
         = stored).
Proof.
  split.
  - intros t1 t2 d1 d2. cbn [id WASStorage.newSchedule]. split.
    + apply toString_inj.
    + intros ->. reflexivity.
  - intros H Fresh. cbv zeta.
    set (stored := fst (WASStorage.getSchedules s)) in *.
    set (A := WASStorage.newSchedule now a).
    set (B := WASStorage.newSchedule now b).
    set (s2 := snd (WASStorage.addSchedule now b
                      (snd (WASStorage.addSchedule now a s)))).
    assert (IdA : id A = toString now) by reflexivity.
    assert (IdB : id B = toString now) by reflexivity.
    destruct (addSchedule_healthy now a s H) as [H1 [_ G1]].
    destruct (addSchedule_healthy now b _ H1) as [H2 [_ G2]].
    fold s2 in H2, G2. rewrite G1 in G2. cbn [fst] in G2.
    fold stored A B in G2. rewrite <- app_assoc in G2. cbn [app] in G2.
    clearbody A B s2 stored.
    split; [rewrite G2; reflexivity|]. split.
    + unfold WASStorage.markScheduleSent, WASStorage.updateSchedule.
      rewrite G2, IdB. rewrite existsb_app. cbn [existsb].
      rewrite IdA, String.eqb_refl, orb_true_r.
      rewrite (updateSchedule_app_fresh _ _ _ _ Fresh).
      cbn [updateSchedule]. rewrite IdA, String.eqb_refl.
      destruct (healthy_saved
                  (stored ++ [mark_sent (today later) A; B]) _ H2)
        as [_ [_ G]].
      rewrite G. reflexivity.
    + unfold WASStorage.removeSchedule. rewrite G2, IdA.
      rewrite filter_app, (filter_fresh _ _ Fresh). cbn [filter].
      rewrite IdA, IdB, String.eqb_refl. cbn [negb]. rewrite app_nil_r.
      destruct (healthy_saved stored _ H2) as [_ [_ G]].
      rewrite G. reflexivity.
Qed.








(** X9: [saveSetting] answers [true] exactly when
    [chrome.storage.local] exists and its calls succeed; then
    [getSetting] reads the saved value under that key and what it read
    before under every other key.  When it answers [false] the storage
    is as it was.  The schedules are never touched. *)
Theorem saved_setting_is_read_back
  (key : string) (value : JsVal) (s : WASStorage.Storage) :
  let r := WASStorage.saveSetting key value s in
  (fst r = true <->
     WASStorage.chromeLocal s = true /\ WASStorage.rejects s = None)
  /\ (fst r = true ->
      WASStorage.getSetting key (snd r) = value
      /\ forall k, k <> key ->
                   WASStorage.getSetting k (snd r) = WASStorage.getSetting k s)
  /\ (fst r = false -> snd r = s)
  /\ fst (WASStorage.getSchedules (snd r)) = fst (WASStorage.getSchedules s).
Proof.
  unfold WASStorage.saveSetting, WASStorage.saveSettings,
    WASStorage.getSetting, WASStorage.getSettings, WASStorage.getSchedules,
    WASStorage.getFallbackSchedules, WASStorage.setProp.
  storage_cases s; (split; [intuition discriminate|]);
    (split; [try discriminate|split; [try discriminate; reflexivity|reflexivity]]).
  all: intros _; rewrite String.eqb_refl; split; [reflexivity|];
    intros k N; apply String.eqb_neq in N; rewrite N; reflexivity.
Qed.

Lemma initializeDefaults_keeps key s :
  WASStorage.getSetting key s <> JUndefined ->
  WASStorage.getSetting key (WASStorage.initializeDefaults s)
  = WASStorage.getSetting key s.
Proof.
  unfold WASStorage.initializeDefaults, WASStorage.getSetting,
    WASStorage.getSettings, WASStorage.saveSettings.
  destruct s as [cl rid rej ws wst wf rl]. cbn.
  destruct cl; cbn; [|reflexivity].
  destruct rej as [e|]; cbn; [intros N; exfalso; apply N; reflexivity|].
  destruct wst as [o|]; cbn; [|intros N; exfalso; apply N; reflexivity].
  intros N. destruct (o "postSendAction") eqn:P; cbn; try reflexivity.
  unfold WASStorage.setProp.
  destruct (String.eqb_spec key "postSendAction") as [->|Ne];
    [congruence|reflexivity].
Qed.

(** X10: [initializeDefaults] never changes a setting that has a
    value.  While [chrome.storage.local] exists and its calls succeed,
    [postSendAction] has a value afterwards, and from no settings at all
    the defaults are a send delay of 3000, retrying on, and 'refresh'
    after a send.  Running it twice is running it once, and the
    schedules are never touched. *)
Theorem initializeDefaults_spec (s : WASStorage.Storage) :
  let s' := WASStorage.initializeDefaults s in
  (forall key, WASStorage.getSetting key s <> JUndefined ->
               WASStorage.getSetting key s' = WASStorage.getSetting key s)
  /\ (WASStorage.chromeLocal s = true -> WASStorage.rejects s = None ->
      WASStorage.getSetting "postSendAction" s' <> JUndefined
      /\ (WASStorage.was_settings s = None ->
          WASStorage.getSetting "sendDelay" s' = JNum 3000
          /\ WASStorage.getSetting "autoRetry" s' = JBool true
          /\ WASStorage.getSetting "postSendAction" s' = JStr "refresh"))
  /\ WASStorage.initializeDefaults s' = s'
  /\ WASStorage.was_schedules s' = WASStorage.was_schedules s
  /\ WASStorage.was_fallback s' = WASStorage.was_fallback s.
Proof.
  cbv zeta. split; [intros key; apply initializeDefaults_keeps|].
  unfold WASStorage.initializeDefaults, WASStorage.getSetting,
    WASStorage.getSettings, WASStorage.saveSettings.
  destruct s as [cl rid rej ws wst wf rl]. cbn.
  destruct cl; cbn; [|repeat split; intros; discriminate].
  destruct rej as [e|]; cbn; [repeat split; intros; discriminate|].
  destruct wst as [o|]; cbn.
  - destruct (o "postSendAction") eqn:P; cbn; rewrite ?P; cbn;
      repeat split; intros; try discriminate; try congruence.
  - repeat split; intros; discriminate.
Qed.

Lemma saved_schedules_are_read_back_witness :
  fst (WASStorage.getSchedules
         (snd (WASStorage.saveSchedules [hiHere]
                 (orphaned (storageOf None None)))))
  = [hiHere].
Proof.
  pose proof (saved_schedules_are_read_back [hiHere]
                (orphaned (storageOf None None))) as H.
  cbv zeta in H. destruct H as [_ [_ [H _]]].
  apply H; [reflexivity|left; reflexivity].
Defined.

Lemma removeSchedule_undoes_addSchedule_witness :
  let s := storageOf (Some [hiHere]) None in
  let added := WASStorage.addSchedule nineOClock pingDraft s in
  fst (WASStorage.getSchedules (snd added))
  = [hiHere; WASStorage.newSchedule nineOClock pingDraft]
  /\ fst (WASStorage.getSchedules
            (snd (WASStorage.removeSchedule (toString nineOClock)
                    (snd added))))
     = [hiHere].
Proof.
  intros s added.
  assert (H : healthy s) by (repeat split).
  assert (F : forall x, In x (fst (WASStorage.getSchedules s)) ->
                        id x <> toString nineOClock).
  { intros x [<-|[]] E. vm_compute in E. discriminate E. }
  destruct (removeSchedule_undoes_addSchedule nineOClock pingDraft s H F)
    as [_ [A [_ [_ R]]]].
  split; [exact A|exact R].
Defined.

Lemma same_instant_same_id_witness :
  let s := storageOf (Some [hiHere]) None in
  let s2 := snd (WASStorage.addSchedule nineOClock pingDraft
                   (snd (WASStorage.addSchedule nineOClock pingDraft s))) in
  fst (WASStorage.getSchedules
         (snd (WASStorage.removeSchedule (toString nineOClock) s2)))
  = [hiHere].
Proof.
  intros s s2.
  assert (H : healthy s) by (repeat split).
  assert (F : forall x, In x (fst (WASStorage.getSchedules s)) ->
                        id x <> toString nineOClock).
  { intros x [<-|[]] E. vm_compute in E. discriminate E. }
  destruct (proj2 (same_instant_same_id nineOClock nextMorning
                     pingDraft pingDraft s) H F) as [_ [_ R]].
  exact R.
Defined.


Lemma saved_setting_is_read_back_witness :
  let r := WASStorage.saveSetting "sendDelay" (JNum 5000)
             (storageOf None None) in
  WASStorage.getSetting "sendDelay" (snd r) = JNum 5000
  /\ WASStorage.getSetting "autoRetry" (snd r) = JUndefined.
Proof.
  intros r.
  pose proof (saved_setting_is_read_back "sendDelay" (JNum 5000)
                (storageOf None None)) as H.
  cbv zeta in H. destruct H as [_ [H _]].
  destruct (H eq_refl) as [V O]. split; [exact V|].
  unfold r. rewrite (O "autoRetry"); [reflexivity|discriminate].
Defined.

Lemma initializeDefaults_spec_witness :
  WASStorage.getSetting "postSendAction"
    (WASStorage.initializeDefaults (storageOf None None))
  = JStr "refresh".
Proof.
  pose proof (initializeDefaults_spec (storageOf None None)) as H.
  cbv zeta in H. destruct H as [_ [H _]].
  destruct (H eq_refl eq_refl) as [_ D].
  destruct (D eq_refl) as [_ [_ P]]. exact P.
Defined.

(** X23: on an undisturbed storage [clearAll] empties what
    [getSchedules] reads and leaves no setting, but it does not clear
    the fallback copy: once the extension context is invalid the
    schedules saved before the clearing are read again.
    [clearSchedules] clears both copies, so that nothing comes back, and
    keeps the settings. *)
Theorem clearAll_leaves_fallback_copy
  (schedules : list Schedule) (s : WASStorage.Storage) :
  healthy s ->
  let saved := snd (WASStorage.saveSchedules schedules s) in
  let a := WASStorage.clearAll saved in
  let c := WASStorage.clearSchedules saved in
  fst a = true
  /\ fst (WASStorage.getSchedules (snd a)) = []
  /\ (forall key, WASStorage.getSetting key (snd a) = JUndefined)
  /\ fst (WASStorage.getSchedules (orphaned (snd a))) = schedules
  /\ fst c = true
  /\ fst (WASStorage.getSchedules (snd c)) = []
  /\ fst (WASStorage.getSchedules (orphaned (snd c))) = []
  /\ (forall key,
        WASStorage.getSetting key (snd c) = WASStorage.getSetting key s).
Proof.
  intros [C [R J]]. destruct s as [cl rid rej ws wst wf rl].
  cbn in C, R, J. subst cl rid rej. cbv zeta.
  repeat split.
Qed.

Lemma clearAll_leaves_fallback_copy_witness :
  let saved := snd (WASStorage.saveSchedules [hiHere] (storageOf None None)) in
  fst (WASStorage.getSchedules (snd (WASStorage.clearAll saved))) = []
  /\ fst (WASStorage.getSchedules
            (orphaned (snd (WASStorage.clearAll saved)))) = [hiHere]
  /\ fst (WASStorage.getSchedules
            (orphaned (snd (WASStorage.clearSchedules saved)))) = [].
Proof.
  intros saved.
  destruct (clearAll_leaves_fallback_copy [hiHere] (storageOf None None)
              ltac:(repeat split)) as [_ [E [_ [B [_ [_ [F _]]]]]]].
  split; [exact E|]. split; [exact B|exact F].
Defined.

(* ------------------------------------------------------------------ *)
(** ** The contacts field of the panel *)

Lemma split_nonempty sep s : split sep s <> [].
Proof.
  destruct s as [|c s]; cbn [split]; [discriminate|].
  destruct (Ascii.eqb c sep); [discriminate|].
  destruct (split sep s); discriminate.
Qed.

Lemma split_parts sep s part :
  In part (split sep s) -> hasUnit sep part = false.
Proof.
  revert part. induction s as [|c s IH]; intros part; cbn [split].
  - intros [<-|[]]. reflexivity.
  - destruct (Ascii.eqb c sep) eqn:E.
    + intros [<-|H]; [reflexivity|auto].
    + destruct (split sep s) as [|p ps] eqn:S.
      * exfalso. exact (split_nonempty _ _ S).
      * intros [<-|H].
        -- unfold hasUnit. cbn [list_ascii_of_string existsb].
           rewrite Ascii.eqb_sym, E. apply IH. left. reflexivity.
        -- apply IH. right. assumption.
Qed.

Lemma drop_ws_suffix l : exists pre, l = pre ++ drop_ws l.
Proof.
  induction l as [|c l [pre IH]]; [exists []; reflexivity|].
  cbn [drop_ws]. destruct (is_ws c).
  - exists (c :: pre). cbn. f_equal. assumption.
  - exists []. reflexivity.
Qed.

Lemma drop_ws_idem l : drop_ws (drop_ws l) = drop_ws l.
Proof.
  induction l as [|c l IH]; [reflexivity|].
  cbn [drop_ws]. destruct (is_ws c) eqn:E; [assumption|].
  cbn [drop_ws]. rewrite E. reflexivity.
Qed.

Lemma drop_ws_head l c rest : drop_ws l = c :: rest -> is_ws c = false.
Proof.
  induction l as [|a l IH]; [discriminate|]. cbn [drop_ws].
  destruct (is_ws a) eqn:E; [assumption|]. intros [= <- _]. assumption.
Qed.

Lemma drop_ws_keeps l c : is_ws c = false -> drop_ws (l ++ [c]) = drop_ws l ++ [c].
Proof.
  intros N. induction l as [|a l IH]; cbn [app drop_ws].
  - rewrite N. reflexivity.
  - destruct (is_ws a); [assumption|reflexivity].
Qed.

Lemma trim_units s : list_ascii_of_string (trim s) = trimmed (list_ascii_of_string s).
Proof. unfold trim, trimmed. apply list_ascii_of_string_of_list_ascii. Qed.

Lemma trimmed_fixed l :
  drop_ws l = l -> drop_ws (rev l) = rev l -> trimmed l = l.
Proof. unfold trimmed. intros -> ->. apply rev_involutive. Qed.

Lemma trimmed_ends l :
  drop_ws (trimmed l) = trimmed l
  /\ drop_ws (rev (trimmed l)) = rev (trimmed l).
Proof.
  unfold trimmed. rewrite rev_involutive, drop_ws_idem. split; [|reflexivity].
  destruct (drop_ws l) as [|c m] eqn:D; [reflexivity|].
  pose proof (drop_ws_head _ _ _ D) as Nc.
  destruct (drop_ws_suffix (rev (c :: m))) as [pre S].
  destruct (drop_ws (rev (c :: m))) as [|d u] eqn:U; [reflexivity|].
  (* the last unit of [d :: u] is [c] *)
  assert (L : exists v, d :: u = v ++ [c]).
  { cbn [rev] in S. destruct (exists_last (l := d :: u) ltac:(discriminate))
      as [v [z Ez]].
    exists v. rewrite Ez in S |- *. rewrite app_assoc in S.
    apply app_inj_tail in S. destruct S as [_ <-]. reflexivity. }
  destruct L as [v ->]. rewrite rev_app_distr. cbn [rev app drop_ws].
  rewrite Nc. reflexivity.
Qed.

Lemma trim_idem s : trim (trim s) = trim s.
Proof.
  unfold trim at 1. rewrite trim_units.
  fold (trimmed (trimmed (list_ascii_of_string s))).
  destruct (trimmed_ends (list_ascii_of_string s)) as [E1 E2].
  rewrite (trimmed_fixed _ E1 E2). rewrite <- trim_units.
  apply string_of_list_ascii_of_string.
Qed.

Lemma existsb_drop_ws (f : ascii -> bool) l :
  existsb f l = false -> existsb f (drop_ws l) = false.
Proof.
  induction l as [|c l IH]; [reflexivity|]. cbn [existsb drop_ws].
  intros H. apply orb_false_elim in H. destruct H as [Hc Hl].
  destruct (is_ws c); [auto|]. cbn [existsb]. rewrite Hc, Hl. reflexivity.
Qed.

Lemma existsb_rev (f : ascii -> bool) l : existsb f (rev l) = existsb f l.
Proof.
  induction l as [|c l IH]; [reflexivity|]. cbn [rev existsb].
  rewrite existsb_app, IH. cbn [existsb]. rewrite orb_false_r.
  apply orb_comm.
Qed.

Lemma trim_hasUnit c s : hasUnit c s = false -> hasUnit c (trim s) = false.
Proof.
  unfold hasUnit. rewrite trim_units. unfold trimmed. intros H.
  rewrite existsb_rev. apply existsb_drop_ws. rewrite existsb_rev.
  apply existsb_drop_ws. assumption.
Qed.

Lemma namedContacts_In name l :
  In name (namedContacts l) <-> In name l /\ name <> "".
Proof.
  unfold namedContacts. rewrite filter_In. unfold str_falsy.
  destruct (String.eqb_spec name ""); cbn [negb]; intuition congruence.
Qed.

Lemma namedContacts_idem l : namedContacts (namedContacts l) = namedContacts l.
Proof.
  unfold namedContacts. apply forallb_filter_id, forallb_filter.
Qed.

Lemma trim_space_before s : trim (" " ++ s)%string = trim s.
Proof. reflexivity. Qed.

Lemma split_first sep name rest :
  hasUnit sep name = false ->
  split sep (name ++ String sep rest)%string = name :: split sep rest.
Proof.
  induction name as [|c name IH]; intros H.
  - cbn [append split]. rewrite Ascii.eqb_refl. reflexivity.
  - unfold hasUnit in H. cbn [list_ascii_of_string existsb] in H.
    apply orb_false_elim in H. destruct H as [Hc Hn].
    cbn [append split]. rewrite Ascii.eqb_sym, Hc.
    rewrite (IH Hn). reflexivity.
Qed.

Lemma split_whole sep name :
  hasUnit sep name = false -> split sep name = [name].
Proof.
  induction name as [|c name IH]; intros H; [reflexivity|].
  unfold hasUnit in H. cbn [list_ascii_of_string existsb] in H.
  apply orb_false_elim in H. destruct H as [Hc Hn].
  cbn [split]. rewrite Ascii.eqb_sym, Hc, (IH Hn). reflexivity.
Qed.

(** X11: every name the panel takes from its contacts field is not
    empty, carries no white space at either end and no comma; the
    scheduler's own filter of empty names leaves such a list as it is;
    and a list of such names, joined with a comma and a space, is read
    back from the field as it was. *)
Theorem contactList_clean (value : string) :
  (forall name, In name (WASUI.contactList value) -> cleanName name)
  /\ namedContacts (WASUI.contactList value) = WASUI.contactList value
  /\ (forall names,
         (forall n, In n names -> cleanName n) ->
         WASUI.contactList (joinNames names) = names).
Proof.
  split; [|split].
  - intros name H. unfold WASUI.contactList in H.
    apply namedContacts_In in H. destruct H as [H Ne].
    apply in_map_iff in H. destruct H as [part [<- P]].
    split; [assumption|]. split; [apply trim_idem|].
    apply trim_hasUnit. apply (split_parts _ _ _ P).
  - apply namedContacts_idem.
  - intros names. unfold WASUI.contactList.
    induction names as [|n rest IH]; intros C; [reflexivity|].
    destruct (C n (or_introl eq_refl)) as [Ne [Tr Co]].
    assert (Keep : negb (str_falsy n) = true).
    { unfold str_falsy. destruct (String.eqb_spec n ""); [contradiction|reflexivity]. }
    destruct rest as [|m rest'].
    + cbn [joinNames]. rewrite (split_whole _ _ Co). cbn [map].
      rewrite Tr. unfold namedContacts. cbn [filter]. rewrite Keep. reflexivity.
    + change (joinNames (n :: m :: rest'))
        with (n ++ String "," (" " ++ joinNames (m :: rest')))%string.
      rewrite (split_first _ _ _ Co). cbn [map]. rewrite Tr.
      unfold namedContacts at 1. cbn [filter]. rewrite Keep. f_equal.
      fold (namedContacts
              (map trim (split "," (" " ++ joinNames (m :: rest'))%string))).
      assert (IH' := IH (fun x Hx => C x (or_intror Hx))).
      (* a space before the first name is trimmed away *)
      destruct (C m (or_intror (or_introl eq_refl))) as [_ [_ Cm]].
      destruct rest' as [|k rest''].
      * cbn [joinNames] in *.
        assert (Cs : hasUnit "," (" " ++ m)%string = false) by exact Cm.
        rewrite (split_whole _ _ Cs). rewrite (split_whole _ _ Cm) in IH'.
        cbn [map] in *. rewrite trim_space_before. assumption.
      * change (joinNames (m :: k :: rest''))
          with (m ++ String "," (" " ++ joinNames (k :: rest'')))%string in *.
        assert (Cs : hasUnit "," (" " ++ m)%string = false) by exact Cm.
        change (" " ++ m ++ String "," (" " ++ joinNames (k :: rest'')))%string
          with ((" " ++ m) ++ String "," (" " ++ joinNames (k :: rest'')))%string.
        rewrite (split_first _ _ _ Cs). rewrite (split_first _ _ _ Cm) in IH'.
        cbn [map] in *. rewrite trim_space_before. assumption.
Qed.

(* ------------------------------------------------------------------ *)
(** ** Adding a schedule from the panel *)

Lemma or_empty_self m : (if str_falsy m then "" else m) = m.
Proof.
  unfold str_falsy. destruct (String.eqb_spec m "") as [->|N]; reflexivity.
Qed.

Lemma addSchedule_ok_iff now d s :
  fst (WASStorage.addSchedule now d s) = true <-> healthy s.
Proof.
  unfold healthy, WASStorage.addSchedule, WASStorage.getSchedules,
    WASStorage.saveSchedules, WASStorage.getFallbackSchedules.
  storage_cases s; intuition (discriminate || congruence).
Qed.

Lemma addSchedule_orphaned now d s :
  WASStorage.chromeLocal s = true -> WASStorage.runtimeId s = false ->
  fst (WASStorage.getSchedules (snd (WASStorage.addSchedule now d s)))
  = fst (WASStorage.getSchedules s) ++ [WASStorage.newSchedule now d].
Proof.
  unfold WASStorage.addSchedule, WASStorage.getSchedules,
    WASStorage.saveSchedules, WASStorage.getFallbackSchedules.
  storage_cases s; intros; try discriminate; reflexivity.
Qed.

(** X12: the panel's [addSchedule] refuses a form without a time, or
    with a blank message and the clipboard box unticked: the storage and
    the form stay as they are and one error is shown.  A form it accepts
    is, on an undisturbed storage, cleared and stored as one more record
    with the id of this instant, the time, the trimmed message, the
    clipboard choice and the contacts of the form, not sent; a stored
    record with an empty message has the clipboard option on, and its
    contacts hold no empty name.  When the storage is disturbed the form
    is kept and 'Failed to add schedule' is shown; yet, when it is the
    extension context that is invalid, the record is in what
    [getSchedules] reads from then on. *)
Theorem panel_addSchedule_spec
  (now : Z) (form : WASUI.Form) (s : WASStorage.Storage) :
  let o := WASUI.addSchedule now form s in
  let rejected :=
    str_falsy (WASUI.timeInput form)
    || (str_falsy (trim (WASUI.messageInput form))
        && negb (WASUI.clipboardCheckbox form)) in
  (rejected = true ->
   snd o = s /\ snd (fst o) = form
   /\ exists text,
        fst (fst o)
        = [{| WASUI.title := "Error"; WASUI.body := text;
              WASUI.kind := "error" |}])
  /\ (rejected = false -> healthy s ->
      snd (fst o) = WASUI.cleared
      /\ In {| WASUI.title := "Success";
               WASUI.body := "Schedule added successfully";
               WASUI.kind := "success" |} (fst (fst o))
      /\ exists record,
           fst (WASStorage.getSchedules (snd o))
           = fst (WASStorage.getSchedules s) ++ [record]
           /\ id record = toString now
           /\ time record = WASUI.timeInput form
           /\ message record = Some (trim (WASUI.messageInput form))
           /\ useClipboard record = WASUI.clipboardCheckbox form
           /\ contactList record
              = WASUI.contactList (WASUI.contactsInput form)
           /\ sent record = false
           /\ (field_falsy (message record) = true ->
               useClipboard record = true)
           /\ namedContacts (contactList record) = contactList record)
  /\ (rejected = false -> ~ healthy s ->
      snd (fst o) = form
      /\ In {| WASUI.title := "Error"; WASUI.body := "Failed to add schedule";
               WASUI.kind := "error" |} (fst (fst o))
      /\ (WASStorage.chromeLocal s = true ->
          WASStorage.runtimeId s = false ->
          exists record,
            fst (WASStorage.getSchedules (snd o))
            = fst (WASStorage.getSchedules s) ++ [record]
            /\ id record = toString now
            /\ time record = WASUI.timeInput form)).
Proof.
  cbv zeta. unfold WASUI.addSchedule.
  set (draft := {| WASStorage.d_time := WASUI.timeInput form;
                   WASStorage.d_message :=
                     Some (trim (WASUI.messageInput form));
                   WASStorage.d_useClipboard :=
                     Some (WASUI.clipboardCheckbox form);
                   WASStorage.d_contactList :=
                     Some (WASUI.contactList (WASUI.contactsInput form));
                   WASStorage.d_contactName := None |}).
  destruct (str_falsy (WASUI.timeInput form)) eqn:T; cbn [orb].
  { split; [|split; intros; discriminate].
    intros _. cbn [fst snd]. repeat split. eexists. reflexivity. }
  destruct (str_falsy (trim (WASUI.messageInput form))
            && negb (WASUI.clipboardCheckbox form)) eqn:M.
  { split; [|split; intros; discriminate].
    intros _. cbn [fst snd]. repeat split. eexists. reflexivity. }
  split; [intros; discriminate|]. split.
  - intros _ H.
    destruct (addSchedule_healthy now draft s H) as [H1 [A1 G1]].
    destruct (WASStorage.addSchedule now draft s) as [success s1] eqn:A.
    cbn [fst snd] in *. subst success. cbn [fst snd].
    split; [reflexivity|]. split.
    { apply in_or_app. right. left. reflexivity. }
    exists (WASStorage.newSchedule now draft).
    unfold WASUI.loadData. rewrite G1. cbn [fst snd]. rewrite G1. cbn [fst].
    split; [reflexivity|]. split; [reflexivity|]. split; [reflexivity|].
    cbn [message WASStorage.newSchedule WASStorage.d_message draft
         useClipboard WASStorage.d_useClipboard contactList
         WASStorage.d_contactList sent].
    rewrite or_empty_self.
    split; [reflexivity|]. split; [reflexivity|]. split; [reflexivity|].
    split; [reflexivity|]. split.
    + cbn [field_falsy]. intros E. rewrite E in M. cbn [andb] in M.
      destruct (WASUI.clipboardCheckbox form); [reflexivity|discriminate].
    + unfold WASUI.contactList. apply namedContacts_idem.
  - intros _ NH.
    pose proof (addSchedule_orphaned now draft s) as G.
    destruct (WASStorage.addSchedule now draft s) as [success s1] eqn:A.
    destruct success.
    { exfalso. apply NH. apply (addSchedule_ok_iff now draft). rewrite A.
      reflexivity. }
    cbn [fst snd] in *.
    split; [reflexivity|]. split; [apply in_or_app; right; left; reflexivity|].
    intros C R. exists (WASStorage.newSchedule now draft).
    split; [apply G; assumption|]. split; reflexivity.
Qed.

Lemma contactList_clean_witness :
  WASUI.contactList (joinNames ["Alice"; "Bob Smith"])
  = ["Alice"; "Bob Smith"].
Proof.
  apply (contactList_clean "").
  intros n [<-|[<-|[]]]; (split; [discriminate|vm_compute; split; reflexivity]).
Defined.

Lemma panel_addSchedule_spec_witness :
  let o := WASUI.addSchedule nineOClock bobForm
             (storageOf (Some [hiHere]) None) in
  snd (fst o) = WASUI.cleared
  /\ exists record,
       fst (WASStorage.getSchedules (snd o)) = [hiHere; record]
       /\ message record = Some "Hi"
       /\ contactList record = ["Bob"].
Proof.
  intros o.
  pose proof (panel_addSchedule_spec nineOClock bobForm
                (storageOf (Some [hiHere]) None)) as H.
  cbv zeta in H. destruct H as [_ [H _]].
  destruct (H ltac:(vm_compute; reflexivity) ltac:(repeat split))
    as [F [_ [record [G [_ [_ [M [_ [C _]]]]]]]]].
  split; [exact F|]. exists record.
  split; [exact G|]. split; [rewrite M|rewrite C]; vm_compute; reflexivity.
Defined.

(* ------------------------------------------------------------------ *)
(** ** What a tick leaves as it was *)

Lemma onlyMarks_refl ids l : onlyMarks ids l l.
Proof. induction l; constructor; auto. Qed.

Lemma onlyMarks_trans ids l1 l2 l3 :
  onlyMarks ids l1 l2 -> onlyMarks ids l2 l3 -> onlyMarks ids l1 l3.
Proof.
  intros H12. revert l3. induction H12 as [|a b l1 l2 Hab _ IH]; intros l3 H23.
  - inversion H23. constructor.
  - inversion H23 as [|b' c l2' l3' Hbc Hrest]; subst.
    constructor; [|apply IH; assumption].
    destruct Hab as [->|[Ia [d ->]]]; [assumption|].
    destruct Hbc as [->|[Ib [d' ->]]].
    + right. split; [assumption|]. exists d. reflexivity.
    + right. split; [assumption|]. exists d'. reflexivity.
Qed.

Lemma onlyMarks_update ids sid d l :
  In sid ids -> onlyMarks ids l (updateSchedule sid (mark_sent d) l).
Proof.
  intros Hin. induction l as [|s l IH]; [constructor|].
  cbn [updateSchedule]. destruct (String.eqb_spec (id s) sid) as [E|N].
  - constructor; [|apply onlyMarks_refl].
    right. split; [rewrite E; assumption|]. exists d. reflexivity.
  - constructor; [left; reflexivity|assumption].
Qed.

Section TickFrame.
Context {B : Browser}.
Variable ids : list string.

Lemma tickFrame_refl w : tickFrame ids w w.
Proof. repeat split. apply onlyMarks_refl. Qed.

Lemma tickFrame_trans w1 w2 w3 :
  tickFrame ids w1 w2 -> tickFrame ids w2 w3 -> tickFrame ids w1 w3.
Proof.
  intros [[A1 [A2 [A3 [A4 A5]]]] [A6 A7]] [[B1 [B2 [B3 [B4 B5]]]] [B6 B7]].
  repeat split; try congruence. eapply onlyMarks_trans; eassumption.
Qed.

#[local] Instance tickFrame_ui : UiFrame (tickFrame ids).
Proof.
  split.
  - apply tickFrame_refl.
  - apply tickFrame_trans.
  - intros p w. repeat split. apply onlyMarks_refl.
  - intros t w. repeat split. apply onlyMarks_refl.
  - intros t w. repeat split. apply onlyMarks_refl.
Qed.

Lemma Sound_markScheduleSent_frame sid :
  In sid ids -> Sound (tickFrame ids) send_level (markScheduleSent sid).
Proof.
  intros Hin w. unfold markScheduleSent, bind, andThen, emit, get, modify, ret.
  cbn [res st evs]. destruct (contextValid w) eqn:V; cbn [res st evs].
  - split; [|reflexivity].
    repeat split; cbn [schedules set_schedules contextValid]; try assumption.
    apply onlyMarks_update. assumption.
  - split; [|reflexivity]. apply tickFrame_refl.
Qed.

Lemma Sound_sendScheduledMessage_try_frame schedule :
  In (id schedule) ids ->
  Sound (tickFrame ids) send_level (sendScheduledMessage_try schedule).
Proof.
  intros Hin.
  unfold sendScheduledMessage_try, concludeSchedule,
    getClipboardText, handlePostSendAction.
  cbv zeta. sound.
  - apply (Sound_smartRetry _); [reflexivity|].
    apply (Sound_as_js _), (Sound_injectAndSendMessage _). level_sub.
  - apply (Sound_sendToContacts _).
  - apply Sound_markScheduleSent_frame. assumption.
Qed.

End TickFrame.

#[global] Existing Instance tickFrame_ui.

Section Tickwise.
Context {B : Browser}.

Lemma try_catch_total {A} (m : M A) (h : Err -> M A) w :
  (exists a, res (m w) = Ok a) -> try_catch m h w = m w.
Proof. intros [a R]. unfold try_catch. rewrite R. reflexivity. Qed.

Lemma Sound_sendScheduledMessage_frame ids schedule :
  In (id schedule) ids ->
  Sound (tickFrame ids) send_level (sendScheduledMessage schedule).
Proof.
  intros Hin w. unfold sendScheduledMessage. rewrite bind_get.
  destruct (isSending w) eqn:Busy.
  { split; [apply tickFrame_refl|reflexivity]. }
  rewrite (bind_run (modify (set_isSending true)) _ _ tt _ _ eq_refl).
  cbn [app]. unfold finally.
  rewrite (try_catch_total _ _ _
             (sendScheduledMessage_try_total schedule _)).
  destruct (Sound_sendScheduledMessage_try_frame ids schedule Hin
              (set_isSending true w)) as [F Q].
  cbn [res st evs modify]. rewrite app_nil_r. split; [|assumption].
  destruct F as [[A1 [A2 [A3 [A4 A5]]]] [A6 A7]].
  cbn [isSending isCheckingSchedules settings postSendAction contextValid
       isRunning schedules set_isSending] in *.
  repeat split; try assumption. symmetry. assumption.
Qed.

Lemma Sound_processOne_frame ids count schedule :
  In (id schedule) ids ->
  Sound (tickFrame ids) (fun _ => true) (processOne count schedule).
Proof.
  intros Hin. unfold processOne, processOneWith. sound.
  eapply (Sound_weaken _ send_level); [reflexivity|].
  apply Sound_sendScheduledMessage_frame. assumption.
Qed.

Lemma Sound_processPending_frame ids count pending :
  (forall s, In s pending -> In (id s) ids) ->
  Sound (tickFrame ids) (fun _ => true) (processPending count pending).
Proof.
  unfold processPending. induction pending as [|s rest IH]; intros Hin;
    cbn [processPendingWith].
  - apply (Sound_ret _).
  - apply (Sound_bind _).
    + apply (Sound_processOne_frame ids count s). apply Hin. left. reflexivity.
    + intros _. apply IH. intros x Hx. apply Hin. right. assumption.
Qed.

Lemma checkSchedules_try_valid w :
  contextValid w = true ->
  tickFrame (map id (dueAt w)) w (st (checkSchedules_try w))
  /\ exists u, res (checkSchedules_try w) = Ok u.
Proof.
  intros V. unfold checkSchedules_try. rewrite bind_get, V. cbn [negb].
  fold (dueAt w).
  assert (Ids : forall s, In s (dueAt w) -> In (id s) (map id (dueAt w)))
    by (intros s Hs; apply in_map; assumption).
  pose proof (Sound_processPending_frame (map id (dueAt w))
                (List.length (dueAt w)) (dueAt w) Ids) as P.
  assert (N : exists m,
             updateNextMessageStatus (schedules w) w
             = {| res := Ok tt; st := w; evs := [EStatus m SInfo] |}).
  { unfold updateNextMessageStatus.
    destruct (earliest _); eexists; reflexivity. }
  destruct N as [m N]. rewrite (bind_run _ _ _ _ _ _ N).
  cbn [res st evs].
  destruct (dueAt w) as [|d rest] eqn:D.
  - split; [apply tickFrame_refl|exists tt; reflexivity].
  - rewrite (bind_run (updateStatus _ SWorking) _ _ tt _ _ eq_refl).
    cbn [res st evs]. split; [apply P|].
    exists tt. apply processPendingWith_total.
Qed.

Lemma stop_run w :
  stop w = {| res := Ok tt; st := set_isRunning false w;
              evs := if isRunning w then [EStopped] else [] |}
  \/ (isRunning w = false
      /\ stop w = {| res := Ok tt; st := w; evs := [] |}).
Proof.
  unfold stop. rewrite bind_get. destruct (isRunning w) eqn:R; cbn [negb].
  - left. reflexivity.
  - right. split; reflexivity.
Qed.

Lemma checkSchedules_frame w :
  let o := checkSchedules w in
  res o = Ok tt
  /\ sameControls w (st o)
  /\ onlyMarks (map id (dueAt w)) (schedules w) (schedules (st o))
  /\ (contextValid w = true -> isRunning (st o) = isRunning w)
  /\ (contextValid w = false -> isCheckingSchedules w = false ->
      isRunning (st o) = false /\ schedules (st o) = schedules w).
Proof.
  cbv zeta. split; [apply checkSchedules_total|].
  unfold checkSchedules. rewrite bind_get.
  destruct (isCheckingSchedules w) eqn:Busy.
  { cbn [res st evs ret]. repeat split; try congruence.
    apply onlyMarks_refl. }
  rewrite (bind_run (modify (set_isCheckingSchedules true)) _ _ tt _ _ eq_refl).
  unfold finally. cbn [st modify].
  set (w0 := set_isCheckingSchedules true w).
  destruct (contextValid w) eqn:V.
  - destruct (checkSchedules_try_valid w0 V) as [F T].
    rewrite (try_catch_total _ _ _ T).
    destruct F as [[A1 [A2 [A3 [A4 A5]]]] [A6 A7]].
    change (dueAt w0) with (dueAt w) in A7.
    cbn [isSending isCheckingSchedules settings postSendAction contextValid
         isRunning schedules set_isCheckingSchedules w0] in *.
    repeat split;
      cbn [isSending isCheckingSchedules settings postSendAction
           contextValid isRunning schedules set_isCheckingSchedules];
      try assumption; try congruence.
  - assert (E : checkSchedules_try w0
                = bind stop (fun _ => handleContextInvalidation) w0).
    { unfold checkSchedules_try. rewrite bind_get. unfold w0.
      cbn [contextValid set_isCheckingSchedules]. rewrite V. reflexivity. }
    assert (T : exists u, res (checkSchedules_try w0) = Ok u).
    { rewrite E. destruct (stop_run w0) as [S|[_ S]];
        rewrite (bind_run _ _ _ _ _ _ S); exists tt; reflexivity. }
    rewrite (try_catch_total _ _ _ T), E.
    destruct (stop_run w0) as [S|[R S]]; rewrite (bind_run _ _ _ _ _ _ S);
      cbn [res st evs handleContextInvalidation emit];
      repeat split;
      cbn [isSending isCheckingSchedules settings postSendAction
           contextValid isRunning schedules set_isCheckingSchedules
           set_isRunning w0];
      try congruence; try apply onlyMarks_refl; try discriminate;
      try exact R.
Qed.

(** X13: whatever happens during it, a tick of [checkSchedules] leaves
    the two semaphores, the settings, the post-send action and the
    validity of the context as it found them; it leaves the scheduler
    running or stopped as it was while the context is valid, and, begun
    with no check in progress, stops it when the context is invalid.  A single [sendScheduledMessage]
    keeps all of these as well. *)
Theorem tick_restores_controls (w : World) :
  let o := checkSchedules w in
  sameControls w (st o)
  /\ (contextValid w = true -> isRunning (st o) = isRunning w)
  /\ (contextValid w = false -> isCheckingSchedules w = false ->
      isRunning (st o) = false)
  /\ forall schedule,
       sameControls w (st (sendScheduledMessage schedule w))
       /\ isRunning (st (sendScheduledMessage schedule w)) = isRunning w.
Proof.
  destruct (checkSchedules_frame w) as [_ [C [_ [R1 R2]]]].
  cbv zeta. split; [assumption|]. split; [assumption|]. split.
  - intros V K. apply (R2 V K).
  - intros schedule.
    destruct (Sound_sendScheduledMessage_frame [id schedule] schedule
                (or_introl eq_refl) w) as [[C' [R' _]] _].
    split; assumption.
Qed.

Lemma onlyMarks_fields ids l l' :
  onlyMarks ids l l' ->
  map id l' = map id l
  /\ map time l' = map time l
  /\ map message l' = map message l
  /\ map useClipboard l' = map useClipboard l
  /\ map contactList l' = map contactList l
  /\ Forall2 (fun s s' => sent s = true -> sent s' = true) l l'.
Proof.
  induction 1 as [|s s' l l' Hs _ [I1 [I2 [I3 [I4 [I5 I6]]]]]].
  - repeat split; constructor.
  - cbn [map]. destruct Hs as [->|[_ [d ->]]];
      cbn [id time message useClipboard contactList sent mark_sent];
      rewrite I1, I2, I3, I4, I5; repeat split; constructor; auto.
Qed.

(** X14: a tick of [checkSchedules] changes the store in nothing but
    marks: every record is either as before or marked sent, and a marked
    record has the id of a schedule that was due when the tick began.
    No record is added, removed or reordered, no time, message,
    clipboard choice or contact list is changed, and no record that was
    marked sent loses its mark. *)
Theorem tick_only_marks_due (w : World) :
  let o := checkSchedules w in
  onlyMarks (map id (dueAt w)) (schedules w) (schedules (st o))
  /\ map id (schedules (st o)) = map id (schedules w)
  /\ map time (schedules (st o)) = map time (schedules w)
  /\ map message (schedules (st o)) = map message (schedules w)
  /\ map useClipboard (schedules (st o)) = map useClipboard (schedules w)
  /\ map contactList (schedules (st o)) = map contactList (schedules w)
  /\ Forall2 (fun s s' => sent s = true -> sent s' = true)
       (schedules w) (schedules (st o)).
Proof.
  destruct (checkSchedules_frame w) as [_ [_ [M _]]].
  cbv zeta. split; [assumption|]. apply (onlyMarks_fields _ _ _ M).
Qed.

End Tickwise.

Section QuietTicks.
Context {B : Browser}.

Lemma flags_back w :
  isCheckingSchedules w = false ->
  set_isCheckingSchedules false (set_isCheckingSchedules true w) = w.
Proof. destruct w. cbn. intros ->. reflexivity. Qed.

Lemma nothing_due w :
  disconnectedBanner (page w) = true
  \/ (forall s, In s (schedules w) ->
                sent s = true \/ time s <> getCurrentTimeString (clock w)) ->
  dueAt w = [].
Proof.
  intros H. unfold dueAt.
  assert (F : forall s, In s (schedules w) ->
                        shouldSendMessage (page w) s
                          (getCurrentTimeString (clock w)) = false).
  { intros s Hs. unfold shouldSendMessage, isWhatsAppConnected.
    destruct H as [Off|Each].
    - rewrite Off. destruct (sent s); [reflexivity|].
      destruct (time s =? getCurrentTimeString (clock w)); reflexivity.
    - destruct (Each s Hs) as [-> | N]; [reflexivity|].
      destruct (sent s); [reflexivity|].
      apply String.eqb_neq in N. rewrite N. reflexivity. }
  clear H. revert F. generalize (schedules w). intros l.
  induction l as [|s l IH]; intros F; [reflexivity|].
  cbn [filter]. rewrite (F s (or_introl eq_refl)).
  apply IH. intros x Hx. apply F. right. assumption.
Qed.

(** X15: a tick that begins with no check in progress and a valid
    context, while the page shows the disconnect banner or every
    schedule is sent or set for another minute, does nothing but
    announce the next message: one status notification, and the world is
    exactly as before. *)
Theorem tick_with_nothing_due (w : World) :
  isCheckingSchedules w = false ->
  contextValid w = true ->
  disconnectedBanner (page w) = true
  \/ (forall s, In s (schedules w) ->
                sent s = true \/ time s <> getCurrentTimeString (clock w)) ->
  exists m,
    checkSchedules w
    = {| res := Ok tt; st := w; evs := [EStatus m SInfo] |}.
Proof.
  intros Idle V Quiet. pose proof (nothing_due w Quiet) as D.
  assert (N : exists m,
             updateNextMessageStatus (schedules w)
               (set_isCheckingSchedules true w)
             = {| res := Ok tt; st := set_isCheckingSchedules true w;
                  evs := [EStatus m SInfo] |}).
  { unfold updateNextMessageStatus.
    destruct (earliest _); eexists; reflexivity. }
  destruct N as [m N]. exists m.
  unfold checkSchedules. rewrite bind_get, Idle.
  rewrite (bind_run (modify (set_isCheckingSchedules true)) _ _ tt _ _ eq_refl).
  assert (Body : checkSchedules_try (set_isCheckingSchedules true w)
                 = {| res := Ok tt; st := set_isCheckingSchedules true w;
                      evs := [EStatus m SInfo] |}).
  { unfold checkSchedules_try. rewrite bind_get.
    cbn [contextValid set_isCheckingSchedules schedules page clock].
    rewrite V. cbn [negb].
    rewrite (bind_run _ _ _ _ _ _ N).
    unfold dueAt in D. rewrite D. reflexivity. }
  unfold finally, try_catch. rewrite Body.
  cbn [res st evs modify app]. rewrite (flags_back w Idle). reflexivity.
Qed.

(** X16: a tick that begins with no check in progress and an invalid
    context delivers nothing: it stops the scheduler when it was
    running, asks the storage to recover the context, and changes
    nothing else. *)
Theorem tick_on_invalid_context (w : World) :
  isCheckingSchedules w = false ->
  contextValid w = false ->
  let o := checkSchedules w in
  res o = Ok tt
  /\ evs o = (if isRunning w then [EStopped] else [])
             ++ [ETimer 2000 RecoverContext]
  /\ st o = (if isRunning w then set_isRunning false w else w).
Proof.
  intros Idle V. cbv zeta.
  unfold checkSchedules. rewrite bind_get, Idle.
  rewrite (bind_run (modify (set_isCheckingSchedules true)) _ _ tt _ _ eq_refl).
  unfold finally, try_catch, checkSchedules_try. rewrite bind_get.
  cbn [contextValid set_isCheckingSchedules]. rewrite V. cbn [negb].
  unfold stop. rewrite bind_assoc, bind_get.
  cbn [isRunning set_isCheckingSchedules].
  destruct (isRunning w) eqn:R; cbn [negb].
  - unfold bind, andThen, modify, emit, handleContextInvalidation.
    cbn [res st evs app]. repeat split.
    destruct w; cbn in *; subst; reflexivity.
  - rewrite bind_ret_l. unfold handleContextInvalidation, emit, modify.
    cbn [res st evs app]. repeat split. apply flags_back. assumption.
Qed.

End QuietTicks.

Lemma tick_restores_controls_witness :
  isRunning (st (checkSchedules invalidWorld)) = false.
Proof.
  pose proof (tick_restores_controls invalidWorld) as H.
  cbv zeta in H. destruct H as [_ [_ [H _]]].
  apply H; reflexivity.
Defined.

Lemma tick_with_nothing_due_witness :
  let w := chatWorld inConversation [mark_sent 20000 hiHere] in
  exists m,
    checkSchedules w = {| res := Ok tt; st := w; evs := [EStatus m SInfo] |}.
Proof.
  intros w.
  apply (tick_with_nothing_due w eq_refl eq_refl).
  right. intros s [<-|[]]. left. reflexivity.
Defined.

Lemma tick_on_invalid_context_witness :
  let o := checkSchedules invalidWorld in
  res o = Ok tt
  /\ evs o = [EStopped; ETimer 2000 RecoverContext]
  /\ st o = set_isRunning false invalidWorld.
Proof.
  intros o. exact (tick_on_invalid_context invalidWorld eq_refl eq_refl).
Defined.

(* ------------------------------------------------------------------ *)
(** ** The conversation switcher *)

Lemma bind_inv_st {B : Browser} {A C} (m : M A) (f : A -> M C) w c :
  res (bind m f w) = Ok c ->
  exists a w', res (f a w') = Ok c /\ st (bind m f w) = st (f a w').
Proof.
  intros H. apply bind_inv in H. destruct H as [a [_ [H S]]].
  exists a, (st (m w)). split; assumption.
Qed.

Lemma bind_read {B : Browser} {A C} (g : Page -> A) (f : A -> M C) w :
  bind (read g) f w = f (g (page w)) w.
Proof. unfold bind, andThen, read. cbn [res st evs app]. apply outcome_eta. Qed.

Ltac unbind H :=
  let a := fresh "a" in
  let w' := fresh "w" in
  let S := fresh "S" in
  apply bind_inv_st in H; destruct H as [a [w' [H S]]]; rewrite S; clear S.

Section Switcher.
Context {B : Browser}.

Lemma try_catch_inv {A} (m : M A) (h : Err -> M A) w a :
  res (try_catch m h w) = Ok a ->
  (res (m w) = Ok a /\ st (try_catch m h w) = st (m w))
  \/ (exists e, res (m w) = Throw e
                /\ res (h e (st (m w))) = Ok a
                /\ st (try_catch m h w) = st (h e (st (m w)))).
Proof.
  unfold try_catch, andThen. destruct (res (m w)) as [x|e] eqn:R; cbn [res st].
  - rewrite R. intros ->. left. split; reflexivity.
  - intros H. right. exists e. repeat split. assumption.
Qed.

(** A pass that ends on [return true] leaves a composer on the page. *)
Lemma openChat_pass_opened name w :
  res (openChat_pass name w) = Ok PassOpened ->
  exists el,
    findMessageInputBox (page (st (openChat_pass name w))) = Some el
    /\ isSearchBox (page (st (openChat_pass name w))) el = false.
Proof.
  unfold openChat_pass. intros H.
  apply try_catch_inv in H. destruct H as [[H S]|[e [_ [H _]]]];
    [|discriminate].
  rewrite S. clear S. unbind H. unfold openChat_attempt in H |- *.
  rewrite bind_read in H |- *.
  match type of H with
  | context [findSearchInput (page ?w')] =>
      destruct (findSearchInput (page w')) as [searchInput|]
  end.
  2:{ unbind H. discriminate. }
  do 15 unbind H. rewrite bind_read in H |- *.
  match type of H with
  | context [findMessageInputBox (page ?w')] =>
      destruct (findMessageInputBox (page w')) as [el|] eqn:F;
        [|discriminate];
      destruct (isSearchBox (page w') el) eqn:Sb; cbn [negb] in H |- *;
        [discriminate|]
  end.
  exists el. cbn [updateStatus emit bind andThen res st ret].
  split; assumption.
Qed.


Lemma openChat_opened name retries : forall w,
  res (openChat name retries w) = Ok true ->
  exists el,
    findMessageInputBox (page (st (openChat name retries w))) = Some el
    /\ isSearchBox (page (st (openChat name retries w))) el = false.
Proof.
  induction retries as [|n IH]; intros w H; cbn [openChat] in H |- *.
  - unbind H. discriminate.
  - apply bind_inv in H. destruct H as [r [R [H S]]]. rewrite S. clear S.
    destruct r.
    + cbn [ret st]. apply openChat_pass_opened. assumption.
    + apply IH. assumption.
    + unbind H. apply IH. assumption.
Qed.

(** X17: [openChat] always answers.  When it answers [true] the page
    it leaves behind has a message input that is not the search box;
    on a page without any message input it answers [false]; and with no
    retries it fails at once without touching the page. *)
Theorem openChat_true_means_composer
  (name : string) (retries : nat) (w : World) :
  let o := openChat name retries w in
  (exists opened, res o = Ok opened)
  /\ (res o = Ok true ->
      exists el,
        findMessageInputBox (page (st o)) = Some el
        /\ isSearchBox (page (st o)) el = false)
  /\ ((forall p, findMessageInputBox p = None) -> res o = Ok false)
  /\ (retries = 0%nat ->
      o = {| res := Ok false; st := w;
             evs := [EStatus (MsgChatOpenFailed name) SError] |}).
Proof.
  cbv zeta. split; [apply Total_openChat|]. split; [apply openChat_opened|].
  split.
  - intros None_. destruct (Total_openChat name retries w) as [[|] R];
      [|assumption].
    destruct (openChat_opened name retries w R) as [el [F _]].
    rewrite None_ in F. discriminate.
  - intros ->. reflexivity.
Qed.

Lemma openChat_pass_without_search name w :
  findSearchInput (page w) = None ->
  openChat_pass name w
  = {| res := Ok PassContinue;
       st := set_clock (clock w + 300) (set_page (elapse 300 (page w)) w);
       evs := [EStatus (MsgOpeningChat name) SWorking; ESleep AtPace 300] |}.
Proof.
  intros F. unfold openChat_pass, openChat_attempt, try_catch.
  rewrite (bind_run (updateStatus _ SWorking) _ _ tt _ _ eq_refl).
  rewrite bind_read, F.
  rewrite (bind_run (sleep AtPace 300) _ _ tt _ _ eq_refl).
  reflexivity.
Qed.

(** X18: while the page has no search input, [openChat] never touches
    the page: each of its passes announces the chat and waits 300 ms,
    and after the last the failure is announced; it answers [false],
    the clock has advanced by 300 ms for each pass, and the scheduler's
    own state is unchanged. *)
Theorem openChat_without_search_input
  (name : string) (retries : nat) (w : World) :
  (forall p, findSearchInput p = None) ->
  let o := openChat name retries w in
  res o = Ok false
  /\ evs o = passesWithoutSearch name retries
             ++ [EStatus (MsgChatOpenFailed name) SError]
  /\ clock (st o) = (clock w + 300 * Z.of_nat retries)%Z
  /\ page (st o) = elapsed 300 retries (page w)
  /\ ctl (st o) = ctl w.
Proof.
  intros None_. cbv zeta. revert w.
  induction retries as [|n IH]; intros w.
  - cbn. repeat split. lia.
  - cbn [openChat].
    rewrite (bind_run _ _ _ _ _ _
               (openChat_pass_without_search name w (None_ _))).
    cbn [res st evs passesWithoutSearch app elapsed].
    destruct (IH (set_clock (clock w + 300)
                    (set_page (elapse 300 (page w)) w)))
      as [R [E [C [P K]]]].
    rewrite R, E, C, P, K. cbn [clock page set_clock set_page].
    repeat split. lia.
Qed.

End Switcher.

(* ------------------------------------------------------------------ *)
(** ** The send primitive: the cooldown, and a page without composer *)

Section Cooldown.
Context {B : Browser}.

Lemma injectByTyping_stamped el text w :
  res (injectByTyping el text w) = Ok (Some true) ->
  exists w1, st (injectByTyping el text w) = set_lastSendTime (clock w1) w1.
Proof.
  unfold injectByTyping. intros H.
  apply try_catch_inv_some in H. destruct H as [H S0]. rewrite S0.
  do 7 unbind H. unfold stampSend. rewrite bind_assoc, bind_get.
  match goal with
  | |- context [bind (modify _) _ ?w'] => exists w'
  end.
  reflexivity.
Qed.

Lemma injectAndSendMessage_stamped text w :
  res (injectAndSendMessage text w) = Ok true ->
  exists w1,
    st (injectAndSendMessage text w) = set_lastSendTime (clock w1) w1.
Proof.
  unfold injectAndSendMessage. intros H.
  apply try_catch_inv in H. destruct H as [[H S]|[e [_ [H _]]]];
    [|discriminate].
  rewrite S. clear S. rewrite bind_get in H |- *.
  unbind H. rewrite bind_read in H |- *.
  match type of H with
  | context [findMessageInputBox (page ?w')] =>
      destruct (findMessageInputBox (page w')) as [inputBox|];
        [|discriminate]
  end.
  apply bind_inv in H. destruct H as [r1 [R1 [H S]]]. rewrite S. clear S.
  destruct r1 as [b|].
  { cbn [ret res] in H. injection H as ->. cbn [ret st].
    destruct (injectByClipboard_confirmed _ _ _ R1) as [x [_ E]].
    eexists. exact E. }
  apply bind_inv in H. destruct H as [r2 [R2 [H S]]]. rewrite S. clear S.
  destruct r2 as [b|].
  { cbn [ret res] in H. injection H as ->. cbn [ret st].
    destruct (injectByInsertion_confirmed _ _ _ R2) as [x [_ E]].
    eexists. exact E. }
  apply bind_inv in H. destruct H as [r3 [R3 [H S]]]. rewrite S. clear S.
  destruct r3 as [b|]; [|discriminate].
  cbn [ret res] in H. injection H as ->. cbn [ret st].
  apply injectByTyping_stamped. assumption.
Qed.

Lemma evs_try_catch_head {A} (m : M A) (h : Err -> M A) w e rest :
  evs (m w) = e :: rest ->
  exists rest', evs (try_catch m h w) = e :: rest'.
Proof.
  intros E. unfold try_catch, andThen. destruct (res (m w)).
  - exists rest. assumption.
  - cbn [evs]. rewrite E. eexists. reflexivity.
Qed.

Lemma evs_bind_head {A C} (m : M A) (f : A -> M C) w e rest :
  evs (m w) = e :: rest ->
  exists rest', evs (bind m f w) = e :: rest'.
Proof.
  intros E. unfold bind, andThen. destruct (res (m w)).
  - cbn [evs]. rewrite E. eexists. reflexivity.
  - exists rest. assumption.
Qed.

Lemma cooldown_first text w :
  (clock w - lastSendTime w < sendCooldown)%Z ->
  exists rest,
    evs (injectAndSendMessage text w)
    = ESleep AtCooldown (sendCooldown - (clock w - lastSendTime w)) :: rest.
Proof.
  intros Lt. unfold injectAndSendMessage.
  eapply evs_try_catch_head. rewrite bind_get.
  apply Z.ltb_lt in Lt. rewrite Lt.
  rewrite (bind_run (sleep AtCooldown _) _ _ tt _ _ eq_refl).
  cbn [evs app]. reflexivity.
Qed.

(** X19: a successful [injectAndSendMessage] stamps the time of the
    send, so the next send from the world it leaves begins by waiting
    the full cooldown of 2000 ms, and a send begun later, within the
    cooldown, begins by waiting for what is left of it. *)
Theorem sends_are_spaced (text : string) (w : World) :
  res (injectAndSendMessage text w) = Ok true ->
  let w' := st (injectAndSendMessage text w) in
  lastSendTime w' = clock w'
  /\ (forall next, exists rest,
         evs (injectAndSendMessage next w') = ESleep AtCooldown 2000 :: rest)
  /\ (forall next (later : World),
         lastSendTime later = lastSendTime w' ->
         (clock w' <= clock later < clock w' + 2000)%Z ->
         exists rest,
           evs (injectAndSendMessage next later)
           = ESleep AtCooldown (clock w' + 2000 - clock later) :: rest).
Proof.
  intros H. cbv zeta.
  destruct (injectAndSendMessage_stamped text w H) as [w1 E].
  assert (Stamp : lastSendTime (st (injectAndSendMessage text w))
                  = clock (st (injectAndSendMessage text w)))
    by (rewrite E; reflexivity).
  split; [assumption|]. split.
  - intros next.
    destruct (cooldown_first next (st (injectAndSendMessage text w)))
      as [rest R].
    + rewrite Stamp. unfold sendCooldown. lia.
    + exists rest. rewrite R, Stamp. unfold sendCooldown. f_equal. f_equal.
      lia.
  - intros next later L C.
    destruct (cooldown_first next later) as [rest R].
    + rewrite L, Stamp. unfold sendCooldown. lia.
    + exists rest. rewrite R, L, Stamp. unfold sendCooldown. f_equal.
      f_equal. lia.
Qed.

End Cooldown.

(* ------------------------------------------------------------------ *)
(** ** A delivery on a page without composer *)

Section NoComposer.
Context {B : Browser}.
Hypothesis no_composer : forall p : Page, findMessageInputBox p = None.

Lemma injectAndSendMessage_without_composer text w :
  res (injectAndSendMessage text w) = Ok false
  /\ forallb hands_off (evs (injectAndSendMessage text w)) = true.
Proof.
  unfold injectAndSendMessage, try_catch. rewrite bind_get.
  destruct (clock w - lastSendTime w <? sendCooldown)%Z.
  - rewrite (bind_run (sleep AtCooldown _) _ _ tt _ _ eq_refl).
    rewrite bind_read, no_composer. split; reflexivity.
  - rewrite bind_ret_l, bind_read, no_composer. split; reflexivity.
Qed.

Lemma Sound_injectAndSendMessage_quiet I {FI : UiFrame I} text :
  Sound I (fun e => loop_level e && hands_off e)
    (as_js (injectAndSendMessage text)).
Proof.
  intros w.
  destruct (Sound_injectAndSendMessage I loop_level text
              ltac:(level_sub) w) as [F Q].
  destruct (injectAndSendMessage_without_composer text w) as [R H].
  unfold as_js. rewrite (bind_ok _ _ _ _ R). unfold andThen.
  cbn [res st evs ret]. rewrite app_nil_r. split; [assumption|].
  rewrite forallb_forall in *. intros e He.
  rewrite (Q e He), (H e He). reflexivity.
Qed.

Lemma as_js_failed (m : M bool) w :
  res (m w) = Ok false -> attemptFailed (as_js m w).
Proof.
  intros R. unfold attemptFailed, as_js. rewrite (bind_ok _ _ _ _ R).
  reflexivity.
Qed.

Lemma smartRetry_from_all_failed operation maxRetries left :
  (forall w, attemptFailed (operation w)) ->
  forall attempt w,
    res (smartRetry_from operation maxRetries attempt left w)
    = Ok (JBool false).
Proof.
  intros F. induction left as [|n IH]; intros attempt w; [reflexivity|].
  rewrite (smartRetry_from_miss _ _ _ _ _ (F w)). unfold andThen.
  cbn [res st evs].
  destruct (attempt <? maxRetries)%nat.
  - rewrite (bind_run (sleep AtBackoff _) _ _ tt _ _ eq_refl).
    cbn [res]. apply IH.
  - rewrite bind_ret_l. apply IH.
Qed.

Lemma sendToContacts_all_closed text rest :
  forall len i success w,
    res (sendToContacts text len i rest success w) = Ok success.
Proof.
  induction rest as [|name rest' IH]; intros len i success w;
    cbn [sendToContacts]; [reflexivity|].
  rewrite bind_get.
  assert (Closed : forall w0, attemptFailed (as_js (openChat name 1) w0)).
  { intros w0. apply as_js_failed.
    destruct (Total_openChat name 1 w0) as [[|] R]; [|assumption].
    destruct (openChat_opened name 1 w0 R) as [el [F _]].
    rewrite no_composer in F. discriminate. }
  pose proof (smartRetry_from_all_failed _
                (if autoRetry (settings w) then 3 else 1)
                (if autoRetry (settings w) then 3 else 1)
                Closed 1%nat w) as R.
  fold (smartRetry (as_js (openChat name 1))
          (if autoRetry (settings w) then 3 else 1)) in R.
  rewrite (bind_ok _ _ _ _ R). unfold andThen. cbn [res truthy negb].
  apply IH.
Qed.

Lemma Sound_sendToContacts_loop I {FI : UiFrame I} text rest :
  forall len i success,
    Sound I loop_level (sendToContacts text len i rest success).
Proof.
  induction rest as [|name rest' IH]; intros len i success;
    cbn [sendToContacts]; sound.
  - apply (Sound_smartRetry I); [reflexivity|].
    apply (Sound_as_js I), (Sound_openChat I). level_sub.
  - apply (Sound_smartRetry I); [reflexivity|].
    apply (Sound_as_js I), (Sound_injectAndSendMessage I). level_sub.
Qed.

Lemma loop_level_no_store e : loop_level e = true -> is_store_update e = false.
Proof. revert e. level_sub. Qed.

(** X20: on a page where no message input is ever found, the delivery
    of a schedule whose text resolves fails cleanly: it ends without an
    error, the store is unchanged and no schedule is marked sent, the
    last notification is the failure status, and a schedule without
    contacts is given up without a single change to the page. *)
Theorem delivery_without_composer
  (schedule : Schedule) (text : string) (w : World) :
  isSending w = false ->
  resolvedText schedule (page w) = Some text ->
  let o := sendScheduledMessage schedule w in
  res o = Ok JUndefined
  /\ schedules (st o) = schedules w
  /\ filter is_store_update (evs o) = []
  /\ last (evs o) EStopped = EStatus MsgSendFailed SError
  /\ (namedContacts (contactList schedule) = [] ->
      forallb hands_off (evs o) = true).
Proof.
  intros Idle Text. cbv zeta.
  pose proof (sendScheduledMessage_try_resolved schedule text
                (set_isSending true w) Text) as Body.
  set (loop := match namedContacts (contactList schedule) with
               | _ :: _ =>
                   sendToContacts text
                     (List.length (namedContacts (contactList schedule))) 0
                     (namedContacts (contactList schedule)) (JBool false)
               | [] => smartRetry (as_js (injectAndSendMessage text)) 2
               end) in Body.
  assert (L : res (loop (set_isSending true w)) = Ok (JBool false)
              /\ ctl (st (loop (set_isSending true w)))
                 = ctl (set_isSending true w)
              /\ forallb loop_level (evs (loop (set_isSending true w))) = true
              /\ (namedContacts (contactList schedule) = [] ->
                  forallb hands_off (evs (loop (set_isSending true w)))
                  = true)).
  { unfold loop. destruct (namedContacts (contactList schedule)) as [|c cs].
    - split.
      { apply smartRetry_from_all_failed. intros w0. apply as_js_failed.
        apply injectAndSendMessage_without_composer. }
      destruct (Sound_smartRetry (fun w w' => ctl w' = ctl w)
                  (fun e => loop_level e && hands_off e)
                  (as_js (injectAndSendMessage text)) 2
                  ltac:(reflexivity)
                  (Sound_injectAndSendMessage_quiet _ text)
                  (set_isSending true w)) as [K Q].
      split; [assumption|].
      rewrite forallb_forall in Q.
      split; [|intros _]; apply forallb_forall; intros e He;
        specialize (Q e He); apply andb_prop in Q; tauto.
    - split; [apply sendToContacts_all_closed|].
      destruct (Sound_sendToContacts_loop (fun w w' => ctl w' = ctl w) text
                  (c :: cs) (List.length (c :: cs)) 0%nat (JBool false)
                  (set_isSending true w)) as [K Q].
      split; [assumption|]. split; [assumption|]. discriminate. }
  destruct L as [R [K [Q H]]].
  unfold andThen in Body. cbn [res st evs] in Body.
  rewrite (bind_ok loop _ _ _ R) in Body. unfold andThen in Body.
  unfold concludeSchedule in Body. cbn [truthy] in Body.
  rewrite (bind_run (updateStatus MsgSendFailed SError) _ _ tt _ _ eq_refl)
    in Body.
  cbn [res st evs ret app] in Body.
  unfold sendScheduledMessage. rewrite bind_get, Idle.
  rewrite (bind_run (modify (set_isSending true)) _ _ tt _ _ eq_refl).
  unfold finally, try_catch. rewrite Body.
  cbn [res st evs modify app schedules set_isSending].
  rewrite !app_nil_r.
  split; [reflexivity|]. split.
  { unfold ctl in K. injection K. intros. assumption. }
  split.
  { rewrite !filter_app.
    rewrite (filter_quiet _ _ _ loop_level_no_store Q).
    unfold resolutionEvents.
    destruct (field_falsy (message schedule) && useClipboard schedule);
      reflexivity. }
  split.
  { rewrite app_assoc. apply last_last. }
  intros NoContacts. rewrite !forallb_app, (H NoContacts).
  unfold resolutionEvents.
  destruct (field_falsy (message schedule) && useClipboard schedule);
    reflexivity.
Qed.

End NoComposer.

Lemma openChat_true_means_composer_witness :
  let o := openChat (B := ChatPage) "Bob" 3 (chatWorld onlyBob []) in
  res o = Ok true
  /\ exists el,
       findMessageInputBox (page (st o)) = Some el
       /\ isSearchBox (page (st o)) el = false.
Proof.
  intros o.
  assert (R : res o = Ok true) by (vm_compute; reflexivity).
  split; [exact R|].
  pose proof (openChat_true_means_composer (B := ChatPage) "Bob" 3
                (chatWorld onlyBob [])) as H.
  cbv zeta in H. destruct H as [_ [H _]]. exact (H R).
Defined.

Lemma openChat_without_search_input_witness :
  let o := openChat (B := BlankPage) "Bob" 3 (blankWorld []) in
  res o = Ok false
  /\ evs o = passesWithoutSearch "Bob" 3
             ++ [EStatus (MsgChatOpenFailed "Bob") SError]
  /\ clock (st o) = (nineOClock + 900)%Z.
Proof.
  intros o.
  destruct (openChat_without_search_input (B := BlankPage) "Bob" 3
              (blankWorld []) (fun _ => eq_refl)) as [R [E [C _]]].
  split; [exact R|]. split; [exact E|exact C].
Defined.

Lemma sends_are_spaced_witness :
  let w' := st (injectAndSendMessage (B := ChatPage) "Hi"
                  (chatWorld inConversation [])) in
  lastSendTime w' = clock w'
  /\ exists rest,
       evs (injectAndSendMessage (B := ChatPage) "Again" w')
       = ESleep AtCooldown 2000 :: rest.
Proof.
  intros w'.
  destruct (sends_are_spaced (B := ChatPage) "Hi"
              (chatWorld inConversation [])
              ltac:(vm_compute; reflexivity)) as [S [N _]].
  split; [exact S|exact (N "Again")].
Defined.

Lemma delivery_without_composer_witness :
  let o := sendScheduledMessage (B := BlankPage) pingAliceBob
             (blankWorld [pingAliceBob]) in
  res o = Ok JUndefined
  /\ schedules (st o) = [pingAliceBob]
  /\ last (evs o) EStopped = EStatus MsgSendFailed SError.
Proof.
  intros o.
  destruct (delivery_without_composer (B := BlankPage) (fun _ => eq_refl)
              pingAliceBob "Ping" (blankWorld [pingAliceBob])
              eq_refl ltac:(vm_compute; reflexivity)) as [R [S [_ [L _]]]].
  split; [exact R|]. split; [exact S|exact L].
Defined.

(* ------------------------------------------------------------------ *)
(** ** A test send from the panel *)

Section TestSend.
Context {B : Browser}.









End TestSend.


(* ------------------------------------------------------------------ *)
(** ** The next message of the status line *)

Section NextMessage.
Context {B : Browser}.

(** What is asked of the comparison built into the browser: swapping the
    two texts swaps the sign, and "not after" is transitive. *)
Hypothesis localeCompare_swap : forall a b,
  (localeCompare a b < 0 <-> 0 < localeCompare b a)%Z.
Hypothesis localeCompare_chain : forall a b c,
  (localeCompare a b <= 0)%Z -> (localeCompare b c <= 0)%Z ->
  (localeCompare a c <= 0)%Z.

Lemma localeCompare_self a : (localeCompare a a <= 0)%Z.
Proof. pose proof (localeCompare_swap a a). lia. Qed.

Lemma localeCompare_not_before a b :
  (localeCompare a b <? 0)%Z = false -> (localeCompare b a <= 0)%Z.
Proof.
  intros N. apply Z.ltb_ge in N. pose proof (localeCompare_swap a b). lia.
Qed.

Lemma earliest_from l : forall best,
  let r := fold_left
             (fun best x =>
                if (localeCompare (time x) (time best) <? 0)%Z then x
                else best) l best in
  In r (best :: l)
  /\ (localeCompare (time r) (time best) <= 0)%Z
  /\ forall x, In x l -> (localeCompare (time r) (time x) <= 0)%Z.
Proof.
  induction l as [|x l IH]; intros best; cbv zeta; cbn [fold_left].
  - split; [left; reflexivity|].
    split; [apply localeCompare_self|intros x []].
  - set (best1 := if (localeCompare (time x) (time best) <? 0)%Z then x
                  else best).
    destruct (IH best1) as [I [N A]]. cbv zeta in I, N, A.
    set (r := fold_left _ l best1) in *.
    assert (Mid : (localeCompare (time r) (time best) <= 0)%Z
                  /\ (localeCompare (time r) (time x) <= 0)%Z).
    { unfold best1 in *.
      destruct (localeCompare (time x) (time best) <? 0)%Z eqn:Lt.
      - split; [|assumption]. apply Z.ltb_lt in Lt.
        apply (localeCompare_chain _ (time x)); [assumption|lia].
      - split; [assumption|].
        apply (localeCompare_chain _ (time best)); [assumption|].
        apply localeCompare_not_before. assumption. }
    destruct Mid as [M1 M2]. split.
    + destruct I as [I|I].
      * unfold best1 in I.
        destruct (localeCompare (time x) (time best) <? 0)%Z;
          [right; left|left]; assumption.
      * right. right. assumption.
    + split; [assumption|]. intros y [<-|Hy]; [assumption|apply A; assumption].
Qed.

Lemma earliest_spec l :
  match earliest l with
  | None => l = []
  | Some s =>
      In s l
      /\ forall x, In x l -> (localeCompare (time s) (time x) <= 0)%Z
  end.
Proof.
  destruct l as [|s0 l]; [reflexivity|]. cbn [earliest].
  destruct (earliest_from l s0) as [I [N A]]. cbv zeta in *.
  split; [assumption|]. intros x [<-|Hx]; [assumption|apply A; assumption].
Qed.

(** X22: [updateNextMessageStatus] changes nothing and announces either
    that nothing is scheduled, when every schedule is sent, or the time
    and the number of contacts of an unsent schedule; provided the
    [localeCompare] of the browser is a consistent comparison (swapping
    its arguments swaps the sign, and "not after" is transitive), that
    schedule is one whose time it puts after the time of no unsent
    schedule. *)
Theorem next_message_is_earliest_unsent (all : list Schedule) (w : World) :
  let o := updateNextMessageStatus all w in
  res o = Ok tt /\ st o = w
  /\ ((forall s, In s all -> sent s = true) ->
      evs o = [EStatus MsgNoScheduled SInfo])
  /\ ((exists s, In s all /\ sent s = false) ->
      exists s,
        In s all /\ sent s = false
        /\ (forall x, In x all -> sent x = false ->
                      (localeCompare (time s) (time x) <= 0)%Z)
        /\ evs o = [EStatus (MsgNext (time s) (List.length (contactList s)))
                      SInfo]).
Proof.
  cbv zeta. unfold updateNextMessageStatus.
  pose proof (earliest_spec (filter (fun s => negb (sent s)) all)) as E.
  destruct (earliest (filter (fun s => negb (sent s)) all)) as [s|].
  - destruct E as [I Min]. apply filter_In in I. destruct I as [I U].
    apply negb_true_iff in U.
    split; [reflexivity|]. split; [reflexivity|]. split.
    { intros AllSent. rewrite (AllSent s I) in U. discriminate. }
    intros _. exists s. split; [assumption|]. split; [assumption|].
    split; [|reflexivity]. intros x Hx Ux. apply Min. apply filter_In.
    split; [assumption|]. rewrite Ux. reflexivity.
  - split; [reflexivity|]. split; [reflexivity|]. split; [reflexivity|].
    intros [s [I U]]. exfalso.
    assert (F : In s (filter (fun s => negb (sent s)) all)).
    { apply filter_In. split; [assumption|]. rewrite U. reflexivity. }
    rewrite E in F. destruct F.
Qed.

End NextMessage.

(** The comparison by units is a consistent one. *)
Lemma compareUnits_swap a b :
  (compareUnits a b < 0 <-> 0 < compareUnits b a)%Z.
Proof.
  unfold compareUnits. rewrite (String.compare_antisym a b).
  destruct (b ?= a)%string; cbn [CompOpp]; lia.
Qed.

Lemma compare_Lt_trans a b c :
  (a ?= b)%string = Lt -> (b ?= c)%string = Lt -> (a ?= c)%string = Lt.
Proof.
  intros H1 H2. apply String_as_OT.cmp_lt.
  apply (String_as_OT.lt_trans a b c); apply String_as_OT.cmp_lt; assumption.
Qed.

Lemma compareUnits_chain a b c :
  (compareUnits a b <= 0)%Z -> (compareUnits b c <= 0)%Z ->
  (compareUnits a c <= 0)%Z.
Proof.
  unfold compareUnits.
  destruct (a ?= b)%string eqn:Eab; try lia;
    destruct (b ?= c)%string eqn:Ebc; try lia; intros _ _.
  - apply String.compare_eq_iff in Eab. subst b. rewrite Ebc. lia.
  - apply String.compare_eq_iff in Eab. subst b. rewrite Ebc. lia.
  - apply String.compare_eq_iff in Ebc. subst c. rewrite Eab. lia.
  - rewrite (compare_Lt_trans _ _ _ Eab Ebc). lia.
Qed.

Lemma digit_compare a b :
  (0 <= a < 10)%Z -> (0 <= b < 10)%Z ->
  Ascii.compare (digit a) (digit b) = (a ?= b)%Z.
Proof. intros Ra Rb. digit_cases a; digit_cases b; reflexivity. Qed.

(** On the texts of two times of day it is the order of the times. *)
Lemma compareUnits_times h1 m1 h2 m2 :
  (0 <= h1 < 24)%Z -> (0 <= m1 < 60)%Z ->
  (0 <= h2 < 24)%Z -> (0 <= m2 < 60)%Z ->
  (compareUnits (pad2 h1 ++ ":" ++ pad2 m1) (pad2 h2 ++ ":" ++ pad2 m2) < 0
   <-> 60 * h1 + m1 < 60 * h2 + m2)%Z.
Proof.
  intros R1 R2 R3 R4. unfold compareUnits, pad2.
  cbn [append String.compare].
  rewrite !digit_compare by (Z.div_mod_to_equations; lia).
  change (":" ?= ":")%char with Eq.
  destruct (Z.compare_spec (h1 / 10) (h2 / 10));
    destruct (Z.compare_spec (h1 mod 10) (h2 mod 10));
    destruct (Z.compare_spec (m1 / 10) (m2 / 10));
    destruct (Z.compare_spec (m1 mod 10) (m2 mod 10));
    split; intros; try lia; Z.div_mod_to_equations; lia.
Qed.

(** Of a sent schedule for 09:00 and two unsent ones, for 10:30 and for
    09:00, the last is announced. *)
Lemma next_message_is_earliest_unsent_witness :
  let all := [mark_sent 20000 hiHere; laterToBob; pingAliceBob] in
  exists s,
    In s all /\ sent s = false
    /\ (forall x, In x all -> sent x = false ->
                  (compareUnits (time s) (time x) <= 0)%Z)
    /\ evs (updateNextMessageStatus (B := ChatPage) all
              (chatWorld inConversation all))
       = [EStatus (MsgNext "09:00" 2) SInfo].
Proof.
  intros all.
  pose proof (next_message_is_earliest_unsent (B := ChatPage)
                compareUnits_swap compareUnits_chain all
                (chatWorld inConversation all)) as H.
  cbv zeta in H. destruct H as [_ [_ [_ H]]].
  destruct H as [s [I [U [Min E]]]].
  - exists pingAliceBob. split; [right; right; left; reflexivity|reflexivity].
  - exists s. split; [exact I|]. split; [exact U|]. split; [exact Min|].
    vm_compute. reflexivity.
Defined.
